(** * A shallow embedding of [src/model/preprocessing.py]

    The module under study is a configuration-driven preprocessing engine.
    A [PreProcessor] receives a list of per-feature configuration
    dictionaries, compiles them into an "action plan" (one row per feature
    and per stage), assembles one column router per stage, and exposes the
    usual [fit] / [transform] / [fit_transform] contract.

    Modelling conventions used throughout.
    - Python objects read from the configuration are values of [pyobj].
    - A Python [dict] is an insertion-ordered association list ([dict]);
      the order matters because [enumerate] over the keys numbers the
      transformation steps.
    - Exceptions are the [Raise] case of [result]; code that also touches
      the caller's dictionaries or writes to the log runs in the monad [M]
      over a [world] (object store plus log).
    - Floating point numbers are idealised as rationals ([Q]); a missing
      entry of a table is the cell [NaN].
    - Library code (numpy, pandas casts, scikit-learn estimators) whose exact
      behaviour no statement below depends on is taken through the
      interface [Lib]. *)

From stdpp Require Import base strings pretty gmap.
From Stdlib Require Import ZArith QArith Qround Qabs Lqa String Ascii List Lia Bool.
From Stdlib Require Import Sorting.Permutation Sorting.Sorted.

Import ListNotations.
Local Open Scope nat_scope.
Local Open Scope string_scope.
Local Open Scope list_scope.

(* ===================================================================== *)
(** ** Python values, exceptions                                          *)
(* ===================================================================== *)

(** Objects that a configuration file can hold. *)
#[warnings="-register-all"]
Inductive pyobj : Type :=
| VNone
| VBool (b : bool)
| VInt (z : Z)
| VFloat (q : Q)
| VStr (s : string)
| VList (l : list pyobj).

Inductive exn : Type :=
| KeyError (k : string)
| ValueError (msg : string)
| TypeError (msg : string)
| IndexError (msg : string)
| AttributeError (msg : string).

Inductive result (A : Type) : Type :=
| OK (a : A)
| Raise (e : exn).
Arguments OK {A} a.
Arguments Raise {A} e.

Definition rbind {A B} (c : result A) (k : A -> result B) : result B :=
  match c with
  | OK a => k a
  | Raise e => Raise e
  end.

Declare Scope py_scope.
Delimit Scope py_scope with py.
Notation "x <- c ;; k" := (rbind c (fun x => k))
  (at level 100, c at next level, right associativity) : py_scope.
Local Open Scope py_scope.

(** [[f(x) for x in l]] where [f] may raise: the first exception wins. *)
Fixpoint rmap {A B} (f : A -> result B) (l : list A) : result (list B) :=
  match l with
  | [] => OK []
  | x :: l' => y <- f x ;; ys <- rmap f l' ;; OK (y :: ys)
  end.

(** [for x in l: acc = f(acc, x)] where [f] may raise. *)
Fixpoint rfold {A B} (f : A -> B -> result A) (l : list B) (acc : A) : result A :=
  match l with
  | [] => OK acc
  | x :: l' => acc' <- f acc x ;; rfold f l' acc'
  end.

(** [bool(v)]: Python truthiness. *)
Definition truthy (v : pyobj) : bool :=
  match v with
  | VNone => false
  | VBool b => b
  | VInt z => negb (z =? 0)%Z
  | VFloat q => negb (Qeq_bool q 0)
  | VStr s => negb (s =? "")
  | VList l => match l with [] => false | _ => true end
  end.

(** [v == s] for a string literal [s]. *)
Definition is_str (v : pyobj) (s : string) : bool :=
  match v with
  | VStr s' => s' =? s
  | _ => false
  end.

(* ===================================================================== *)
(** ** Dictionaries                                                       *)
(* ===================================================================== *)

(** An insertion-ordered dictionary with string keys. *)
Definition dict : Type := list (string * pyobj).

Definition keys (d : dict) : list string := map fst d.

(** [k in d] *)
Definition contains (d : dict) (k : string) : bool :=
  existsb (String.eqb k) (keys d).

(** [d[k]] *)
Fixpoint getitem (d : dict) (k : string) : result pyobj :=
  match d with
  | [] => Raise (KeyError k)
  | (k', v) :: d' => if k' =? k then OK v else getitem d' k
  end.

(** [d.update({k: v})] (also [d[k] = v]): an existing key keeps its
    position, a new key goes last. *)
Fixpoint update (d : dict) (k : string) (v : pyobj) : dict :=
  match d with
  | [] => [(k, v)]
  | (k', v') :: d' => if k' =? k then (k', v) :: d' else (k', v') :: update d' k v
  end.

(** A dict comprehension [{key(x): val(x) for x in l}]. *)
Definition dict_of (l : list (string * pyobj)) : dict :=
  fold_left (fun d kv => update d (fst kv) (snd kv)) l [].

(** [l.index(x)] *)
Fixpoint index (l : list string) (x : string) : result nat :=
  match l with
  | [] => Raise (ValueError "is not in list")
  | y :: l' => if y =? x then OK 0 else i <- index l' x ;; OK (S i)
  end.

(** A feature name is a string (the schema's [name] field); anything else
    found under ["name"] is rejected. *)
Definition as_name (v : pyobj) : result string :=
  match v with
  | VStr s => OK s
  | _ => Raise (TypeError "feature name is not a string")
  end.

(** [config["name"]] *)
Definition config_name (config : dict) : result string :=
  n <- getitem config "name" ;; as_name n.

(* ===================================================================== *)
(** ** The action plan: [PreProcessor.__create_action_plan]               *)
(* ===================================================================== *)

(** One row of the action-plan data frame. The columns are named as in the
    source: feature_order, feature_name, active, type, transform_order, key,
    value. *)
Record plan_row : Type := mk_row {
  feature_order : nat;
  feature_name : string;
  active : pyobj;
  type_ : pyobj;
  transform_order : nat;
  key : string;
  value : pyobj
}.

(** Keys of a configuration dictionary that are not transformation steps. *)
Definition reserved : list string :=
  ["name"; "active"; "type"; "encode"; "polynomial_degree"].

(** [filter(lambda x: x not in (...), config.keys())] *)
Definition step_keys (config : dict) : list string :=
  List.filter (fun x => negb (existsb (String.eqb x) reserved)) (keys config).

(** [enumerate(l)] starting at [start]. *)
Fixpoint enumerate_from {A} (start : nat) (l : list A) : list (nat * A) :=
  match l with
  | [] => []
  | x :: l' => (start, x) :: enumerate_from (S start) l'
  end.
Definition enumerate {A} (l : list A) : list (nat * A) := enumerate_from 0 l.

(** The tuple
    [(j, config["name"], config["active"], config["type"], i, k, config[k])]
    built for the [j]-th configuration and its [i]-th step key [k]. *)
Definition declared_row (j : nat) (config : dict) (ik : nat * string) : result plan_row :=
  n <- getitem config "name" ;;
  n <- as_name n ;;
  a <- getitem config "active" ;;
  t <- getitem config "type" ;;
  v <- getitem config (snd ik) ;;
  OK (mk_row j n a t (fst ik) (snd ik) v).

(** The rows contributed by the [j]-th configuration dictionary: one per
    [i, k] in [enumerate] of its step keys. *)
Definition config_rows (j : nat) (config : dict) : result (list plan_row) :=
  rmap (declared_row j config) (enumerate (step_keys config)).

(** The initial data frame: the rows of every configuration, in order. *)
Definition declared_rows (features_config : list dict) : result (list plan_row) :=
  rs <- rmap (fun jc : nat * dict => config_rows (fst jc) (snd jc))
             (enumerate features_config) ;;
  OK (concat rs).

(** [s.unique()]: distinct values in order of first appearance. *)
Fixpoint unique (l : list nat) : list nat :=
  match l with
  | [] => []
  | x :: l' => x :: List.filter (fun y => negb (y =? x)%nat) (unique l')
  end.

(** [df[(df["feature_name"] == col) & (df["transform_order"] == order)]] *)
Definition select_rows (df : list plan_row) (col : string) (order : nat) : list plan_row :=
  List.filter (fun r => (feature_name r =? col) && (transform_order r =? order)%nat) df.

(** The body of the inner loop: when no row exists for ([col], [order]), an
    identity row is appended. *)
Definition fill_missing (feature_names : list string) (feature_active feature_types : dict)
    (order : nat) (df : list plan_row) (col : string) : result (list plan_row) :=
  if (length (select_rows df col order) =? 0)%nat then
    o <- index feature_names col ;;
    a <- getitem feature_active col ;;
    t <- getitem feature_types col ;;
    OK (df ++ [mk_row o col a t order "transformation" (VStr "identity")])
  else OK df.

(** [df.sort_values(["transform_order", "feature_order"])]. *)
Definition row_leb (r1 r2 : plan_row) : bool :=
  (transform_order r1 <? transform_order r2)%nat
  || ((transform_order r1 =? transform_order r2)%nat
      && (feature_order r1 <=? feature_order r2)%nat).

Fixpoint insert_row (r : plan_row) (l : list plan_row) : list plan_row :=
  match l with
  | [] => [r]
  | r' :: l' => if row_leb r r' then r :: l else r' :: insert_row r l'
  end.

Fixpoint sort_values (df : list plan_row) : list plan_row :=
  match df with
  | [] => []
  | r :: df' => insert_row r (sort_values df')
  end.

(** [__create_action_plan], as a function of the attributes it reads. *)
Definition action_plan (features_config : list dict) (feature_names : list string)
    (feature_active feature_types : dict) : result (list plan_row) :=
  df <- declared_rows features_config ;;
  df <- rfold (fun df order =>
                 rfold (fill_missing feature_names feature_active feature_types order)
                       feature_names df)
              (unique (map transform_order df)) df ;;
  OK (sort_values df).

(* ===================================================================== *)
(** ** Tables                                                             *)
(* ===================================================================== *)

(** One entry of a table: a number, a string, or a missing entry. *)
Inductive cell : Type :=
| Num (q : Q)
| Str (s : string)
| NaN.

Definition column : Type := list cell.

(** A raw two-dimensional array, stored column by column. *)
Definition ndarray : Type := list column.

(** A data frame: labelled columns, in order. *)
Definition frame : Type := list (string * column).

Definition columns (X : frame) : list string := map fst X.
Definition values (X : frame) : ndarray := map snd X.

(** [X[c]] for one label. *)
Fixpoint getcol (X : frame) (c : string) : result column :=
  match X with
  | [] => Raise (KeyError c)
  | (c', v) :: X' => if c' =? c then OK v else getcol X' c
  end.

(** [X[c] = v] for a label already present keeps the column's position; a
    new label is appended. *)
Fixpoint setcol (X : frame) (c : string) (v : column) : frame :=
  match X with
  | [] => [(c, v)]
  | (c', v') :: X' => if c' =? c then (c', v) :: X' else (c', v') :: setcol X' c v
  end.

(** [X[features]] for a list of labels. *)
Definition getcols (X : frame) (features : list string) : result frame :=
  rmap (fun c => v <- getcol X c ;; OK (c, v)) features.

(** [X.iloc[:, [o]]]: positional selection of one column. *)
Definition iloc (X : frame) (o : nat) : result frame :=
  match nth_error X o with
  | Some cv => OK [cv]
  | None => Raise (ValueError "all features must be in [0, n_columns - 1]")
  end.

(** [pd.DataFrame(a, columns=names)] *)
Definition rewrap (names : list string) (a : ndarray) : result frame :=
  if (length names =? length a)%nat then OK (combine names a)
  else Raise (ValueError "Shape of passed values does not match the columns").

(** A column is numeric when it holds no string. *)
Definition is_numeric (c : column) : bool :=
  forallb (fun x => match x with Str _ => false | _ => true end) c.

(** Apply a function of numbers to a column; a missing entry stays missing
    and a string raises. *)
Definition map_num (f : Q -> cell) (c : column) : result column :=
  rmap (fun x => match x with
                 | Num q => OK (f q)
                 | NaN => OK NaN
                 | Str _ => Raise (TypeError "unsupported operand type: str")
                 end) c.

(** The numbers present in a column. *)
Definition present (c : column) : list Q :=
  flat_map (fun x => match x with Num q => [q] | _ => [] end) c.

Definition Qsum (l : list Q) : Q := fold_right Qplus 0%Q l.

(** The mean of the entries present; missing when there is none. *)
Definition mean (c : column) : cell :=
  match present c with
  | [] => NaN
  | l => Num (Qred (Qsum l / inject_Z (Z.of_nat (length l))))
  end.

Fixpoint Qinsert (q : Q) (l : list Q) : list Q :=
  match l with
  | [] => [q]
  | q' :: l' => if Qle_bool q q' then q :: l else q' :: Qinsert q l'
  end.
Definition Qsort (l : list Q) : list Q := fold_right Qinsert [] l.

(** The median of the entries present; missing when there is none. *)
Definition median (c : column) : cell :=
  let l := Qsort (present c) in
  let n := length l in
  match n with
  | O => NaN
  | _ => if Nat.even n
         then Num (Qred ((nth (n / 2 - 1) l 0%Q + nth (n / 2) l 0%Q) / 2))
         else Num (nth (n / 2) l 0%Q)
  end.

(** [round(x)] to the nearest integer, ties to the even one (numpy). *)
Definition round_half_even (q : Q) : Z :=
  let f := Qfloor q in
  let r := (q - inject_Z f)%Q in
  match (r ?= 1 # 2)%Q with
  | Lt => f
  | Gt => (f + 1)%Z
  | Eq => if Z.even f then f else (f + 1)%Z
  end.

(** [s.round(0)] on a column. *)
Definition round0 (c : column) : result column :=
  map_num (fun q => Num (inject_Z (round_half_even q))) c.

(** Truncation towards zero. *)
Definition truncate (q : Q) : Z :=
  if Qle_bool 0 q then Qfloor q else Qceiling q.

Definition int64_min : Z := (- 2 ^ 63)%Z.
Definition int64_max : Z := (2 ^ 63 - 1)%Z.

(** numpy's conversion of a float to a 64-bit integer: the fraction is
    dropped; a value outside the 64-bit range does not raise and yields the
    smallest 64-bit integer (what the conversion instruction of x86-64
    returns). *)
Definition to_int64 (q : Q) : Z :=
  let z := truncate q in
  if ((int64_min <=? z) && (z <=? int64_max))%Z then z else int64_min.

(** [c.astype("int64")] on a column of floats: pandas refuses a missing
    entry and converts every number with numpy's conversion. A string does
    not reach this cast in [__cast_columns], where rounding comes first and
    raises on it. *)
Definition astype_int64 (c : column) : result column :=
  rmap (fun x => match x with
                 | Num q => OK (Num (inject_Z (to_int64 q)))
                 | NaN => Raise (ValueError "Cannot convert non-finite values (NA or inf) to integer")
                 | Str _ => Raise (ValueError "invalid literal for int()")
                 end) c.

(* ===================================================================== *)
(** ** Library interface                                                  *)
(* ===================================================================== *)

(** The numpy functions a [FeatureTransformer] can hold. *)
Inductive ufunc : Type :=
| np_log | np_log10 | np_log1p | np_exp | np_square | np_sqrt | lambda_identity.

Inductive scaler_kind : Type := MinMaxScaler | StandardScaler | RobustScaler.

(** Library operations whose numerical detail is left open: transcendental
    functions, the fitted parameters of scikit-learn's scalers and of
    [KBinsDiscretizer], pandas' [astype], and Python's [str], [float] and
    [int] conversions. A fitted scaler or discretizer is summarised by a
    list of rationals per column. *)
Class Lib : Type := {
  np_call : ufunc -> Q -> cell;
  scaler_fit : scaler_kind -> frame -> result (list (list Q));
  scaler_transform : scaler_kind -> list (list Q) -> frame -> result ndarray;
  kbins_fit : string -> Z -> frame -> result (list (list Q));
  kbins_transform : list (list Q) -> frame -> result ndarray;
  astype : string -> column -> result column;
  py_str : pyobj -> string;
  py_float : string -> result Q;
  py_int : string -> result Z
}.

(* ===================================================================== *)
(** ** The world: the caller's dictionaries and the log                    *)
(* ===================================================================== *)

Definition loc : Type := positive.

Inductive event : Type :=
| Printed (line : string)
| LoggedError (e : exn).

Record world : Type := mk_world {
  heap : gmap loc dict;
  journal : list event
}.

(** Computations that read and write the world and may raise. The world
    survives an exception. *)
Definition M (A : Type) : Type := world -> world * result A.

Definition ret {A} (a : A) : M A := fun w => (w, OK a).
Definition raise {A} (e : exn) : M A := fun w => (w, Raise e).
Definition lift {A} (r : result A) : M A := fun w => (w, r).
Definition bind {A B} (c : M A) (k : A -> M B) : M B :=
  fun w => match c w with
           | (w', OK a) => k a w'
           | (w', Raise e) => (w', Raise e)
           end.

Notation "x <~ c ;; k" := (bind c (fun x => k))
  (at level 100, c at next level, right associativity) : py_scope.

Definition emit (e : event) : M unit :=
  fun w => (mk_world (heap w) (journal w ++ [e]), OK tt).

(** Dereference a dictionary object. *)
Definition load (l : loc) : M dict :=
  fun w => match heap w !! l with
           | Some d => (w, OK d)
           | None => (w, Raise (ValueError "dangling reference"))
           end.

(** Overwrite a dictionary object in place. *)
Definition store (l : loc) (d : dict) : M unit :=
  fun w => (mk_world (<[l := d]> (heap w)) (journal w), OK tt).

Fixpoint mmap {A B} (f : A -> M B) (l : list A) : M (list B) :=
  match l with
  | [] => ret []
  | x :: l' => y <~ f x ;; ys <~ mmap f l' ;; ret (y :: ys)
  end.

Fixpoint mfold {A B} (f : A -> B -> M A) (l : list B) (acc : A) : M A :=
  match l with
  | [] => ret acc
  | x :: l' => acc' <~ f acc x ;; mfold f l' acc'
  end.

(** [try: c  except Exception as err: logging.error(err); raise err] *)
Definition logged {A} (c : result A) : M A :=
  match c with
  | OK a => ret a
  | Raise e => _ <~ emit (LoggedError e) ;; raise e
  end.

(** [dataframe_transformer(X, t)] from [src.base.commons].

    Modelled from the spec: the adapter of [src.base.commons] is not part of
    the sources at hand; the specification describes it as applying the
    underlying columnar transform and rewrapping its raw output in a table
    that carries the column names of the input. [tr] is the bound
    [transform] method of [t]. *)
Definition dataframe_transformer (X : frame) (tr : frame -> M ndarray) : M frame :=
  a <~ tr X ;;
  lift (rewrap (columns X) a).

(* ===================================================================== *)
(** ** Strings                                                            *)
(* ===================================================================== *)

Definition lower_ascii (c : ascii) : ascii :=
  let n := nat_of_ascii c in
  if ((65 <=? n) && (n <=? 90))%nat then ascii_of_nat (n + 32) else c.

(** [s.lower()] on ASCII text. *)
Fixpoint lower (s : string) : string :=
  match s with
  | EmptyString => EmptyString
  | String c s' => String (lower_ascii c) (lower s')
  end.

(** [sub in s] *)
Fixpoint substring_in (sub s : string) : bool :=
  String.prefix sub s
  || match s with
     | EmptyString => false
     | String _ s' => substring_in sub s'
     end.

(** [s.split(sep)] for a one-character separator: never empty. *)
Fixpoint split (sep : ascii) (s : string) : list string :=
  match s with
  | EmptyString => [EmptyString]
  | String c s' =>
      if Ascii.eqb c sep then EmptyString :: split sep s'
      else match split sep s' with
           | [] => [String c EmptyString]
           | w :: ws => String c w :: ws
           end
  end.

(** [str(v)] *)
Definition str `{Lib} (v : pyobj) : string :=
  match v with
  | VStr s => s
  | _ => py_str v
  end.

(* ===================================================================== *)
(** ** Elementary transforms                                              *)
(* ===================================================================== *)

(** *** [FeatureTransformer] *)

(** [FeatureTransformer.__interpret_transformation] *)
Definition interpret_transformation (transformation : pyobj) : result ufunc :=
  if is_str transformation "log" then OK np_log
  else if is_str transformation "log10" then OK np_log10
  else if is_str transformation "log1p" then OK np_log1p
  else if is_str transformation "exp" then OK np_exp
  else if is_str transformation "square" then OK np_square
  else if is_str transformation "sqrt" then OK np_sqrt
  else if is_str transformation "identity" then OK lambda_identity
  else Raise (ValueError "The value for 'transformation' is not supported.").

(** Calling the stored function on one column (a pandas Series). *)
Definition call_ufunc `{Lib} (f : ufunc) (c : column) : result column :=
  match f with
  | lambda_identity => OK c
  | np_square => map_num (fun q => Num (q * q)) c
  | _ => map_num (np_call f) c
  end.

(** [X.apply(f)]: [f] is applied to every column. *)
Definition apply `{Lib} (f : ufunc) (X : frame) : result frame :=
  rmap (fun cv : string * column => v <- call_ufunc f (snd cv) ;; OK (fst cv, v)) X.

(** *** [FeatureClipper] *)

(** A clipping bound read from the configuration. *)
Definition bound (v : pyobj) : result (option Q) :=
  match v with
  | VNone => OK None
  | VInt z => OK (Some (inject_Z z))
  | VFloat q => OK (Some q)
  | _ => Raise (TypeError "clip bound is not a number")
  end.

Definition clip_cell (lower upper : option Q) (q : Q) : cell :=
  match lower with
  | Some lo => if Qle_bool lo q then
                 match upper with
                 | Some hi => if Qle_bool q hi then Num q else Num hi
                 | None => Num q
                 end
               else Num lo
  | None => match upper with
            | Some hi => if Qle_bool q hi then Num q else Num hi
            | None => Num q
            end
  end.

(** [X.clip(lower, upper)] of pandas: two scalar bounds given in the wrong
    order are swapped; missing entries stay missing; comparing a string
    with a bound raises. *)
Definition pd_clip (X : frame) (lower upper : option Q) : result frame :=
  let '(lower, upper) :=
    match lower, upper with
    | Some lo, Some hi => if Qle_bool lo hi then (lower, upper) else (upper, lower)
    | _, _ => (lower, upper)
    end in
  match lower, upper with
  | None, None => OK X
  | _, _ =>
      rmap (fun cv : string * column =>
              v <- map_num (clip_cell lower upper) (snd cv) ;; OK (fst cv, v)) X
  end.

(** [X.clip( *self.limits)]: the limits are unpacked into the positional
    arguments [lower] and [upper]. *)
Definition clip (X : frame) (limits : pyobj) : result frame :=
  match limits with
  | VList [] => pd_clip X None None
  | VList [lo] => lo <- bound lo ;; pd_clip X lo None
  | VList [lo; hi] => lo <- bound lo ;; hi <- bound hi ;; pd_clip X lo hi
  | VList _ => Raise (TypeError "clip() takes at most two bounds here")
  | _ => Raise (TypeError "argument after * must be an iterable")
  end.

(** *** [FeatureImputer] and scikit-learn's [SimpleImputer] *)

Inductive imputer_strategy : Type := si_mean | si_median | si_constant.

(** What [FeatureImputer.imputer] can hold once [fit] has run. *)
Inductive imputer_obj : Type :=
| SimpleImputer (strategy : imputer_strategy) (fill_value : pyobj)
                (statistics_ : option (list cell))
| ImputerIdentity.

(** [FeatureImputer.__interpret_imputation] *)
Definition interpret_imputation (imputation : string) (param : pyobj) : imputer_obj :=
  if imputation =? "mean" then SimpleImputer si_mean VNone None
  else if imputation =? "median" then SimpleImputer si_median VNone None
  else if imputation =? "constant" then SimpleImputer si_constant param None
  else ImputerIdentity.

(** The value a constant imputer writes: [fill_value], or by default 0 for
    numerical data and ["missing_value"] for string data. *)
Definition fill_cell (fill_value : pyobj) (numeric : bool) : result cell :=
  match fill_value with
  | VNone => OK (if numeric then Num 0 else Str "missing_value")
  | VInt z => OK (Num (inject_Z z))
  | VFloat q => OK (Num q)
  | VBool b => OK (Num (if b then 1 else 0))
  | VStr s => if numeric
              then Raise (ValueError "fill_value must be numeric for numerical data")
              else OK (Str s)
  | VList _ => Raise (ValueError "fill_value has an unsupported type")
  end.

(** The number of rows of a table; a table without columns has none. *)
Definition n_samples (X : frame) : nat :=
  match X with
  | [] => 0
  | cv :: _ => length (snd cv)
  end.

(** scikit-learn's [check_array] as [SimpleImputer] calls it on every
    input, at fit and at transform time: the mean and median strategies
    convert the table to floats, which fails on a string, and every
    strategy requires at least one row and one column. *)
Definition validate_input (strategy : imputer_strategy) (X : frame) : result unit :=
  match strategy, forallb is_numeric (values X) with
  | si_mean, false =>
      Raise (ValueError "Cannot use mean strategy with non-numeric data")
  | si_median, false =>
      Raise (ValueError "Cannot use median strategy with non-numeric data")
  | _, _ =>
      if (n_samples X =? 0)%nat
      then Raise (ValueError "Found array with 0 sample(s) or 0 feature(s)")
      else OK tt
  end.

(** [SimpleImputer.fit(X)]: the input is validated, then the statistics
    are computed, one per column. *)
Definition SimpleImputer_fit (strategy : imputer_strategy) (fill_value : pyobj)
    (X : frame) : result (list cell) :=
  _ <- validate_input strategy X ;;
  match strategy with
  | si_mean => OK (map mean (values X))
  | si_median => OK (map median (values X))
  | si_constant =>
      c <- fill_cell fill_value (forallb is_numeric (values X)) ;;
      OK (map (fun _ => c) (values X))
  end.

Definition fillna (stat : cell) (c : column) : column :=
  map (fun x => match x with NaN => stat | _ => x end) c.

(** The filling of [SimpleImputer.transform(X)]: missing entries receive
    the column's statistic; with the mean or median strategy a column whose
    statistic is itself missing is dropped from the output. *)
Fixpoint impute (strategy : imputer_strategy) (stats : list cell) (a : ndarray) : ndarray :=
  match stats, a with
  | s :: stats', c :: a' =>
      match strategy, s with
      | si_constant, _ => fillna s c :: impute strategy stats' a'
      | _, NaN => impute strategy stats' a'
      | _, _ => fillna s c :: impute strategy stats' a'
      end
  | _, _ => []
  end.

(** [SimpleImputer.transform(X)]: the imputer must be fitted, the input is
    validated as at fit time and must have the number of columns seen
    there. *)
Definition SimpleImputer_transform (strategy : imputer_strategy)
    (statistics_ : option (list cell)) (X : frame) : result ndarray :=
  match statistics_ with
  | None => Raise (AttributeError "This SimpleImputer instance is not fitted yet")
  | Some stats =>
      _ <- validate_input strategy X ;;
      if (length stats =? length X)%nat then OK (impute strategy stats (values X))
      else Raise (ValueError "X has a different number of features than at fit")
  end.

Definition imputer_fit (i : imputer_obj) (X : frame) : result imputer_obj :=
  match i with
  | SimpleImputer s fv _ => st <- SimpleImputer_fit s fv X ;; OK (SimpleImputer s fv (Some st))
  | ImputerIdentity => OK ImputerIdentity
  end.

Definition imputer_transform (i : option imputer_obj) (X : frame) : M ndarray :=
  match i with
  | None => raise (AttributeError "'NoneType' object has no attribute 'transform'")
  | Some (SimpleImputer s _ st) => lift (SimpleImputer_transform s st X)
  | Some ImputerIdentity => ret (values X)
  end.

(** *** [FeatureScaler] *)

(** What [FeatureScaler.scaler] can hold: one of scikit-learn's scalers,
    with its fitted parameters once [fit] has run, or [Identity]. *)
Inductive scaler_obj : Type :=
| SkScaler (kind : scaler_kind) (params : option (list (list Q)))
| ScalerIdentity.

(** [FeatureScaler.__interpret_scaler] *)
Definition interpret_scaler (scaler : pyobj) : scaler_obj :=
  if is_str scaler "min_max" then SkScaler MinMaxScaler None
  else if is_str scaler "standard" then SkScaler StandardScaler None
  else if is_str scaler "robust" then SkScaler RobustScaler None
  else match scaler with
       | VNone => ScalerIdentity
       | _ => ScalerIdentity
       end.

Definition scaler_obj_fit `{Lib} (s : scaler_obj) (X : frame) : result scaler_obj :=
  match s with
  | SkScaler k _ => p <- scaler_fit k X ;; OK (SkScaler k (Some p))
  | ScalerIdentity => OK ScalerIdentity
  end.

Definition scaler_obj_transform `{Lib} (s : scaler_obj) (X : frame) : M ndarray :=
  match s with
  | SkScaler k (Some p) => lift (scaler_transform k p X)
  | SkScaler k None => raise (AttributeError "This scaler instance is not fitted yet")
  | ScalerIdentity => ret (values X)
  end.

(** *** [FeatureWeigher] *)

Fixpoint repeat_string (n : nat) (s : string) : string :=
  match n with
  | O => EmptyString
  | S n' => String.append s (repeat_string n' s)
  end.

(** [x * weight] for one entry. *)
Definition times (weight : pyobj) (x : cell) : result cell :=
  match weight, x with
  | VInt z, Num q => OK (Num (q * inject_Z z))
  | VFloat w, Num q => OK (Num (q * w))
  | VBool b, Num q => OK (Num (q * (if b then 1 else 0)))
  | VInt z, Str s => OK (Str (repeat_string (Z.to_nat z) s))
  | VBool b, Str s => OK (Str (if b then s else EmptyString))
  | (VInt _ | VFloat _ | VBool _), NaN => OK NaN
  | _, _ => Raise (TypeError "unsupported operand type(s) for *")
  end.

(** [for col in X.columns: X[col] = X[col] * self.weight] *)
Definition weigh (X : frame) (weight : pyobj) : result frame :=
  rfold (fun X col =>
           c <- getcol X col ;;
           c <- rmap (times weight) c ;;
           OK (setcol X col c))
        (columns X) X.

(** *** [FeatureDiscretizer] *)

(** A value map: bin index to the mean of the training values of the bin. *)
Definition value_map : Type := list (Q * cell).

Fixpoint lookup_bin (subs : value_map) (q : Q) : option cell :=
  match subs with
  | [] => None
  | (k, v) :: subs' => if Qeq_bool k q then Some v else lookup_bin subs' q
  end.

(** The bin indices of a column, sorted, without repetition. *)
Fixpoint Qdistinct (l : list Q) : list Q :=
  match l with
  | [] => []
  | q :: l' => q :: List.filter (fun q' => negb (Qeq_bool q q')) (Qdistinct l')
  end.

(** [pd.DataFrame({"order": o, "value": v}).groupby("order").mean()
       .to_dict()["value"]] *)
Definition group_means (order value_ : column) : result value_map :=
  if is_numeric value_ then
    OK (map (fun k =>
               (k, mean (flat_map
                           (fun ov : cell * cell =>
                              match fst ov with
                              | Num o => if Qeq_bool o k then [snd ov] else []
                              | _ => []
                              end)
                           (combine order value_))))
            (Qsort (Qdistinct (present order))))
  else Raise (TypeError "Could not convert to numeric").

(** [FeatureDiscretizer.__train_value_maps]: one map per column of the
    discretized training data. *)
Definition train_value_maps (X_transf : ndarray) (X : frame) : result (list value_map) :=
  rmap (fun i =>
          match nth_error X_transf i, nth_error (values X) i with
          | Some o, Some v => group_means o v
          | _, _ => Raise (IndexError "single positional indexer is out-of-bounds")
          end)
       (seq 0 (length X_transf)).

(** [pd.Series(c).replace(subs)] *)
Definition replace (subs : value_map) (c : column) : column :=
  map (fun x => match x with
                | Num q => match lookup_bin subs q with
                           | Some v => v
                           | None => x
                           end
                | _ => x
                end) c.

(** [pd.DataFrame(temp_columns)] where [temp_columns] is a dictionary
    filled by successive [update]s. *)
Definition frame_of (cols : list (string * column)) : frame :=
  fold_left (fun X cv => setcol X (fst cv) (snd cv)) cols [].

(** [FeatureDiscretizer.__apply_value_maps] *)
Definition apply_value_maps (value_maps : option (list value_map)) (X_transf : frame)
    : result frame :=
  cols <- rmap (fun i =>
                  match value_maps with
                  | None => Raise (TypeError "'NoneType' object is not subscriptable")
                  | Some maps =>
                      match nth_error maps i, nth_error X_transf i with
                      | Some subs, Some cv => OK (fst cv, replace subs (snd cv))
                      | _, _ => Raise (IndexError "list index out of range")
                      end
                  end)
               (seq 0 (length X_transf)) ;;
  OK (frame_of cols).

(** *** The transforms as one type *)

(** An instance of one of the transform classes, with the attributes its
    constructor and [fit] store on it. *)
Inductive transformer : Type :=
| Identity
| FeatureTransformer (transformation : pyobj) (transformer_ : ufunc)
| FeatureClipper (limits : pyobj)
| FeatureImputer (strategy : string) (parameter : pyobj) (imputer : option imputer_obj)
| FeatureScaler (strategy : pyobj) (scaler : scaler_obj)
| FeatureWeigher (weight : pyobj)
| FeatureDiscretizer (n_bins : Z) (strategy : string)
                     (discretizer : option (list (list Q)))
                     (value_maps : option (list value_map)).

(** [FeatureTransformer.__init__]: the function is looked up when the
    object is built, so an unsupported name raises here. *)
Definition FeatureTransformer_init (transformation : pyobj) : result transformer :=
  f <- interpret_transformation transformation ;;
  OK (FeatureTransformer transformation f).

(** [FeatureImputer.__init__] *)
Definition FeatureImputer_init (strategy : string) (parameter : pyobj) : transformer :=
  FeatureImputer strategy parameter None.

(** [FeatureScaler.__init__] *)
Definition FeatureScaler_init (strategy : pyobj) : transformer :=
  FeatureScaler strategy (interpret_scaler strategy).

(** [FeatureDiscretizer.__init__] *)
Definition FeatureDiscretizer_init (n_bins : Z) (strategy : string) : transformer :=
  FeatureDiscretizer n_bins strategy None None.

(** [t.fit(X)] *)
Definition fit_one `{Lib} (t : transformer) (X : frame) : M transformer :=
  match t with
  | Identity => ret t
  | FeatureTransformer _ _ => ret t
  | FeatureClipper _ => ret t
  | FeatureImputer s p _ =>
      i <~ lift (imputer_fit (interpret_imputation s p) X) ;;
      ret (FeatureImputer s p (Some i))
  | FeatureScaler s sc =>
      sc <~ lift (scaler_obj_fit sc X) ;;
      ret (FeatureScaler s sc)
  | FeatureWeigher _ => ret t
  | FeatureDiscretizer n s _ _ =>
      d <~ lift (kbins_fit s n X) ;;
      X_transf <~ lift (kbins_transform d X) ;;
      maps <~ lift (train_value_maps X_transf X) ;;
      ret (FeatureDiscretizer n s (Some d) (Some maps))
  end.

(** [t.transform(X)] *)
Definition transform_one `{Lib} (t : transformer) (X : frame) : M frame :=
  match t with
  | Identity => ret X
  | FeatureTransformer _ f => logged (apply f X)
  | FeatureClipper limits => logged (clip X limits)
  | FeatureImputer _ _ i => dataframe_transformer X (imputer_transform i)
  | FeatureScaler _ sc => dataframe_transformer X (scaler_obj_transform sc)
  | FeatureWeigher w => lift (weigh X w)
  | FeatureDiscretizer _ _ d maps =>
      X_result <~ dataframe_transformer X
                    (fun X => match d with
                              | Some d => lift (kbins_transform d X)
                              | None => raise (AttributeError "This KBinsDiscretizer instance is not fitted yet")
                              end) ;;
      lift (apply_value_maps maps X_result)
  end.

(** [t.fit_transform(X)]: [self.fit(X)] then [self.transform(X)], for every
    class of the module. *)
Definition fit_transform_one `{Lib} (t : transformer) (X : frame)
    : M (transformer * frame) :=
  t' <~ fit_one t X ;;
  Y <~ transform_one t' X ;;
  ret (t', Y).

(* ===================================================================== *)
(** ** [ColumnTransformer] and the pipeline                               *)
(* ===================================================================== *)

(** A [(name, transformer, [column])] triple. *)
Definition triple : Type := string * transformer * nat.

(** What scikit-learn's [compose.ColumnTransformer] stores when it is
    fitted on a data frame: the column labels seen at fit time and the
    fitted copies of the transformers. *)
Record fitted_columns : Type := mk_fitted {
  feature_names_in_ : list string;
  transformers_ : list triple
}.

(** The wrapper class [ColumnTransformer] around scikit-learn's
    [compose.ColumnTransformer]: the triples given at construction and, once
    fitted, what [fit] stored. The remainder columns are dropped. *)
Record ColumnTransformer : Type := mk_ct {
  transformers : list triple;
  fitted_ : option fitted_columns
}.

(** scikit-learn's [ColumnTransformer.fit(X)]: every transformer is fitted
    and applied on the column it selects by position; a position outside
    the table raises. The labels of [X] are recorded. The library's checks
    on the transformer names are not part of the model. *)
Definition sk_ct_fit `{Lib} (ct : ColumnTransformer) (X : frame) : M ColumnTransformer :=
  fitted <~ mmap (fun nto : triple =>
                    let '(n, t, o) := nto in
                    Xo <~ lift (iloc X o) ;;
                    tY <~ fit_transform_one t Xo ;;
                    ret (n, fst tY, o))
                 (transformers ct) ;;
  ret (mk_ct (transformers ct) (Some (mk_fitted (columns X) fitted))).

(** The label that the column at position [o] had at fit time. *)
Definition fit_label (names : list string) (o : nat) : result string :=
  match nth_error names o with
  | Some c => OK c
  | None => Raise (IndexError "index out of bounds")
  end.

(** scikit-learn's [ColumnTransformer.transform(X)] for a transformer
    fitted on a data frame and applied to a data frame: every fitted
    transformer receives the column of [X] that bears the label its column
    had at fit time, whatever the order of the columns of [X]; a label that
    [X] lacks raises before any transformer runs. The outputs are stacked
    side by side. *)
Definition sk_ct_transform `{Lib} (ct : ColumnTransformer) (X : frame) : M ndarray :=
  match fitted_ ct with
  | None => raise (AttributeError "This ColumnTransformer instance is not fitted yet")
  | Some f =>
      labels <~ lift (rmap (fun nto : triple => fit_label (feature_names_in_ f) (snd nto))
                           (transformers_ f)) ;;
      _ <~ (if forallb (fun c => existsb (String.eqb c) (columns X)) labels
            then ret tt
            else raise (ValueError "columns are missing")) ;;
      Ys <~ mmap (fun tc : triple * string =>
                    Xc <~ lift (getcols X [snd tc]) ;;
                    Y <~ transform_one (snd (fst (fst tc))) Xc ;;
                    ret (values Y))
                 (combine (transformers_ f) labels) ;;
      ret (concat Ys)
  end.

(** [ColumnTransformer.fit] *)
Definition ColumnTransformer_fit `{Lib} (ct : ColumnTransformer) (X : frame)
    : M ColumnTransformer :=
  sk_ct_fit ct X.

(** [ColumnTransformer.transform] *)
Definition ColumnTransformer_transform `{Lib} (ct : ColumnTransformer) (X : frame)
    : M frame :=
  dataframe_transformer X (sk_ct_transform ct).

(** A step of the pipeline: a column router, or the identity when the plan
    is empty. *)
Inductive step : Type :=
| StepColumns (ct : ColumnTransformer)
| StepIdentity.

Definition step_fit `{Lib} (s : step) (X : frame) : M step :=
  match s with
  | StepColumns ct => ct <~ ColumnTransformer_fit ct X ;; ret (StepColumns ct)
  | StepIdentity => ret StepIdentity
  end.

Definition step_transform `{Lib} (s : step) (X : frame) : M frame :=
  match s with
  | StepColumns ct => ColumnTransformer_transform ct X
  | StepIdentity => ret X
  end.

(** scikit-learn's [Pipeline]: named steps. *)
Definition Pipeline : Type := list (string * step).

(** [Pipeline.fit(X, y)]: every step but the last is fitted and applied to
    produce the input of the next one; the last one is fitted only. No
    estimator of this module reads [y]. *)
Fixpoint Pipeline_fit `{Lib} (steps : Pipeline) (X : frame) (y : option column)
    : M Pipeline :=
  match steps with
  | [] => ret []
  | (n, s) :: rest =>
      s' <~ step_fit s X ;;
      match rest with
      | [] => ret [(n, s')]
      | _ =>
          Xt <~ step_transform s' X ;;
          rest' <~ Pipeline_fit rest Xt y ;;
          ret ((n, s') :: rest')
      end
  end.

(** [Pipeline.transform(X)]: the steps applied from left to right. *)
Definition Pipeline_transform `{Lib} (steps : Pipeline) (X : frame) : M frame :=
  mfold (fun Xt ns => step_transform (snd ns) Xt) steps X.

(* ===================================================================== *)
(** ** [PreProcessor]                                                     *)
(* ===================================================================== *)

(** The attributes of a [PreProcessor]. [features_config] is the caller's
    list: its dictionaries are shared with the caller and live in the
    world's heap. The other attributes are [None] (or absent) until [fit]. *)
Record PreProcessor : Type := mk_pre {
  features_config : list loc;
  feature_names : option (list string);
  feature_active : option dict;
  feature_types : option dict;
  preprocessor : option Pipeline
}.

(** [PreProcessor.__init__] *)
Definition PreProcessor_init (features_config : list loc) : PreProcessor :=
  mk_pre features_config None None None None.

(** [config["name"]] of the dictionary at [l]. *)
Definition name_at (l : loc) : M string :=
  config <~ load l ;;
  lift (config_name config).

(** The body of the first loop of [__interpret_config]:
    [if "active" not in config: config.update({"active": True})]. *)
Definition default_active (l : loc) : M unit :=
  config <~ load l ;;
  if negb (contains config "active")
  then store l (update config "active" (VBool true))
  else ret tt.

(** [PreProcessor.__interpret_config] *)
Definition interpret_config (self : PreProcessor) : M PreProcessor :=
  _ <~ mmap default_active (features_config self) ;;
  names <~ mmap name_at (features_config self) ;;
  actives <~ mmap (fun l =>
                     n <~ name_at l ;;
                     config <~ load l ;;
                     a <~ lift (getitem config "active") ;;
                     ret (n, a))
                  (features_config self) ;;
  types <~ mmap (fun l =>
                   n <~ name_at l ;;
                   config <~ load l ;;
                   t <~ lift (getitem config "type") ;;
                   ret (n, t))
                (features_config self) ;;
  ret (mk_pre (features_config self) (Some names) (Some (dict_of actives))
              (Some (dict_of types)) (preprocessor self)).

(** Reading an attribute that [__interpret_config] sets. *)
Definition attr {A} (a : option A) : M A :=
  match a with
  | Some x => ret x
  | None => raise (TypeError "'NoneType' object is not iterable")
  end.

(** [PreProcessor.__create_action_plan] *)
Definition create_action_plan (self : PreProcessor) : M (list plan_row) :=
  configs <~ mmap load (features_config self) ;;
  names <~ attr (feature_names self) ;;
  actives <~ attr (feature_active self) ;;
  types <~ attr (feature_types self) ;;
  lift (action_plan configs names actives types).

(** [PreProcessor.__interpret_process_step] *)
Definition interpret_process_step `{Lib} (key : string) (value type_ : pyobj)
    : M transformer :=
  if key =? "transformation" then
    lift (FeatureTransformer_init value)
  else if key =? "limits" then
    ret (FeatureClipper value)
  else if key =? "imputation_strategy" then
    match split ":" (str value) with
    | [] => raise (ValueError "not enough values to unpack")
    | strategy :: param =>
        param <~ (if strategy =? "constant" then
                    match param with
                    | [] => raise (IndexError "list index out of range")
                    | p :: _ =>
                        if is_str type_ "string" || is_str type_ "str"
                           || is_str type_ "object"
                        then ret (VStr p)
                        else q <~ lift (py_float p) ;; ret (VFloat q)
                    end
                  else ret VNone) ;;
        ret (FeatureImputer_init "constant" param)
    end
  else if key =? "discretizer" then
    match split ":" (str value) with
    | [strategy; n_bins] =>
        n_bins <~ lift (py_int n_bins) ;;
        ret (FeatureDiscretizer_init n_bins strategy)
    | _ => raise (ValueError "wrong number of values to unpack")
    end
  else if key =? "scaler" then
    ret (FeatureScaler_init value)
  else if key =? "weight" then
    ret (FeatureWeigher value)
  else
    _ <~ emit (Printed (String.append "[error] KeyError. " (String.append key " not found."))) ;;
    ret Identity.

(** [df.sort_values("feature_order")] *)
Fixpoint insert_by_feature (r : plan_row) (l : list plan_row) : list plan_row :=
  match l with
  | [] => [r]
  | r' :: l' => if (feature_order r <=? feature_order r')%nat then r :: l
                else r' :: insert_by_feature r l'
  end.
Definition sort_by_feature (df : list plan_row) : list plan_row :=
  fold_right insert_by_feature [] df.

(** [PreProcessor.__set_preprocessor] *)
Definition set_preprocessor `{Lib} (action_plan : list plan_row) : M Pipeline :=
  steps <~ mmap (fun order =>
                   let df_step :=
                     sort_by_feature
                       (List.filter (fun r => (transform_order r =? order)%nat) action_plan) in
                   ts <~ mmap (fun r =>
                                 t <~ interpret_process_step (key r) (value r) (type_ r) ;;
                                 ret (feature_name r, t, feature_order r))
                              df_step ;;
                   ret (String.append "step_" (pretty order), StepColumns (mk_ct ts None)))
                (unique (map transform_order action_plan)) ;;
  if (0 <? length steps)%nat then ret steps
  else ret [("step_0", StepIdentity)].

(** [PreProcessor.__get_active_features] *)
Definition get_active_features (self : PreProcessor) : M (list string) :=
  actives <~ attr (feature_active self) ;;
  ret (map fst (List.filter (fun x : string * pyobj => truthy (snd x)) actives)).

(** [PreProcessor.__cast_columns] *)
Definition cast_columns `{Lib} (self : PreProcessor) (X : frame) : M frame :=
  types <~ attr (feature_types self) ;;
  mfold (fun X column =>
           type_ <~ lift (getitem types column) ;;
           match type_ with
           | VStr ty =>
               c <~ lift (getcol X column) ;;
               if substring_in "int" (lower ty) then
                 c <~ lift (round0 c) ;;
                 c <~ lift (astype ty c) ;;
                 ret (setcol X column c)
               else
                 c <~ lift (astype ty c) ;;
                 ret (setcol X column c)
           | _ => raise (AttributeError "object has no attribute 'lower'")
           end)
        (keys types) X.

(** [PreProcessor.fit] *)
Definition fit `{Lib} (self : PreProcessor) (X : frame) (y : option column)
    : M PreProcessor :=
  self <~ interpret_config self ;;
  action_plan <~ create_action_plan self ;;
  pre <~ set_preprocessor action_plan ;;
  features <~ get_active_features self ;;
  Xf <~ lift (getcols X features) ;;
  pre <~ Pipeline_fit pre Xf y ;;
  ret (mk_pre (features_config self) (feature_names self) (feature_active self)
              (feature_types self) (Some pre)).

(** [PreProcessor.transform] *)
Definition transform `{Lib} (self : PreProcessor) (X : frame) : M frame :=
  features <~ get_active_features self ;;
  Xf <~ lift (getcols X features) ;;
  X_transf <~ dataframe_transformer Xf
                (fun Xf => match preprocessor self with
                           | Some pre => Y <~ Pipeline_transform pre Xf ;; ret (values Y)
                           | None => raise (AttributeError "'PreProcessor' object has no attribute 'preprocessor'")
                           end) ;;
  cast_columns self X_transf.

(** [PreProcessor.fit_transform]: [y] is accepted and not passed on. *)
Definition fit_transform `{Lib} (self : PreProcessor) (X : frame) (y : option column)
    : M (PreProcessor * frame) :=
  self <~ fit self X None ;;
  Y <~ transform self X ;;
  ret (self, Y).

(* ===================================================================== *)
(** ** An instance of the library interface and sample data                *)
(* ===================================================================== *)

(** The model is run on examples with the following instance of [Lib]:
    integer casts are the 64-bit cast [astype_int64], every other cast keeps
    the column, decimal literals are parsed
    digit by digit; transcendental functions are not evaluated (their
    result is left missing) and scalers and discretizers keep the values. *)

Definition digit_of (c : ascii) : option Z :=
  let n := nat_of_ascii c in
  if ((48 <=? n) && (n <=? 57))%nat then Some (Z.of_nat (n - 48)) else None.

Fixpoint parse_digits (acc : Z) (s : string) : option Z :=
  match s with
  | EmptyString => Some acc
  | String c s' =>
      match digit_of c with
      | Some d => parse_digits (10 * acc + d) s'
      | None => None
      end
  end.

Definition parse_int (s : string) : result Z :=
  match s with
  | EmptyString => Raise (ValueError "invalid literal for int()")
  | _ => match parse_digits 0 s with
         | Some z => OK z
         | None => Raise (ValueError "invalid literal for int()")
         end
  end.

Definition sample_astype (ty : string) (c : column) : result column :=
  if substring_in "int" (lower ty) then astype_int64 c else OK c.

Definition sample_str (v : pyobj) : string :=
  match v with
  | VNone => "None"
  | VBool true => "True"
  | VBool false => "False"
  | VInt z => pretty z
  | VStr s => s
  | _ => EmptyString
  end.

#[export] Instance sample_lib : Lib := {|
  np_call := fun _ _ => NaN;
  scaler_fit := fun _ X => OK (map (fun _ => []) X);
  scaler_transform := fun _ _ X => OK (values X);
  kbins_fit := fun _ _ X => OK (map (fun _ => []) X);
  kbins_transform := fun _ X => OK (values X);
  astype := sample_astype;
  py_str := sample_str;
  py_float := fun s => z <- parse_int s ;; OK (inject_Z z);
  py_int := parse_int
|}.

(** A world whose heap holds the dictionaries [cfgs] at the references
    1, 2, ... and whose log is empty. *)
Definition refs_of (cfgs : list dict) : list loc :=
  map Pos.of_nat (seq 1 (length cfgs)).

Definition world_of (cfgs : list dict) : world :=
  mk_world (list_to_map (combine (refs_of cfgs) cfgs)) [].

(** Two features: a clipped and imputed float, and an integer with no
    declared step. *)
Definition sample_config : list dict :=
  [ [("name", VStr "area"); ("type", VStr "float");
     ("limits", VList [VInt 0; VInt 10]); ("imputation_strategy", VStr "mean")];
    [("name", VStr "rooms"); ("type", VStr "int")] ].

Definition sample_table : frame :=
  [ ("area", [Num (-5); NaN; Num 15; Num 5]);
    ("rooms", [Num (5 # 2); Num (7 # 2); Num 2; Num (-1 # 2)]) ].

(** One active and one inactive feature, no declared step. *)
Definition inactive_config : list dict :=
  [ [("name", VStr "a"); ("type", VStr "float")];
    [("name", VStr "b"); ("type", VStr "float"); ("active", VBool false)] ].

(** The same with one declared step. *)
Definition inactive_config_weighted : list dict :=
  [ [("name", VStr "a"); ("type", VStr "float"); ("weight", VInt 2)];
    [("name", VStr "b"); ("type", VStr "float"); ("active", VBool false)] ].

Definition inactive_table : frame :=
  [ ("a", [Num 1]); ("b", [Num 2]) ].

(** One feature of a 64-bit integer type and a value beyond the 64-bit
    range. *)
Definition big_config : list dict :=
  [ [("name", VStr "n"); ("type", VStr "int64")] ].

Definition big_table : frame :=
  [ ("n", [Num (inject_Z (10 ^ 30))]) ].

(* ===================================================================== *)
(** ** Vocabulary of the statements                                      *)
(* ===================================================================== *)

Definition step_count (config : dict) : nat := length (step_keys config).

(** [r] is the row of the [transform_order r]-th step key of [config]. *)
Definition row_of_config (config : dict) (r : plan_row) : Prop :=
  getitem config "name" = OK (VStr (feature_name r))
  /\ nth_error (step_keys config) (transform_order r) = Some (key r)
  /\ getitem config (key r) = OK (value r).

Definition order_pair (r : plan_row) : nat * nat := (feature_order r, transform_order r).
Definition name_pair (r : plan_row) : string * nat := (feature_name r, transform_order r).

(** A row synthesized by the inner loop for a missing (stage, feature) pair. *)
Definition identity_row (names : list string) (r : plan_row) : Prop :=
  index names (feature_name r) = OK (feature_order r)
  /\ key r = "transformation" /\ value r = VStr "identity".

(** What the two nested loops maintain, starting from the data frame [df0]:
    rows are only added, every added row is an identity row for a pair that
    had no row in [df0], and no (feature_name, transform_order) pair gets a
    second row. *)
Definition completes (names : list string) (orders : list nat)
    (df0 df : list plan_row) : Prop :=
  incl df0 df
  /\ (forall r, In r df ->
        In r df0
        \/ (identity_row names r /\ In (feature_name r) names
            /\ In (transform_order r) orders
            /\ select_rows df0 (feature_name r) (transform_order r) = []))
  /\ (NoDup (map name_pair df0) -> NoDup (map name_pair df)).

(** The order of [sort_values(["transform_order", "feature_order"])]. *)
Definition row_le (r1 r2 : plan_row) : Prop :=
  transform_order r1 < transform_order r2
  \/ (transform_order r1 = transform_order r2 /\ feature_order r1 <= feature_order r2).

Definition key_pair (r : plan_row) : nat * nat := (transform_order r, feature_order r).

Definition lex_le (a b : nat * nat) : Prop :=
  fst a < fst b \/ (fst a = fst b /\ snd a <= snd b).
Definition lex_lt (a b : nat * nat) : Prop :=
  fst a < fst b \/ (fst a = fst b /\ snd a < snd b).

(** The grid of [m] stages by [n] features, stage by stage. *)
Definition grid_keys (m n : nat) : list (nat * nat) :=
  flat_map (fun o => map (pair o) (seq 0 n)) (seq 0 m).

Definition max_steps (cfgs : list dict) : nat := list_max (map step_count cfgs).

(** The rows of stage [o]: [action_plan[action_plan["transform_order"] == o]]. *)
Definition stage (o : nat) (plan : list plan_row) : list plan_row :=
  List.filter (fun r => (transform_order r =? o)%nat) plan.

(** The stages of a plan, in order of first appearance. *)
Definition stages (plan : list plan_row) : list nat :=
  unique (map transform_order plan).

(** A computation that leaves the world as it found it. *)
Definition readonly {A} (c : M A) : Prop := forall w, fst (c w) = w.

(** The dictionary as [__interpret_config] leaves it. *)
Definition with_active (config : dict) : dict :=
  if contains config "active" then config else update config "active" (VBool true).

(** The list of references [locs] leads to the dictionaries [cfgs]. *)
Definition holds (w : world) (locs : list loc) (cfgs : list dict) : Prop :=
  Forall2 (fun l c => heap w !! l = Some c) locs cfgs.

(** [(config["name"], config[k])], the pairs of the two dict comprehensions. *)
Definition name_and (k : string) (config : dict) : result (string * pyobj) :=
  n <- config_name config ;; v <- getitem config k ;; OK (n, v).

(** A computation that leaves every dictionary as it found it (it may still
    write to the log). *)
Definition keeps_heap {A} (c : M A) : Prop := forall w, heap (fst (c w)) = heap w.

(** The names [FeatureTransformer] accepts. *)
Definition supported_transformations : list string :=
  ["log"; "log10"; "log1p"; "exp"; "square"; "sqrt"; "identity"].

(** The step kinds [__interpret_process_step] knows. *)
Definition step_kinds : list string :=
  ["transformation"; "limits"; "imputation_strategy"; "discretizer"; "scaler"; "weight"].

(** How [x'] relates to [x] after clipping to [[lo, hi]]: a number inside
    the interval is kept, a number outside moves to the nearest bound, a
    missing entry stays missing. *)
Definition clipped (lo hi : Q) (x x' : cell) : Prop :=
  match x with
  | Num q => exists q', x' = Num q' /\ (lo <= q' <= hi)%Q
                        /\ ((lo <= q <= hi)%Q -> q' = q)
                        /\ ((q < lo)%Q -> q' = lo)
                        /\ ((hi < q)%Q -> q' = hi)
  | NaN => x' = NaN
  | Str _ => False
  end.

(** The entry is a number of the closed interval [[lo, hi]]. *)
Definition in_range (lo hi : Q) (x : cell) : Prop :=
  exists q, x = Num q /\ (lo <= q <= hi)%Q.

(** The pipeline output that [transform] hands to [__cast_columns]. *)
Definition pre_cast `{Lib} (self : PreProcessor) (X : frame) : M frame :=
  features <~ get_active_features self ;;
  Xf <~ lift (getcols X features) ;;
  dataframe_transformer Xf
    (fun Xf => match preprocessor self with
               | Some pre => Y <~ Pipeline_transform pre Xf ;; ret (values Y)
               | None => raise (AttributeError "'PreProcessor' object has no attribute 'preprocessor'")
               end).

(** What [__cast_columns] does to one column of declared type [ty]. *)
Definition cast_one `{Lib} (ty : string) (c : column) : result column :=
  if substring_in "int" (lower ty) then c' <- round0 c ;; astype ty c'
  else astype ty c.

(** One iteration of the loop of [__cast_columns], without the world. *)
Definition cast_step `{Lib} (types : dict) (X : frame) (column : string) : result frame :=
  type_ <- getitem types column ;;
  match type_ with
  | VStr ty =>
      c <- getcol X column ;;
      c' <- cast_one ty c ;;
      OK (setcol X column c')
  | _ => Raise (AttributeError "object has no attribute 'lower'")
  end.

(** [x'] is [x] rounded to the nearest integer (ties to the even one); a
    missing entry stays missing. *)
Definition rounded (x x' : cell) : Prop :=
  match x with
  | Num q => x' = Num (inject_Z (round_half_even q))
             /\ (Qabs (q - inject_Z (round_half_even q)) <= 1 # 2)%Q
  | NaN => x' = NaN
  | Str _ => False
  end.

(** The rounded value of a number fits a 64-bit integer. *)
Definition fits_int64 (x : cell) : Prop :=
  match x with
  | Num q => (int64_min <= round_half_even q <= int64_max)%Z
  | _ => True
  end.

(** The library's cast to the type [ty] is the 64-bit integer cast. *)
Definition casts_to_int64 `{Lib} (ty : string) : Prop :=
  forall c, is_numeric c = true -> astype ty c = astype_int64 c.

(** An entry that is an integer. *)
Definition integer_entry (x : cell) : Prop := exists z, x = Num (inject_Z z).

(** The sample preprocessor, fitted on the sample table. *)
Definition sample_fitted : PreProcessor :=
  match snd (fit (PreProcessor_init (refs_of sample_config)) sample_table None
                 (world_of sample_config)) with
  | OK self => self
  | Raise _ => PreProcessor_init []
  end.

(** The table [Y] with every missing entry replaced by the statistic [stat]
    of the column of [X] at the same position. *)
Definition imputed_with (stat : column -> cell) (X Y : frame) : frame :=
  map (fun xy : (string * column) * (string * column) =>
         (fst (snd xy), fillna (stat (snd (fst xy))) (snd (snd xy))))
      (combine X Y).

(** Every column holds at least one number. *)
Definition no_empty_column (X : frame) : Prop :=
  forall c, In c (values X) -> present c <> [].

(** The number a weight stands for in a product. *)
Definition weight_value (weight : pyobj) : option Q :=
  match weight with
  | VInt z => Some (inject_Z z)
  | VFloat q => Some q
  | VBool b => Some (if b then 1 else 0)%Q
  | _ => None
  end.

(** A number is multiplied by [k]; a missing entry stays missing. *)
Definition scaled (k : Q) (x : cell) : cell :=
  match x with
  | Num q => Num (q * k)
  | _ => x
  end.

(** The training values that fell in bin [k]. *)
Definition bin_members (order value_ : column) (k : Q) : column :=
  flat_map (fun ov : cell * cell =>
              match fst ov with
              | Num o => if Qeq_bool o k then [snd ov] else []
              | _ => []
              end)
           (combine order value_).

(** The column a fitted discretizer returns on its training data: every bin
    index replaced by the mean of the training values of the bin. *)
Definition bin_means (ov : column * column) : column :=
  map (fun x => match x with
                | Num q => mean (bin_members (fst ov) (snd ov) q)
                | _ => x
                end) (fst ov).

(** A computation that leaves the world as it found it whenever it returns. *)
Definition silent {A} (c : M A) : Prop :=
  forall w w' a, c w = (w', OK a) -> w' = w.

(** The preprocessor of [inactive_config], fitted on [inactive_table]. *)
Definition inactive_fitted : PreProcessor :=
  match snd (fit (PreProcessor_init (refs_of inactive_config)) inactive_table None
                 (world_of inactive_config)) with
  | OK self => self
  | Raise _ => PreProcessor_init []
  end.

(** A feature takes part unless its dictionary says otherwise: a missing
    "active" entry counts as [True]. *)
Definition is_active (config : dict) : bool :=
  match getitem config "active" with
  | OK a => truthy a
  | Raise _ => true
  end.

(** The triples of one step: a transformer for each row of the stage,
    under the row's feature name and at the row's feature position. *)
Definition routes `{Lib} (rows : list plan_row) (ts : list triple) : Prop :=
  Forall2 (fun r t =>
             exists tr w1 w2,
               interpret_process_step (key r) (value r) (type_ r) w1 = (w2, OK tr)
               /\ t = (feature_name r, tr, feature_order r))
          rows ts.

(* ===================================================================== *)
(** * Properties                                                          *)
(* ===================================================================== *)

(** ** Exceptions and comprehensions *)

Lemma rbind_OK {A B} (c : result A) (k : A -> result B) (b : B) :
  rbind c k = OK b -> exists a, c = OK a /\ k a = OK b.
Proof. destruct c as [a|e]; simpl; [eauto | discriminate]. Qed.

(** Invert every successful bind in hypothesis [H]. *)
Ltac rinv H :=
  repeat (let a := fresh "a" in
          let E := fresh "E" in
          apply rbind_OK in H; destruct H as (a & E & H)).

Lemma rmap_Forall2 {A B} (f : A -> result B) (l : list A) (ys : list B) :
  rmap f l = OK ys -> Forall2 (fun x y => f x = OK y) l ys.
Proof.
  revert ys; induction l as [|x l IH]; simpl; intros ys H.
  - injection H as <-. constructor.
  - rinv H. injection H as <-. constructor; auto.
Qed.

Lemma rmap_length {A B} (f : A -> result B) (l : list A) (ys : list B) :
  rmap f l = OK ys -> length ys = length l.
Proof. intros H%rmap_Forall2. symmetry. eapply Forall2_length; eauto. Qed.

Lemma rmap_total {A B} (f : A -> result B) (l : list A) :
  (forall x, In x l -> exists y, f x = OK y) -> exists ys, rmap f l = OK ys.
Proof.
  induction l as [|x l IH]; simpl; intros Hf; [eauto|].
  destruct (Hf x) as [y ->]; [auto|].
  destruct IH as [ys ->]; [auto|]. simpl. eauto.
Qed.

(** An invariant of a loop that may raise. *)
Lemma rfold_invariant {A B} (P : A -> Prop) (f : A -> B -> result A)
    (l : list B) (acc acc' : A) :
  P acc ->
  (forall a x a', In x l -> P a -> f a x = OK a' -> P a') ->
  rfold f l acc = OK acc' -> P acc'.
Proof.
  revert acc; induction l as [|x l IH]; simpl; intros acc HP Hstep H.
  - injection H as <-. exact HP.
  - rinv H. eapply IH; [| |exact H]; eauto.
Qed.

(** ** [enumerate] *)

Lemma enumerate_from_fst {A} (s : nat) (l : list A) :
  map fst (enumerate_from s l) = seq s (length l).
Proof. revert s; induction l; simpl; intros; f_equal; auto. Qed.

Lemma enumerate_from_In {A} (s i : nat) (x : A) (l : list A) :
  In (i, x) (enumerate_from s l) <-> s <= i /\ nth_error l (i - s) = Some x.
Proof.
  revert s; induction l as [|y l IH]; simpl; intros s.
  - split; [tauto|]. intros [_ H]. destruct (i - s); discriminate.
  - rewrite IH. split.
    + intros [[= <- <-]|[Hle H]].
      * split; [lia|]. now rewrite Nat.sub_diag.
      * split; [lia|]. replace (i - s) with (S (i - S s)) by lia. exact H.
    + intros [Hle H]. destruct (Nat.eq_dec s i) as [->|Hne].
      * rewrite Nat.sub_diag in H. injection H as ->. now left.
      * right. split; [lia|]. replace (i - s) with (S (i - S s)) in H by lia. exact H.
Qed.

(** ** The rows declared by the configuration *)

Lemma as_name_OK (v : pyobj) (s : string) : as_name v = OK s -> v = VStr s.
Proof. destruct v; simpl; congruence. Qed.

Lemma declared_row_spec (j : nat) (config : dict) (i : nat) (k : string) (r : plan_row) :
  declared_row j config (i, k) = OK r ->
  feature_order r = j /\ transform_order r = i /\ key r = k
  /\ getitem config "name" = OK (VStr (feature_name r))
  /\ getitem config k = OK (value r).
Proof.
  unfold declared_row; intros H. rinv H. injection H as <-. simpl in *.
  apply as_name_OK in E0. subst. auto.
Qed.

Lemma config_rows_from (j : nat) (config : dict) (s : nat) (ks : list string)
    (rs : list plan_row) :
  rmap (declared_row j config) (enumerate_from s ks) = OK rs ->
  map transform_order rs = seq s (length ks)
  /\ Forall (fun r => feature_order r = j
                      /\ getitem config "name" = OK (VStr (feature_name r))
                      /\ s <= transform_order r
                      /\ nth_error ks (transform_order r - s) = Some (key r)
                      /\ getitem config (key r) = OK (value r)) rs.
Proof.
  revert s rs; induction ks as [|k ks IH]; simpl; intros s rs H.
  - injection H as <-. split; constructor.
  - rinv H. injection H as <-.
    apply declared_row_spec in E as (Hj & Hi & Hk & Hn & Hv).
    apply IH in E0 as [Hseq Hall]. split.
    + simpl. now rewrite Hi, Hseq.
    + constructor.
      * rewrite Hi, Nat.sub_diag, Hk. simpl. repeat split; auto.
      * eapply List.Forall_impl; [|exact Hall]. simpl.
        intros r (? & ? & ? & Hnth & ?). repeat split; auto; try lia.
        replace (transform_order r - s) with (S (transform_order r - S s)) by lia.
        exact Hnth.
Qed.

Lemma config_rows_spec (j : nat) (config : dict) (rs : list plan_row) :
  config_rows j config = OK rs ->
  map transform_order rs = seq 0 (step_count config)
  /\ Forall (fun r => feature_order r = j /\ row_of_config config r) rs.
Proof.
  intros H. apply config_rows_from in H as [Hseq Hall]. split; [exact Hseq|].
  eapply List.Forall_impl; [|exact Hall]. simpl.
  intros r (? & ? & ? & Hnth & ?). rewrite Nat.sub_0_r in Hnth.
  unfold row_of_config. auto.
Qed.

Lemma declared_from_spec (s : nat) (cfgs : list dict) (rs : list (list plan_row)) :
  rmap (fun jc : nat * dict => config_rows (fst jc) (snd jc)) (enumerate_from s cfgs)
  = OK rs ->
  (forall r, In r (concat rs) ->
     s <= feature_order r
     /\ exists config, nth_error cfgs (feature_order r - s) = Some config
                       /\ row_of_config config r)
  /\ (forall j config i, nth_error cfgs j = Some config -> i < step_count config ->
        exists r, In r (concat rs) /\ feature_order r = s + j /\ transform_order r = i)
  /\ NoDup (map order_pair (concat rs)).
Proof.
  revert s rs; induction cfgs as [|c cfgs IH]; simpl; intros s rs H.
  - injection H as <-. simpl. split; [tauto|]. split; [|constructor].
    intros [|j] ? ? ?; discriminate.
  - rinv H. injection H as <-. simpl in E.
    apply config_rows_spec in E as [Hseq Hall].
    apply IH in E0 as (Hin & Hex & Hnd). rewrite List.Forall_forall in Hall.
    split; [|split].
    + intros r [Hr|Hr]%in_app_or.
      * destruct (Hall r Hr) as [-> Hrow]. split; [lia|].
        rewrite Nat.sub_diag. simpl. eauto.
      * destruct (Hin r Hr) as (Hle & config & Hnth & Hrow). split; [lia|].
        replace (feature_order r - s) with (S (feature_order r - S s)) by lia.
        simpl. eauto.
    + intros [|j] config i Hnth Hi; simpl in Hnth.
      * injection Hnth as ->.
        assert (Hi' : In i (map transform_order a)) by (rewrite Hseq; apply in_seq; lia).
        apply in_map_iff in Hi' as (r & Hr1 & Hr2). exists r.
        split; [apply in_or_app; now left|]. split; [|exact Hr1].
        destruct (Hall r Hr2) as [-> _]. lia.
      * destruct (Hex j config i Hnth Hi) as (r & Hr & Hj & Hi').
        exists r. split; [apply in_or_app; now right|]. split; [lia|exact Hi'].
    + simpl. rewrite map_app. apply NoDup_app.
      * apply (NoDup_map_inv snd). rewrite map_map. simpl.
        change (map (fun x => transform_order x) a) with (map transform_order a).
        rewrite Hseq. apply seq_NoDup.
      * exact Hnd.
      * intros p Hp1 Hp2.
        apply in_map_iff in Hp1 as (r1 & <- & Hr1).
        apply in_map_iff in Hp2 as (r2 & Heq & Hr2).
        destruct (Hall r1 Hr1) as [Hj1 _]. destruct (Hin r2 Hr2) as [Hj2 _].
        unfold order_pair in Heq. injection Heq as Heq _. lia.
Qed.

(** ** [unique] and [index] *)

Lemma unique_In (x : nat) (l : list nat) : In x (unique l) <-> In x l.
Proof.
  induction l as [|a l IH]; simpl; [tauto|].
  rewrite filter_In, IH, negb_true_iff, Nat.eqb_neq.
  destruct (Nat.eq_dec a x); intuition.
Qed.

Lemma unique_NoDup (l : list nat) : NoDup (unique l).
Proof.
  induction l as [|a l IH]; simpl; constructor.
  - rewrite filter_In, Nat.eqb_refl. intros [_ [=]].
  - now apply NoDup_filter.
Qed.

Lemma index_OK (names : list string) (col : string) (j : nat) :
  index names col = OK j -> nth_error names j = Some col.
Proof.
  revert j; induction names as [|y names IH]; simpl; intros j H; [discriminate|].
  destruct (String.eqb_spec y col) as [->|Hne].
  - now injection H as <-.
  - rinv H. injection H as <-. simpl. auto.
Qed.

Lemma index_In (names : list string) (col : string) :
  In col names -> exists j, index names col = OK j.
Proof.
  induction names as [|y names IH]; simpl; [tauto|]. intros Hin.
  destruct (String.eqb_spec y col) as [->|Hne]; [eauto|].
  destruct IH as [j ->]; [tauto|]. simpl. eauto.
Qed.

Lemma index_nth (names : list string) (col : string) (j : nat) :
  NoDup names -> nth_error names j = Some col -> index names col = OK j.
Proof.
  intros Hnd Hnth.
  destruct (index_In names col) as [j' Hj']; [eapply nth_error_In; eauto|].
  rewrite Hj'. f_equal. apply index_OK in Hj'.
  rewrite NoDup_nth_error in Hnd. apply Hnd; [|congruence].
  apply nth_error_Some. congruence.
Qed.

(** ** Filling the grid *)

Lemma select_rows_In (df : list plan_row) (col : string) (o : nat) (r : plan_row) :
  In r (select_rows df col o) <-> In r df /\ name_pair r = (col, o).
Proof.
  unfold select_rows, name_pair. rewrite filter_In, andb_true_iff, String.eqb_eq, Nat.eqb_eq.
  split; intros [? ?]; split; auto; [f_equal; tauto | split; congruence].
Qed.

Lemma select_rows_nil (df : list plan_row) (col : string) (o : nat) :
  select_rows df col o = [] <-> forall r, In r df -> name_pair r <> (col, o).
Proof.
  split.
  - intros Hnil r Hr Hp. assert (H : In r (select_rows df col o)) by now apply select_rows_In.
    rewrite Hnil in H. inversion H.
  - intros H. destruct (select_rows df col o) as [|r l] eqn:E; [reflexivity|].
    assert (Hr : In r (select_rows df col o)) by (rewrite E; now left).
    apply select_rows_In in Hr as [Hr Hp]. now apply H in Hr.
Qed.

Lemma fill_missing_spec (names : list string) (fa ft : dict) (o : nat)
    (df : list plan_row) (col : string) (df' : list plan_row) :
  fill_missing names fa ft o df col = OK df' ->
  (df' = df /\ select_rows df col o <> [])
  \/ (exists r, df' = df ++ [r] /\ select_rows df col o = []
                /\ name_pair r = (col, o) /\ identity_row names r).
Proof.
  unfold fill_missing. destruct (select_rows df col o) as [|r0 l] eqn:E; simpl; intros H.
  - right. rinv H. injection H as <-. eexists. split; [reflexivity|].
    unfold name_pair, identity_row; simpl. auto.
  - left. injection H as <-. split; [reflexivity|discriminate].
Qed.

Lemma completes_refl (names : list string) (orders : list nat) (df0 : list plan_row) :
  completes names orders df0 df0.
Proof. split; [apply incl_refl|]. split; auto. Qed.

Lemma completes_step (names : list string) (fa ft : dict) (orders : list nat)
    (df0 df df' : list plan_row) (o : nat) (col : string) :
  In col names -> In o orders ->
  completes names orders df0 df ->
  fill_missing names fa ft o df col = OK df' ->
  completes names orders df0 df'.
Proof.
  intros Hcol Ho (Hincl & Hrows & Hnd) H.
  apply fill_missing_spec in H as [[-> _]|(r & -> & Hnil & Hp & Hid)].
  { split; [|split]; assumption. }
  injection Hp as Hn Ht.
  split; [|split].
  - apply incl_appl, Hincl.
  - intros r' [Hr'|[<-|[]]]%in_app_or; [auto|]. right.
    rewrite Hn, Ht. split; [exact Hid|]. split; [exact Hcol|]. split; [exact Ho|].
    apply select_rows_nil. intros r0 Hr0.
    rewrite select_rows_nil in Hnil. auto.
  - intros Hnd0. rewrite map_app. apply NoDup_app; [auto|simpl; repeat constructor; auto|].
    intros p Hp1 [<-|[]]. apply in_map_iff in Hp1 as (r0 & Hp0 & Hr0).
    rewrite select_rows_nil in Hnil. apply (Hnil r0 Hr0).
    rewrite Hp0. unfold name_pair. congruence.
Qed.

Lemma fill_loops_complete (names : list string) (fa ft : dict) (orders : list nat)
    (df0 df : list plan_row) :
  rfold (fun df order => rfold (fill_missing names fa ft order) names df) orders df0
  = OK df ->
  completes names orders df0 df.
Proof.
  apply rfold_invariant; [apply completes_refl|].
  intros a o a' Ho Ha. apply rfold_invariant; [exact Ha|].
  intros b col b' Hcol Hb. eapply completes_step; eauto.
Qed.

Lemma fill_missing_incl (names : list string) (fa ft : dict) (o : nat)
    (df : list plan_row) (col : string) (df' : list plan_row) :
  fill_missing names fa ft o df col = OK df' -> incl df df'.
Proof.
  intros [[-> _]|(r & -> & _)]%fill_missing_spec; [apply incl_refl|].
  apply incl_appl, incl_refl.
Qed.

(** Every element visited by a loop leaves a mark that later iterations
    keep. *)
Lemma rfold_cover {A B} (R : B -> A -> Prop) (f : A -> B -> result A)
    (l : list B) (acc acc' : A) :
  (forall a x a', f a x = OK a' -> R x a') ->
  (forall a x a' y, f a x = OK a' -> R y a -> R y a') ->
  rfold f l acc = OK acc' -> forall x, In x l -> R x acc'.
Proof.
  intros Hmark Hkeep. revert acc; induction l as [|x0 l IH]; simpl; intros acc H x Hx.
  - destruct Hx.
  - rinv H. destruct Hx as [<-|Hx]; [|eauto].
    eapply (rfold_invariant (R x0)); [| |exact H]; eauto.
Qed.

Lemma fill_loops_cover (names : list string) (fa ft : dict) (orders : list nat)
    (df0 df : list plan_row) :
  rfold (fun df order => rfold (fill_missing names fa ft order) names df) orders df0
  = OK df ->
  forall o col, In o orders -> In col names ->
    exists r, In r df /\ name_pair r = (col, o).
Proof.
  intros H o col Ho Hcol.
  assert (Hinner_incl : forall a o' a',
             rfold (fill_missing names fa ft o') names a = OK a' -> incl a a').
  { intros a o' a'. apply rfold_invariant; [apply incl_refl|].
    intros b c b' _ Hb Hf. eapply incl_tran; [exact Hb|]. eapply fill_missing_incl; eauto. }
  refine (rfold_cover
            (fun o df => forall col, In col names ->
                           exists r, In r df /\ name_pair r = (col, o))
            _ orders df0 df _ _ H o Ho col Hcol); clear o col Ho Hcol.
  - intros a o a'.
    apply (rfold_cover (fun col df => exists r, In r df /\ name_pair r = (col, o))).
    + intros b col b' [[Heq Hne]|(r & -> & _ & Hp & _)]%fill_missing_spec.
      * subst b'. destruct (select_rows b col o) as [|r l] eqn:E; [congruence|].
        exists r. apply select_rows_In. rewrite E. now left.
      * exists r. split; [apply in_or_app; right; now left|exact Hp].
    + intros b col b' y Hf (r & Hr & Hp). exists r. split; [|exact Hp].
      eapply fill_missing_incl; eauto.
  - intros a o a' y Hf Hy col Hcol. destruct (Hy col Hcol) as (r & Hr & Hp).
    exists r. split; [|exact Hp]. eapply Hinner_incl; eauto.
Qed.

(** ** Sorting *)

Lemma row_leb_spec (r1 r2 : plan_row) : row_leb r1 r2 = true <-> row_le r1 r2.
Proof.
  unfold row_leb, row_le.
  rewrite orb_true_iff, andb_true_iff, Nat.ltb_lt, Nat.eqb_eq, Nat.leb_le. tauto.
Qed.

Lemma row_le_trans (r1 r2 r3 : plan_row) : row_le r1 r2 -> row_le r2 r3 -> row_le r1 r3.
Proof. unfold row_le; lia. Qed.

Lemma row_le_total (r1 r2 : plan_row) : row_leb r1 r2 = false -> row_le r2 r1.
Proof.
  intros H. destruct (row_leb r2 r1) eqn:E; [now apply row_leb_spec|].
  apply not_true_iff_false in H, E. rewrite row_leb_spec in H, E.
  unfold row_le in *. lia.
Qed.

Lemma insert_row_perm (r : plan_row) (l : list plan_row) :
  Permutation (insert_row r l) (r :: l).
Proof.
  induction l as [|r' l IH]; simpl; [reflexivity|].
  destruct (row_leb r r'); [reflexivity|].
  rewrite IH. apply perm_swap.
Qed.

Lemma sort_values_perm (df : list plan_row) : Permutation (sort_values df) df.
Proof.
  induction df as [|r df IH]; simpl; [reflexivity|].
  rewrite insert_row_perm. now constructor.
Qed.

Lemma insert_row_sorted (r : plan_row) (l : list plan_row) :
  StronglySorted row_le l -> StronglySorted row_le (insert_row r l).
Proof.
  induction l as [|r' l IH]; simpl; intros Hs.
  - repeat constructor.
  - apply StronglySorted_inv in Hs as [Hs Hall].
    destruct (row_leb r r') eqn:E.
    + apply row_leb_spec in E. constructor; [now constructor|].
      constructor; [exact E|].
      eapply Forall_impl; [|exact Hall]. intros; eapply row_le_trans; eauto.
    + apply row_le_total in E. constructor; [auto|].
      eapply Permutation_Forall; [symmetry; apply insert_row_perm|].
      now constructor.
Qed.

Lemma sort_values_sorted (df : list plan_row) : StronglySorted row_le (sort_values df).
Proof.
  induction df as [|r df IH]; simpl; [constructor|]. now apply insert_row_sorted.
Qed.

(** ** Sorted lists of (stage, feature) pairs *)

Lemma sorted_keys_unique (l1 l2 : list (nat * nat)) :
  StronglySorted lex_le l1 -> NoDup l1 -> StronglySorted lex_lt l2 ->
  (forall k, In k l1 <-> In k l2) -> l1 = l2.
Proof.
  revert l2; induction l1 as [|a l1 IH]; intros l2 Hs1 Hnd Hs2 Hiff.
  - destruct l2 as [|b l2]; [reflexivity|]. destruct (proj2 (Hiff b)); now left.
  - destruct l2 as [|b l2]; [destruct (proj1 (Hiff a)); now left|].
    apply StronglySorted_inv in Hs1 as [Hs1 Ha]. apply StronglySorted_inv in Hs2 as [Hs2 Hb].
    rewrite Forall_forall in Ha, Hb. inversion Hnd as [|? ? Hna Hnd']; subst.
    assert (Hab : a = b).
    { destruct (proj1 (Hiff a)) as [Heq|Hin]; [now left|auto|].
      destruct (proj2 (Hiff b)) as [Heq|Hin']; [now left|auto|].
      apply Ha in Hin'. apply Hb in Hin. unfold lex_le, lex_lt in *. lia. }
    subst b. f_equal. apply IH; auto.
    intros k. split; intros Hk.
    + destruct (proj1 (Hiff k)) as [<-|]; [now right|contradiction|assumption].
    + destruct (proj2 (Hiff k)) as [<-|]; [now right| |assumption].
      apply Hb in Hk. unfold lex_lt in Hk. lia.
Qed.

Lemma StronglySorted_app {A} (R : A -> A -> Prop) (l1 l2 : list A) :
  StronglySorted R l1 -> StronglySorted R l2 ->
  (forall x y, In x l1 -> In y l2 -> R x y) -> StronglySorted R (l1 ++ l2).
Proof.
  induction l1 as [|a l1 IH]; simpl; intros H1 H2 H12; [exact H2|].
  apply StronglySorted_inv in H1 as [H1 Ha]. constructor.
  - apply IH; auto.
  - apply Forall_app. split; [exact Ha|]. apply Forall_forall. auto.
Qed.

Lemma StronglySorted_map {A B} (R : A -> A -> Prop) (S : B -> B -> Prop)
    (f : A -> B) (l : list A) :
  (forall x y, R x y -> S (f x) (f y)) ->
  StronglySorted R l -> StronglySorted S (map f l).
Proof.
  intros Hf. induction 1 as [|a l Hs IH Ha]; simpl; constructor; [exact IH|].
  apply Forall_map. eapply Forall_impl; [|exact Ha]. auto.
Qed.

Lemma grid_row_sorted (o s n : nat) : StronglySorted lex_lt (map (pair o) (seq s n)).
Proof.
  revert s; induction n as [|n IH]; simpl; intros s; constructor; [apply IH|].
  apply Forall_forall. intros k (j & <- & Hj)%in_map_iff. apply in_seq in Hj.
  unfold lex_lt; simpl. lia.
Qed.

Lemma grid_from_In (s m n o j : nat) :
  In (o, j) (flat_map (fun o => map (pair o) (seq 0 n)) (seq s m))
  <-> s <= o < s + m /\ j < n.
Proof.
  rewrite in_flat_map. split.
  - intros (o' & Ho & (j' & [= <- <-] & Hj)%in_map_iff).
    apply in_seq in Ho, Hj. lia.
  - intros [Ho Hj]. exists o. split; [apply in_seq; lia|].
    apply in_map. apply in_seq. lia.
Qed.

Lemma grid_keys_In (m n o j : nat) : In (o, j) (grid_keys m n) <-> o < m /\ j < n.
Proof. unfold grid_keys. rewrite grid_from_In. lia. Qed.

Lemma grid_keys_sorted (m n : nat) : StronglySorted lex_lt (grid_keys m n).
Proof.
  unfold grid_keys. generalize 0 at 2. induction m as [|m IH]; simpl; intros s.
  - constructor.
  - apply StronglySorted_app; [apply grid_row_sorted|apply IH|].
    intros [o j] [o' j'] (? & [= <- <-] & Hj)%in_map_iff Hin.
    apply grid_from_In in Hin. unfold lex_lt; simpl. lia.
Qed.

Lemma NoDup_map_coarser {A B C} (f : A -> B) (g : A -> C) (l : list A) :
  (forall x y, In x l -> In y l -> f x = f y -> g x = g y) ->
  NoDup (map g l) -> NoDup (map f l).
Proof.
  induction l as [|a l IH]; simpl; intros Hfg Hnd; [constructor|].
  inversion Hnd as [|? ? Hna Hnd']; subst. constructor.
  - intros (x & Hx & Hin)%in_map_iff. apply Hna.
    apply in_map_iff. exists x. split; [|exact Hin]. apply Hfg; auto.
  - apply IH; auto.
Qed.

Lemma list_max_In (l : list nat) (x : nat) : In x l -> x <= list_max l.
Proof.
  induction l as [|a l IH]; simpl; [tauto|]. intros [->|H]; [lia|].
  apply IH in H. lia.
Qed.

Lemma list_max_witness (l : list nat) (o : nat) :
  o < list_max l -> exists x, In x l /\ o < x.
Proof.
  induction l as [|a l IH]; simpl; [lia|]. intros H.
  destruct (Nat.lt_ge_cases o a) as [Ha|Ha]; [eauto|].
  destruct IH as (x & Hx & Hox); [lia|eauto].
Qed.

(** ** The compiled plan *)

Lemma config_name_OK (c : dict) (n : string) :
  config_name c = OK n <-> getitem c "name" = OK (VStr n).
Proof.
  unfold config_name. split.
  - intros H. rinv H. apply as_name_OK in H. congruence.
  - intros ->. reflexivity.
Qed.

Lemma names_nth (cfgs : list dict) (names : list string) :
  rmap config_name cfgs = OK names ->
  length names = length cfgs
  /\ forall j c n, nth_error cfgs j = Some c ->
       (nth_error names j = Some n <-> getitem c "name" = OK (VStr n)).
Proof.
  intros H%rmap_Forall2. split; [symmetry; eapply Forall2_length; eauto|].
  induction H as [|c0 n0 cfgs names H0 H IH]; intros [|j] c n Hc; simpl in *;
    try discriminate.
  - injection Hc as <-. apply config_name_OK in H0. rewrite H0.
    split; intros [= ->]; reflexivity.
  - auto.
Qed.

(** What [action_plan] computes, step by step. *)
Lemma action_plan_inv (cfgs : list dict) (names : list string) (fa ft : dict)
    (plan : list plan_row) :
  action_plan cfgs names fa ft = OK plan ->
  exists df0 df,
    declared_rows cfgs = OK df0
    /\ completes names (unique (map transform_order df0)) df0 df
    /\ (forall o col, In o (map transform_order df0) -> In col names ->
          exists r, In r df /\ name_pair r = (col, o))
    /\ Permutation plan df
    /\ StronglySorted row_le plan.
Proof.
  unfold action_plan. intros H. rinv H. injection H as <-.
  exists a, a0. split; [exact E|]. split; [now apply fill_loops_complete in E0|].
  split; [|split; [apply sort_values_perm|apply sort_values_sorted]].
  intros o col Ho Hcol. eapply fill_loops_cover; eauto. now apply unique_In.
Qed.

Lemma declared_rows_spec (cfgs : list dict) (df0 : list plan_row) :
  declared_rows cfgs = OK df0 ->
  (forall r, In r df0 ->
     exists config, nth_error cfgs (feature_order r) = Some config
                    /\ row_of_config config r)
  /\ (forall j config i, nth_error cfgs j = Some config -> i < step_count config ->
        exists r, In r df0 /\ feature_order r = j /\ transform_order r = i)
  /\ NoDup (map order_pair df0).
Proof.
  unfold declared_rows, enumerate. intros H. rinv H. injection H as <-.
  apply declared_from_spec in E as (Hin & Hex & Hnd). split; [|split; [|exact Hnd]].
  - intros r Hr. destruct (Hin r Hr) as (_ & config & Hnth & Hrow).
    rewrite Nat.sub_0_r in Hnth. eauto.
  - intros j config i Hnth Hi. destruct (Hex j config i Hnth Hi) as (r & ? & ? & ?). eauto.
Qed.

Lemma row_of_config_lt (config : dict) (r : plan_row) :
  row_of_config config r -> transform_order r < step_count config.
Proof.
  intros (_ & Hnth & _). apply nth_error_Some. congruence.
Qed.

(** Every row of the plan belongs to the feature at position
    [feature_order]: below the feature's step count it is the declared row
    of its stage, from there on it is an identity row. *)
Lemma action_plan_rows (cfgs : list dict) (names : list string) (fa ft : dict)
    (plan : list plan_row) :
  rmap config_name cfgs = OK names ->
  action_plan cfgs names fa ft = OK plan ->
  forall r, In r plan ->
    exists config, nth_error cfgs (feature_order r) = Some config
      /\ getitem config "name" = OK (VStr (feature_name r))
      /\ ((transform_order r < step_count config /\ row_of_config config r)
          \/ (step_count config <= transform_order r
              /\ key r = "transformation" /\ value r = VStr "identity")).
Proof.
  intros Hnames H r Hr.
  apply action_plan_inv in H as (df0 & df & Hdecl & (Hincl & Hrows & _) & _ & Hperm & _).
  apply declared_rows_spec in Hdecl as (Hin & Hex & _).
  apply names_nth in Hnames as [Hlen Hnth].
  apply (Permutation_in _ Hperm), Hrows in Hr as [Hr|((Hidx & Hk & Hv) & _ & _ & Hnil)].
  - destruct (Hin r Hr) as (config & Hc & Hrow). exists config.
    split; [exact Hc|]. split; [apply Hrow|left].
    split; [now apply row_of_config_lt|exact Hrow].
  - apply index_OK in Hidx.
    assert (Hlt : feature_order r < length cfgs).
    { rewrite <- Hlen. apply nth_error_Some. congruence. }
    apply nth_error_Some in Hlt.
    destruct (nth_error cfgs (feature_order r)) as [config|] eqn:Hc; [|congruence].
    assert (Hname : getitem config "name" = OK (VStr (feature_name r)))
      by now apply (Hnth _ _ _ Hc).
    exists config. split; [reflexivity|]. split; [exact Hname|].
    right. split; [|split; [exact Hk|exact Hv]].
    apply Nat.nlt_ge. intros Hlt'.
    destruct (Hex (feature_order r) config (transform_order r) Hc Hlt')
      as (r0 & Hr0 & Hj0 & Hi0).
    rewrite select_rows_nil in Hnil. apply (Hnil r0 Hr0).
    destruct (Hin r0 Hr0) as (config0 & Hc0 & Hn0 & _).
    rewrite Hj0, Hc in Hc0. injection Hc0 as <-.
    unfold name_pair. f_equal; [congruence|exact Hi0].
Qed.

Lemma declared_order_lt (cfgs : list dict) (df0 : list plan_row) (r : plan_row) :
  declared_rows cfgs = OK df0 -> In r df0 -> transform_order r < max_steps cfgs.
Proof.
  intros (Hin & _)%declared_rows_spec Hr.
  destruct (Hin r Hr) as (config & Hc & Hrow%row_of_config_lt).
  eapply Nat.lt_le_trans; [exact Hrow|].
  apply list_max_In, in_map. eapply nth_error_In; eauto.
Qed.

(** With distinct feature names the plan is the full grid: every stage
    below the largest step count, every feature, in this order. *)
Lemma action_plan_keys (cfgs : list dict) (names : list string) (fa ft : dict)
    (plan : list plan_row) :
  rmap config_name cfgs = OK names -> NoDup names ->
  action_plan cfgs names fa ft = OK plan ->
  map key_pair plan = grid_keys (max_steps cfgs) (length cfgs).
Proof.
  intros Hnames Hnd H.
  pose proof (action_plan_rows _ _ _ _ _ Hnames H) as Hrows.
  pose proof (names_nth _ _ Hnames) as [Hlen Hnth].
  destruct (action_plan_inv _ _ _ _ _ H)
    as (df0 & df & Hdecl & (Hincl & Hcompl & Hnd') & Hcover & Hperm & Hsorted).
  pose proof (declared_rows_spec _ _ Hdecl) as (Hin & Hex & Hnd0).
  assert (Hfo : forall r j, In r plan -> nth_error names j = Some (feature_name r) ->
                            feature_order r = j).
  { intros r j Hr Hj. destruct (Hrows r Hr) as (config & Hc & Hn & _).
    apply (Hnth _ _ _ Hc) in Hn. rewrite NoDup_nth_error in Hnd.
    apply Hnd; [|congruence]. apply nth_error_Some. congruence. }
  apply sorted_keys_unique.
  - eapply StronglySorted_map; [|exact Hsorted].
    intros x y Hxy. exact Hxy.
  - apply (Permutation_NoDup (Permutation_map key_pair (Permutation_sym Hperm))).
    apply (NoDup_map_coarser key_pair name_pair).
    + intros x y Hx Hy [= Ho Hj].
      apply (Permutation_in _ (Permutation_sym Hperm)) in Hx, Hy.
      destruct (Hrows x Hx) as (cx & Hcx & Hnx & _).
      destruct (Hrows y Hy) as (cy & Hcy & Hny & _).
      unfold name_pair. f_equal; [|exact Ho]. congruence.
    + apply Hnd'. apply (NoDup_map_coarser name_pair order_pair); [|exact Hnd0].
      intros x y Hx Hy [= Hn Ho]. unfold order_pair. f_equal; [|exact Ho].
      apply Hincl, (Permutation_in _ (Permutation_sym Hperm)) in Hx, Hy.
      destruct (Hrows x Hx) as (cx & Hcx & Hnx & _).
      apply (Hnth _ _ _ Hcx) in Hnx. symmetry. apply Hfo; congruence.
  - apply grid_keys_sorted.
  - intros [o j]. rewrite grid_keys_In, in_map_iff. split.
    + intros (r & [= <- <-] & Hr). split.
      * apply (Permutation_in _ Hperm), Hcompl in Hr as [Hr|(_ & _ & Ho & _)].
        { eapply declared_order_lt; eauto. }
        apply unique_In, in_map_iff in Ho as (r0 & <- & Hr0).
        eapply declared_order_lt; eauto.
      * destruct (Hrows r Hr) as (config & Hc & _).
        apply nth_error_Some. congruence.
    + intros [Ho Hj].
      apply list_max_witness in Ho as (x & (c' & <- & Hc')%in_map_iff & Ho).
      apply In_nth_error in Hc' as [j' Hc'].
      destruct (Hex j' c' o Hc' Ho) as (r0 & Hr0 & _ & Ho0).
      apply nth_error_Some in Hj.
      destruct (nth_error cfgs j) as [config|] eqn:Hc; [|congruence].
      assert (Hjn : j < length names) by (rewrite Hlen; apply nth_error_Some; congruence).
      apply nth_error_Some in Hjn. destruct (nth_error names j) as [n|] eqn:Hn; [|congruence].
      destruct (Hcover o n) as (r & Hr & [= Hrn Hro]).
      { apply in_map_iff. eauto. }
      { eapply nth_error_In; eauto. }
      apply (Permutation_in _ (Permutation_sym Hperm)) in Hr.
      exists r. split; [|exact Hr]. unfold key_pair. f_equal; [exact Hro|].
      apply Hfo; congruence.
Qed.

(** ** Stages of the plan *)

Lemma filter_pair_row (s o : nat) (l : list nat) :
  List.filter (fun k : nat * nat => (fst k =? o)%nat) (map (pair s) l)
  = if (s =? o)%nat then map (pair s) l else [].
Proof.
  induction l as [|j l IH]; simpl; [now destruct (s =? o)%nat|].
  rewrite IH. now destruct (s =? o)%nat.
Qed.

Lemma grid_stage_from (s m n o : nat) :
  List.filter (fun k : nat * nat => (fst k =? o)%nat)
              (flat_map (fun o' => map (pair o') (seq 0 n)) (seq s m))
  = if ((s <=? o) && (o <? s + m))%nat then map (pair o) (seq 0 n) else [].
Proof.
  revert s; induction m as [|m IH]; intros s; simpl.
  - destruct (s <=? o)%nat eqn:E1; simpl; [|reflexivity].
    destruct (o <? s + 0)%nat eqn:E2; [|reflexivity].
    apply Nat.leb_le in E1. apply Nat.ltb_lt in E2. lia.
  - rewrite filter_app, filter_pair_row, IH. clear IH.
    destruct (Nat.eqb_spec s o) as [Heq|Hne];
      destruct (Nat.leb_spec (S s) o), (Nat.ltb_spec o (S s + m)),
               (Nat.leb_spec s o), (Nat.ltb_spec o (s + S m));
      cbn [andb]; try lia; try reflexivity.
    all: subst; apply app_nil_r.
Qed.

Lemma stage_keys (o : nat) (plan : list plan_row) :
  map feature_order (stage o plan)
  = map snd (List.filter (fun k : nat * nat => (fst k =? o)%nat) (map key_pair plan)).
Proof.
  unfold stage. induction plan as [|r plan IH]; simpl; [reflexivity|].
  destruct (transform_order r =? o)%nat; simpl; now rewrite IH.
Qed.

Lemma sorted_unique {A} (le lt : A -> A -> Prop) (l1 l2 : list A) :
  (forall a b, le a b -> lt b a -> False) -> (forall a, ~ lt a a) ->
  StronglySorted le l1 -> NoDup l1 -> StronglySorted lt l2 ->
  (forall k, In k l1 <-> In k l2) -> l1 = l2.
Proof.
  intros Hasym Hirr. revert l2; induction l1 as [|a l1 IH]; intros l2 Hs1 Hnd Hs2 Hiff.
  - destruct l2 as [|b l2]; [reflexivity|]. destruct (proj2 (Hiff b)); now left.
  - destruct l2 as [|b l2]; [destruct (proj1 (Hiff a)); now left|].
    apply StronglySorted_inv in Hs1 as [Hs1 Ha]. apply StronglySorted_inv in Hs2 as [Hs2 Hb].
    rewrite Forall_forall in Ha, Hb. inversion Hnd as [|? ? Hna Hnd']; subst.
    assert (Hab : a = b).
    { destruct (proj1 (Hiff a)) as [Heq|Hin]; [now left|auto|].
      destruct (proj2 (Hiff b)) as [Heq|Hin']; [now left|auto|].
      apply Ha in Hin'. apply Hb in Hin. destruct (Hasym _ _ Hin' Hin). }
    subst b. f_equal. apply IH; auto.
    intros k. split; intros Hk.
    + destruct (proj1 (Hiff k)) as [<-|]; [now right|contradiction|assumption].
    + destruct (proj2 (Hiff k)) as [<-|]; [now right| |assumption].
      apply Hb in Hk. destruct (Hirr _ Hk).
Qed.

Lemma filter_sorted {A} (R : A -> A -> Prop) (p : A -> bool) (l : list A) :
  StronglySorted R l -> StronglySorted R (List.filter p l).
Proof.
  induction 1 as [|a l Hs IH Ha]; simpl; [constructor|].
  destruct (p a); [|exact IH]. constructor; [exact IH|].
  rewrite Forall_forall in *. intros x [Hx _]%filter_In. auto.
Qed.

Lemma unique_sorted (l : list nat) : StronglySorted le l -> StronglySorted le (unique l).
Proof.
  induction 1 as [|a l Hs IH Ha]; simpl; constructor.
  - now apply filter_sorted.
  - rewrite Forall_forall in *. intros x [Hx _]%filter_In. apply Ha. now apply unique_In.
Qed.

Lemma seq_sorted (s n : nat) : StronglySorted lt (seq s n).
Proof.
  revert s; induction n as [|n IH]; simpl; intros s; constructor; [apply IH|].
  apply Forall_forall. intros x Hx%in_seq. lia.
Qed.

Lemma action_plan_stages (cfgs : list dict) (names : list string) (fa ft : dict)
    (plan : list plan_row) :
  rmap config_name cfgs = OK names -> NoDup names ->
  action_plan cfgs names fa ft = OK plan ->
  stages plan = seq 0 (max_steps cfgs)
  /\ forall o, o < max_steps cfgs ->
       map feature_order (stage o plan) = seq 0 (length cfgs).
Proof.
  intros Hnames Hnd H.
  pose proof (action_plan_keys _ _ _ _ _ Hnames Hnd H) as Hkeys.
  destruct (action_plan_inv _ _ _ _ _ H) as (_ & _ & _ & _ & _ & _ & Hsorted).
  split.
  - apply (sorted_unique le lt); try lia.
    + apply unique_sorted. eapply StronglySorted_map; [|exact Hsorted].
      unfold row_le. intros x y ?. lia.
    + apply unique_NoDup.
    + apply seq_sorted.
    + intros o. unfold stages. rewrite unique_In, in_seq.
      replace (map transform_order plan) with (map fst (map key_pair plan))
        by (rewrite map_map; reflexivity).
      rewrite Hkeys, in_map_iff. split.
      * intros ([o' j] & <- & Hin%grid_keys_In). simpl. lia.
      * intros [_ Ho]. simpl in Ho.
        destruct cfgs as [|c cfgs]; [unfold max_steps in Ho; simpl in Ho; lia|].
        exists (o, 0). split; [reflexivity|]. apply grid_keys_In. simpl. lia.
  - intros o Ho. rewrite stage_keys, Hkeys. unfold grid_keys.
    rewrite grid_stage_from. simpl.
    replace (o <? max_steps cfgs)%nat with true by (symmetry; now apply Nat.ltb_lt).
    rewrite map_map. simpl. apply map_id.
Qed.

(** ** Computations over the world *)

Lemma bind_OK {A B} (c : M A) (k : A -> M B) (w w' : world) (b : B) :
  bind c k w = (w', OK b) ->
  exists w1 a, c w = (w1, OK a) /\ k a w1 = (w', OK b).
Proof.
  unfold bind. destruct (c w) as [w1 [a|e]]; [eauto|]. intros [= _ ?].
Qed.

(** Invert every successful bind in hypothesis [H]. *)
Ltac minv H :=
  repeat (let w := fresh "w" in
          let a := fresh "a" in
          let E := fresh "E" in
          apply bind_OK in H; destruct H as (w & a & E & H)).

Lemma readonly_ret {A} (a : A) : readonly (ret a).
Proof. intros w; reflexivity. Qed.

Lemma readonly_raise {A} (e : exn) : readonly (@raise A e).
Proof. intros w; reflexivity. Qed.

Lemma readonly_lift {A} (r : result A) : readonly (lift r).
Proof. intros w; reflexivity. Qed.

Lemma readonly_load (l : loc) : readonly (load l).
Proof. intros w. unfold load. now destruct (heap w !! l). Qed.

Lemma readonly_attr {A} (a : option A) : readonly (attr a).
Proof. destruct a; intros w; reflexivity. Qed.

Lemma readonly_bind {A B} (c : M A) (k : A -> M B) :
  readonly c -> (forall a, readonly (k a)) -> readonly (bind c k).
Proof.
  intros Hc Hk w. unfold bind. specialize (Hc w).
  destruct (c w) as [w1 [a|e]]; simpl in *; subst; [apply Hk|reflexivity].
Qed.

Lemma readonly_mmap {A B} (f : A -> M B) (l : list A) :
  (forall x, readonly (f x)) -> readonly (mmap f l).
Proof.
  intros Hf. induction l as [|x l IH]; simpl; [apply readonly_ret|].
  apply readonly_bind; [apply Hf|]. intros y.
  apply readonly_bind; [exact IH|]. intros ys. apply readonly_ret.
Qed.

Create HintDb readonly.
#[export] Hint Resolve readonly_ret readonly_raise readonly_lift readonly_load
  readonly_attr : readonly.

Ltac readonly_tac :=
  repeat first
    [ apply readonly_bind; [|intro]
    | apply readonly_mmap; intro
    | solve [auto with readonly] ].

Lemma readonly_name_at (l : loc) : readonly (name_at l).
Proof. unfold name_at. readonly_tac. Qed.
#[export] Hint Resolve readonly_name_at : readonly.

Lemma readonly_run {A} (c : M A) (w w' : world) (r : result A) :
  readonly c -> c w = (w', r) -> w' = w.
Proof. intros H E. specialize (H w). rewrite E in H. exact H. Qed.

Lemma readonly_create_action_plan (self : PreProcessor) :
  readonly (create_action_plan self).
Proof. unfold create_action_plan. readonly_tac. Qed.

(** ** Dictionaries *)

Lemma getitem_update_ne (d : dict) (k k' : string) (v : pyobj) :
  k <> k' -> getitem (update d k' v) k = getitem d k.
Proof.
  intros Hne. induction d as [|[k0 v0] d IH]; simpl.
  - destruct (String.eqb_spec k' k); [congruence|reflexivity].
  - destruct (String.eqb_spec k0 k') as [->|Hne0]; simpl.
    + destruct (String.eqb_spec k' k); [congruence|reflexivity].
    + now rewrite IH.
Qed.

Lemma getitem_update_eq (d : dict) (k : string) (v : pyobj) :
  getitem (update d k v) k = OK v.
Proof.
  induction d as [|[k0 v0] d IH]; simpl.
  - now rewrite String.eqb_refl.
  - destruct (String.eqb_spec k0 k) as [->|Hne]; simpl.
    + now rewrite String.eqb_refl.
    + destruct (String.eqb_spec k0 k); [congruence|exact IH].
Qed.

Lemma contains_In (d : dict) (k : string) : contains d k = true <-> In k (keys d).
Proof.
  unfold contains. rewrite existsb_exists. split.
  - intros (x & Hx & ->%String.eqb_eq). exact Hx.
  - intros H. exists k. split; [exact H|apply String.eqb_refl].
Qed.

Lemma getitem_In (d : dict) (k : string) :
  In k (keys d) -> exists v, getitem d k = OK v.
Proof.
  induction d as [|[k0 v0] d IH]; simpl; [tauto|]. intros [->|H].
  - rewrite String.eqb_refl. eauto.
  - destruct (k0 =? k); eauto.
Qed.

Lemma keys_update (d : dict) (k : string) (v : pyobj) :
  keys (update d k v) = if contains d k then keys d else keys d ++ [k].
Proof.
  unfold contains. induction d as [|[k0 v0] d IH]; simpl; [reflexivity|].
  rewrite (String.eqb_sym k k0).
  destruct (String.eqb_spec k0 k) as [->|Hne]; simpl; [reflexivity|].
  rewrite IH. now destruct (existsb (String.eqb k) (keys d)).
Qed.

Lemma with_active_idem (config : dict) : with_active (with_active config) = with_active config.
Proof.
  unfold with_active at 2 3. destruct (contains config "active") eqn:E.
  - unfold with_active. now rewrite E.
  - unfold with_active.
    replace (contains (update config "active" (VBool true)) "active") with true; [reflexivity|].
    symmetry. apply contains_In. rewrite keys_update, E. apply in_or_app. right. now left.
Qed.

Lemma getitem_with_active (config : dict) (k : string) :
  k <> "active" -> getitem (with_active config) k = getitem config k.
Proof.
  intros Hne. unfold with_active. destruct (contains config "active"); [reflexivity|].
  now apply getitem_update_ne.
Qed.

Lemma getitem_with_active_active (config : dict) :
  exists a, getitem (with_active config) "active" = OK a.
Proof.
  unfold with_active. destruct (contains config "active") eqn:E.
  - apply getitem_In. now apply contains_In.
  - rewrite getitem_update_eq. eauto.
Qed.

Lemma step_keys_with_active (config : dict) : step_keys (with_active config) = step_keys config.
Proof.
  unfold with_active, step_keys. destruct (contains config "active") eqn:E; [reflexivity|].
  rewrite keys_update, E, filter_app. simpl. apply app_nil_r.
Qed.

Lemma step_keys_not_reserved (config : dict) (k : string) :
  In k (step_keys config) -> In k (keys config) /\ ~ In k reserved.
Proof.
  unfold step_keys. rewrite filter_In, negb_true_iff. intros [Hin Hex]. split; [exact Hin|].
  intros Hr. apply not_true_iff_false in Hex. apply Hex.
  apply existsb_exists. exists k. split; [exact Hr|apply String.eqb_refl].
Qed.

Lemma config_name_with_active (config : dict) :
  config_name (with_active config) = config_name config.
Proof. unfold config_name. now rewrite getitem_with_active. Qed.

Lemma row_of_config_with_active (config : dict) (r : plan_row) :
  row_of_config (with_active config) r <-> row_of_config config r.
Proof.
  unfold row_of_config. rewrite step_keys_with_active, getitem_with_active by discriminate.
  split; intros (Hn & Hk & Hv); (split; [exact Hn|]; split; [exact Hk|]).
  - rewrite getitem_with_active in Hv; [exact Hv|].
    intros Heq. apply nth_error_In, step_keys_not_reserved in Hk as [_ Hk].
    apply Hk. rewrite Heq. simpl. tauto.
  - rewrite getitem_with_active; [exact Hv|].
    intros Heq. apply nth_error_In, step_keys_not_reserved in Hk as [_ Hk].
    apply Hk. rewrite Heq. simpl. tauto.
Qed.

(** ** The configuration in the heap *)

Lemma bind_run {A B} (c : M A) (k : A -> M B) (w w1 : world) (r : result A) :
  c w = (w1, r) ->
  bind c k w = match r with OK a => k a w1 | Raise e => (w1, Raise e) end.
Proof. unfold bind. now intros ->. Qed.

(** A comprehension over the configuration that only reads it. *)
Lemma mmap_holds {B} (f : loc -> M B) (g : dict -> result B) (w : world)
    (locs : list loc) (cfgs : list dict) :
  (forall l c, heap w !! l = Some c -> f l w = (w, g c)) ->
  holds w locs cfgs -> mmap f locs w = (w, rmap g cfgs).
Proof.
  intros Hf. induction 1 as [|l c locs cfgs Hl Hrest IH]; simpl; [reflexivity|].
  rewrite (bind_run _ _ _ _ _ (Hf l c Hl)). destruct (g c) as [y|e]; [|reflexivity].
  simpl. rewrite (bind_run _ _ _ _ _ IH). now destruct (rmap g cfgs).
Qed.

Lemma load_run (w : world) (l : loc) (c : dict) :
  heap w !! l = Some c -> load l w = (w, OK c).
Proof. unfold load. now intros ->. Qed.

Lemma name_at_run (w : world) (l : loc) (c : dict) :
  heap w !! l = Some c -> name_at l w = (w, config_name c).
Proof.
  intros H. unfold name_at. rewrite (bind_run _ _ _ _ _ (load_run _ _ _ H)). reflexivity.
Qed.

Lemma default_active_run (w : world) (l : loc) (c : dict) :
  heap w !! l = Some c ->
  exists w', default_active l w = (w', OK tt)
             /\ journal w' = journal w
             /\ heap w' = <[l := with_active c]> (heap w).
Proof.
  intros H. unfold default_active. rewrite (bind_run _ _ _ _ _ (load_run _ _ _ H)).
  unfold with_active. destruct (contains c "active"); simpl.
  - exists w. split; [reflexivity|]. split; [reflexivity|]. symmetry. now apply insert_id.
  - eexists. split; [reflexivity|]. split; reflexivity.
Qed.

(** The first loop of [__interpret_config] rewrites exactly the listed
    dictionaries, each to [with_active] of itself. *)
Lemma default_active_loop (w : world) (locs : list loc) :
  (forall l, In l locs -> is_Some (heap w !! l)) ->
  exists w' us, mmap default_active locs w = (w', OK us)
    /\ journal w' = journal w
    /\ (forall l, In l locs -> heap w' !! l = with_active <$> heap w !! l)
    /\ (forall l, ~ In l locs -> heap w' !! l = heap w !! l).
Proof.
  revert w; induction locs as [|l0 locs IH]; intros w Hall; simpl.
  - exists w, []. repeat split; tauto.
  - destruct (Hall l0) as [c Hc]; [now left|].
    destruct (default_active_run _ _ _ Hc) as (w1 & Hrun & Hj1 & Hh1).
    destruct (IH w1) as (w' & us & Hrun' & Hj' & Hin & Hout).
    { intros l Hl. rewrite Hh1. destruct (decide (l0 = l)) as [->|Hne].
      - rewrite lookup_insert_eq. eauto.
      - rewrite lookup_insert_ne by exact Hne. apply Hall. now right. }
    exists w', (tt :: us). rewrite (bind_run _ _ _ _ _ Hrun), (bind_run _ _ _ _ _ Hrun').
    split; [reflexivity|]. split; [congruence|]. split.
    + intros l Hl. destruct (in_dec Pos.eq_dec l locs) as [Hl'|Hl'].
      * rewrite (Hin l Hl'), Hh1. destruct (decide (l0 = l)) as [->|Hne].
        -- rewrite lookup_insert_eq, Hc. simpl. now rewrite with_active_idem.
        -- now rewrite lookup_insert_ne.
      * destruct Hl as [->|Hl]; [|contradiction].
        rewrite (Hout l Hl'), Hh1, lookup_insert_eq, Hc. reflexivity.
    + intros l Hl. rewrite Hout by tauto. rewrite Hh1. apply lookup_insert_ne. tauto.
Qed.

Lemma holds_In (w : world) (locs : list loc) (cfgs : list dict) :
  holds w locs cfgs -> forall l, In l locs -> is_Some (heap w !! l).
Proof.
  induction 1 as [|l c locs cfgs Hl _ IH]; intros l' [].
  - subst. eauto.
  - auto.
Qed.

Lemma holds_with_active (w w' : world) (locs : list loc) (cfgs : list dict) :
  holds w locs cfgs ->
  (forall l, In l locs -> heap w' !! l = with_active <$> heap w !! l) ->
  holds w' locs (map with_active cfgs).
Proof.
  induction 1 as [|l c locs cfgs Hl _ IH]; intros Hw; simpl; constructor.
  - rewrite Hw by now left. now rewrite Hl.
  - apply IH. intros l' Hl'. apply Hw. now right.
Qed.

(** [__interpret_config], run on a configuration that holds [cfgs]. *)
Lemma interpret_config_run (self : PreProcessor) (w : world) (cfgs : list dict) :
  holds w (features_config self) cfgs ->
  exists w1,
    holds w1 (features_config self) (map with_active cfgs)
    /\ journal w1 = journal w
    /\ (forall l, In l (features_config self) ->
          heap w1 !! l = with_active <$> heap w !! l)
    /\ (forall l, ~ In l (features_config self) -> heap w1 !! l = heap w !! l)
    /\ interpret_config self w
       = (w1, names <- rmap config_name (map with_active cfgs) ;;
              actives <- rmap (name_and "active") (map with_active cfgs) ;;
              types <- rmap (name_and "type") (map with_active cfgs) ;;
              OK (mk_pre (features_config self) (Some names) (Some (dict_of actives))
                         (Some (dict_of types)) (preprocessor self))).
Proof.
  intros Hholds.
  destruct (default_active_loop w (features_config self) (holds_In _ _ _ Hholds))
    as (w1 & us & Hrun & Hj & Hin & Hout).
  pose proof (holds_with_active _ _ _ _ Hholds Hin) as Hholds1.
  exists w1. repeat (split; [assumption|]).
  unfold interpret_config. rewrite (bind_run _ _ _ _ _ Hrun).
  rewrite (bind_run _ _ _ _ _ (mmap_holds _ _ _ _ _ (name_at_run w1) Hholds1)).
  destruct (rmap config_name (map with_active cfgs)) as [names|e]; [|reflexivity].
  erewrite bind_run; cycle 1.
  { apply (mmap_holds _ (name_and "active")); [|exact Hholds1]. intros l c Hl.
    rewrite (bind_run _ _ _ _ _ (name_at_run _ _ _ Hl)). unfold name_and.
    destruct (config_name c); [|reflexivity].
    rewrite (bind_run _ _ _ _ _ (load_run _ _ _ Hl)). unfold lift, bind, ret. simpl.
    now destruct (getitem c "active"). }
  simpl. destruct (rmap (name_and "active") (map with_active cfgs)) as [actives|e];
    [|reflexivity].
  erewrite bind_run; cycle 1.
  { apply (mmap_holds _ (name_and "type")); [|exact Hholds1]. intros l c Hl.
    rewrite (bind_run _ _ _ _ _ (name_at_run _ _ _ Hl)). unfold name_and.
    destruct (config_name c); [|reflexivity].
    rewrite (bind_run _ _ _ _ _ (load_run _ _ _ Hl)). unfold lift, bind, ret. simpl.
    now destruct (getitem c "type"). }
  simpl. now destruct (rmap (name_and "type") (map with_active cfgs)).
Qed.

Lemma create_action_plan_run (self : PreProcessor) (w : world) (cfgs : list dict)
    (names : list string) (fa ft : dict) :
  holds w (features_config self) cfgs ->
  feature_names self = Some names -> feature_active self = Some fa ->
  feature_types self = Some ft ->
  create_action_plan self w = (w, action_plan cfgs names fa ft).
Proof.
  intros Hholds Hn Ha Ht. unfold create_action_plan.
  rewrite (bind_run _ _ _ _ _ (mmap_holds _ _ _ _ _ (load_run w) Hholds)).
  replace (rmap OK cfgs) with (OK cfgs)
    by (clear; induction cfgs as [|c cfgs IH]; simpl; [|rewrite <- IH]; reflexivity).
  rewrite Hn, Ha, Ht. reflexivity.
Qed.

(** ** The plan exists *)

Lemma rfold_total {A B} (f : A -> B -> result A) (l : list B) (acc : A) :
  (forall a x, In x l -> exists a', f a x = OK a') ->
  exists acc', rfold f l acc = OK acc'.
Proof.
  revert acc; induction l as [|x l IH]; simpl; intros acc Hf; [eauto|].
  destruct (Hf acc x) as [a' ->]; [now left|]. simpl. apply IH. auto.
Qed.

Lemma keys_dict_of_from (l : list (string * pyobj)) (d : dict) (k : string) :
  In k (keys d) \/ In k (map fst l) ->
  In k (keys (fold_left (fun d kv => update d (fst kv) (snd kv)) l d)).
Proof.
  revert d; induction l as [|[k0 v0] l IH]; simpl; intros d H; [tauto|].
  apply IH. rewrite keys_update.
  destruct (contains d k0) eqn:E.
  - apply contains_In in E. destruct H as [H|[<-|H]]; auto.
  - rewrite in_app_iff. simpl. tauto.
Qed.

Lemma getitem_dict_of (l : list (string * pyobj)) (k : string) :
  In k (map fst l) -> exists v, getitem (dict_of l) k = OK v.
Proof. intros H. apply getitem_In, keys_dict_of_from. now right. Qed.

Lemma name_and_fst (k : string) (cfgs : list dict) (names : list string)
    (pairs : list (string * pyobj)) :
  rmap config_name cfgs = OK names -> rmap (name_and k) cfgs = OK pairs ->
  map fst pairs = names.
Proof.
  revert names pairs; induction cfgs as [|c cfgs IH]; simpl; intros names pairs H1 H2.
  - injection H1 as <-. now injection H2 as <-.
  - rinv H1. rinv H2. injection H1 as <-. injection H2 as <-.
    unfold name_and in E1. rinv E1. injection E1 as <-. simpl.
    f_equal; [congruence|eauto].
Qed.

Lemma action_plan_total (cfgs : list dict) (names : list string) (fa ft : dict) :
  rmap config_name cfgs = OK names ->
  Forall (fun c => (exists a, getitem c "active" = OK a)
                   /\ (exists t, getitem c "type" = OK t)) cfgs ->
  (forall n, In n names -> exists a, getitem fa n = OK a) ->
  (forall n, In n names -> exists t, getitem ft n = OK t) ->
  exists plan, action_plan cfgs names fa ft = OK plan.
Proof.
  intros Hnames Hwf Hfa Hft. apply names_nth in Hnames as [Hlen Hnth].
  rewrite Forall_forall in Hwf. unfold action_plan.
  assert (Hdecl : exists df0, declared_rows cfgs = OK df0).
  { unfold declared_rows.
    destruct (rmap_total (fun jc : nat * dict => config_rows (fst jc) (snd jc))
                (enumerate cfgs)) as [rs ->]; [|simpl; eauto].
    intros [j c] Hjc. apply enumerate_from_In in Hjc as [_ Hc].
    rewrite Nat.sub_0_r in Hc. simpl. apply rmap_total.
    intros [i k] Hik. apply enumerate_from_In in Hik as [_ Hk].
    apply nth_error_In, step_keys_not_reserved in Hk as [Hk _].
    apply getitem_In in Hk as [v Hv].
    destruct (Hwf c (nth_error_In _ _ Hc)) as [[a Ha] [t Ht]].
    assert (Hj : j < length names) by (rewrite Hlen; apply nth_error_Some; congruence).
    apply nth_error_Some in Hj.
    destruct (nth_error names j) as [n|] eqn:Hn; [|congruence].
    apply (Hnth _ _ _ Hc) in Hn. unfold declared_row. rewrite Hn. simpl.
    rewrite Ha, Ht. simpl. rewrite Hv. simpl. eauto. }
  destruct Hdecl as [df0 ->]. simpl.
  destruct (rfold_total
              (fun df order => rfold (fill_missing names fa ft order) names df)
              (unique (map transform_order df0)) df0) as [df ->]; [|simpl; eauto].
  intros a o _. apply rfold_total. intros b col Hcol.
  unfold fill_missing. destruct (length (select_rows b col o) =? 0)%nat; [|eauto].
  destruct (index_In names col Hcol) as [j ->].
  destruct (Hfa col Hcol) as [x ->]. destruct (Hft col Hcol) as [y ->]. simpl. eauto.
Qed.

(** [__interpret_config] followed by [__create_action_plan] on a
    configuration whose dictionaries carry a string name and a type. *)
Lemma compile_plan_run (self : PreProcessor) (w : world) (cfgs : list dict)
    (names : list string) :
  holds w (features_config self) cfgs ->
  rmap config_name cfgs = OK names ->
  Forall (fun c => exists t, getitem c "type" = OK t) cfgs ->
  exists w1 self1 plan fa ft,
    interpret_config self w = (w1, OK self1)
    /\ create_action_plan self1 w1 = (w1, OK plan)
    /\ feature_names self1 = Some names
    /\ action_plan (map with_active cfgs) names fa ft = OK plan.
Proof.
  intros Hholds Hnames Htypes.
  destruct (interpret_config_run self w cfgs Hholds) as (w1 & Hholds1 & _ & _ & _ & Hrun).
  assert (Hnames1 : rmap config_name (map with_active cfgs) = OK names).
  { rewrite <- Hnames. clear. induction cfgs as [|c cfgs IH]; simpl; [reflexivity|].
    now rewrite config_name_with_active, IH. }
  rewrite Hnames1 in Hrun. simpl in Hrun.
  assert (Hwf : Forall (fun c => (exists a, getitem c "active" = OK a)
                                 /\ (exists t, getitem c "type" = OK t))
                       (map with_active cfgs)).
  { apply Forall_map. eapply Forall_impl; [|exact Htypes]. intros c [t Ht]. split.
    - apply getitem_with_active_active.
    - exists t. now rewrite getitem_with_active. }
  assert (Hpairs : forall k, (forall c, In c (map with_active cfgs) ->
                                        exists v, getitem c k = OK v) ->
                             exists pairs, rmap (name_and k) (map with_active cfgs) = OK pairs).
  { intros k Hk. apply rmap_total. intros c Hc.
    pose proof (rmap_Forall2 _ _ _ Hnames1) as HF.
    assert (Hn : exists n, config_name c = OK n).
    { clear -HF Hc. induction HF; [destruct Hc|]. destruct Hc as [<-|Hc]; eauto. }
    destruct Hn as [n Hn]. destruct (Hk c Hc) as [v Hv].
    unfold name_and. rewrite Hn. simpl. rewrite Hv. simpl. eauto. }
  rewrite Forall_forall in Hwf.
  destruct (Hpairs "active") as [actives Hact]; [intros c Hc; apply (Hwf c Hc)|].
  destruct (Hpairs "type") as [types Htyp]; [intros c Hc; apply (Hwf c Hc)|].
  rewrite Hact, Htyp in Hrun. simpl in Hrun.
  destruct (action_plan_total (map with_active cfgs) names (dict_of actives) (dict_of types))
    as [plan Hplan]; auto.
  { now apply Forall_forall. }
  { intros n Hn. apply getitem_dict_of. now rewrite (name_and_fst _ _ _ _ Hnames1 Hact). }
  { intros n Hn. apply getitem_dict_of. now rewrite (name_and_fst _ _ _ _ Hnames1 Htyp). }
  eexists w1, _, plan, _, _. split; [exact Hrun|]. split; [|split; [reflexivity|exact Hplan]].
  erewrite (create_action_plan_run (mk_pre _ _ _ _ _));
    [now rewrite Hplan|exact Hholds1|reflexivity..].
Qed.

Lemma max_steps_with_active (cfgs : list dict) :
  max_steps (map with_active cfgs) = max_steps cfgs.
Proof.
  unfold max_steps, step_count. rewrite map_map. f_equal.
  apply map_ext. intros c. now rewrite step_keys_with_active.
Qed.

Lemma rmap_config_name_with_active (cfgs : list dict) :
  rmap config_name (map with_active cfgs) = rmap config_name cfgs.
Proof.
  induction cfgs as [|c cfgs IH]; simpl; [reflexivity|].
  now rewrite config_name_with_active, IH.
Qed.

(** The rows of a plan compiled from the normalised dictionaries, read
    against the dictionaries as the caller wrote them. *)
Lemma action_plan_rows_raw (cfgs : list dict) (names : list string) (fa ft : dict)
    (plan : list plan_row) :
  rmap config_name cfgs = OK names ->
  action_plan (map with_active cfgs) names fa ft = OK plan ->
  forall r, In r plan ->
    exists config, nth_error cfgs (feature_order r) = Some config
      /\ getitem config "name" = OK (VStr (feature_name r))
      /\ ((transform_order r < step_count config /\ row_of_config config r)
          \/ (step_count config <= transform_order r
              /\ key r = "transformation" /\ value r = VStr "identity")).
Proof.
  intros Hnames Hplan r Hr. rewrite <- rmap_config_name_with_active in Hnames.
  destruct (action_plan_rows _ _ _ _ _ Hnames Hplan r Hr) as (c' & Hc' & Hn & Hcase).
  rewrite nth_error_map in Hc'.
  destruct (nth_error cfgs (feature_order r)) as [config|]; [|discriminate].
  injection Hc' as <-. exists config. split; [reflexivity|].
  rewrite getitem_with_active in Hn by discriminate. split; [exact Hn|].
  unfold step_count in *. rewrite step_keys_with_active in Hcase.
  now rewrite row_of_config_with_active in Hcase.
Qed.

(** C3. For a configuration of N features with distinct names, the compiled
    action plan has exactly one stage per step position below the largest
    declared step count (none when no feature declares a step); every stage
    holds exactly N rows, one per feature in configuration order; a row whose
    (stage, feature) pair was declared carries the declared key and value,
    and every other row is the synthesized one with key "transformation" and
    value "identity". *)
Theorem C3_action_plan_is_full_grid (self : PreProcessor) (w : world)
    (cfgs : list dict) (names : list string) :
  holds w (features_config self) cfgs ->
  rmap config_name cfgs = OK names ->
  Forall (fun c => exists t, getitem c "type" = OK t) cfgs ->
  NoDup names ->
  exists w1 self1 plan,
    interpret_config self w = (w1, OK self1)
    /\ create_action_plan self1 w1 = (w1, OK plan)
    /\ stages plan = seq 0 (max_steps cfgs)
    /\ (max_steps cfgs = 0 -> plan = [])
    /\ (forall o, o < max_steps cfgs ->
          map feature_order (stage o plan) = seq 0 (length cfgs))
    /\ (forall r, In r plan ->
          exists config, nth_error cfgs (feature_order r) = Some config
            /\ getitem config "name" = OK (VStr (feature_name r))
            /\ ((transform_order r < step_count config /\ row_of_config config r)
                \/ (step_count config <= transform_order r
                    /\ key r = "transformation" /\ value r = VStr "identity"))).
Proof.
  intros Hholds Hnames Htypes Hnd.
  destruct (compile_plan_run self w cfgs names Hholds Hnames Htypes)
    as (w1 & self1 & plan & fa & ft & Hrun1 & Hrun2 & _ & Hplan).
  exists w1, self1, plan. split; [exact Hrun1|]. split; [exact Hrun2|].
  pose proof Hnames as Hnames1. rewrite <- rmap_config_name_with_active in Hnames1.
  destruct (action_plan_stages _ _ _ _ _ Hnames1 Hnd Hplan) as [Hstages Hstage].
  rewrite max_steps_with_active in Hstages, Hstage. rewrite length_map in Hstage.
  split; [exact Hstages|]. split; [|split; [exact Hstage|]].
  - intros Hzero. rewrite Hzero in Hstages. unfold stages in Hstages.
    destruct plan as [|r plan]; [reflexivity|discriminate].
  - now apply action_plan_rows_raw with (names := names) (fa := fa) (ft := ft).
Qed.

(** C4. The rows of the compiled action plan are ordered by transform_order
    ascending and, within one transform_order, by feature_order ascending,
    where feature_order is the position in the configuration list of a
    dictionary carrying the row's feature name. *)
Theorem C4_action_plan_sorted (self : PreProcessor) (w : world)
    (cfgs : list dict) (names : list string) :
  holds w (features_config self) cfgs ->
  rmap config_name cfgs = OK names ->
  Forall (fun c => exists t, getitem c "type" = OK t) cfgs ->
  exists w1 self1 plan,
    interpret_config self w = (w1, OK self1)
    /\ create_action_plan self1 w1 = (w1, OK plan)
    /\ StronglySorted row_le plan
    /\ (forall r, In r plan ->
          exists config, nth_error cfgs (feature_order r) = Some config
            /\ getitem config "name" = OK (VStr (feature_name r))).
Proof.
  intros Hholds Hnames Htypes.
  destruct (compile_plan_run self w cfgs names Hholds Hnames Htypes)
    as (w1 & self1 & plan & fa & ft & Hrun1 & Hrun2 & _ & Hplan).
  exists w1, self1, plan. split; [exact Hrun1|]. split; [exact Hrun2|]. split.
  - now destruct (action_plan_inv _ _ _ _ _ Hplan) as (_ & _ & _ & _ & _ & _ & Hs).
  - intros r Hr.
    destruct (action_plan_rows_raw _ _ _ _ _ Hnames Hplan r Hr) as (c & Hc & Hn & _).
    eauto.
Qed.

(** ** The heap is only written by [__interpret_config] *)

Lemma keeps_ret {A} (a : A) : keeps_heap (ret a).
Proof. intros w; reflexivity. Qed.

Lemma keeps_raise {A} (e : exn) : keeps_heap (@raise A e).
Proof. intros w; reflexivity. Qed.

Lemma keeps_lift {A} (r : result A) : keeps_heap (lift r).
Proof. intros w; reflexivity. Qed.

Lemma keeps_emit (e : event) : keeps_heap (emit e).
Proof. intros w; reflexivity. Qed.

Lemma keeps_readonly {A} (c : M A) : readonly c -> keeps_heap c.
Proof. intros H w. now rewrite H. Qed.

Lemma keeps_bind {A B} (c : M A) (k : A -> M B) :
  keeps_heap c -> (forall a, keeps_heap (k a)) -> keeps_heap (bind c k).
Proof.
  intros Hc Hk w. unfold bind. specialize (Hc w).
  destruct (c w) as [w1 [a|e]]; simpl in *; [|exact Hc].
  now rewrite Hk.
Qed.

Lemma keeps_mmap {A B} (f : A -> M B) (l : list A) :
  (forall x, keeps_heap (f x)) -> keeps_heap (mmap f l).
Proof.
  intros Hf. induction l as [|x l IH]; simpl; [apply keeps_ret|].
  apply keeps_bind; [apply Hf|]. intros y.
  apply keeps_bind; [exact IH|]. intros ys. apply keeps_ret.
Qed.

Lemma keeps_mfold {A B} (f : A -> B -> M A) (l : list B) (acc : A) :
  (forall a x, keeps_heap (f a x)) -> keeps_heap (mfold f l acc).
Proof.
  intros Hf. revert acc; induction l as [|x l IH]; simpl; intros acc; [apply keeps_ret|].
  apply keeps_bind; [apply Hf|]. exact IH.
Qed.

Lemma keeps_logged {A} (c : result A) : keeps_heap (logged c).
Proof.
  destruct c; simpl; [apply keeps_ret|].
  apply keeps_bind; [apply keeps_emit|]. intros _. apply keeps_raise.
Qed.

Lemma keeps_attr {A} (a : option A) : keeps_heap (attr a).
Proof. apply keeps_readonly, readonly_attr. Qed.

Create HintDb frame.
#[export] Hint Resolve keeps_ret keeps_raise keeps_lift keeps_emit keeps_logged
  keeps_attr : frame.

(** Decompose a computation along its binds, loops and case distinctions. *)
Ltac frame :=
  repeat match goal with
         | |- keeps_heap (bind _ _) => apply keeps_bind; [|intro]
         | |- keeps_heap (mmap _ _) => apply keeps_mmap; intro
         | |- keeps_heap (mfold _ _ _) => apply keeps_mfold; intros
         | |- keeps_heap (match ?x with _ => _ end) => destruct x
         | |- keeps_heap _ => solve [auto with frame]
         end.

Section Frame.
Context `{L : Lib}.

Lemma keeps_dataframe_transformer (X : frame) (tr : frame -> M ndarray) :
    (forall X, keeps_heap (tr X)) -> keeps_heap (dataframe_transformer X tr).
  Proof. intros H. unfold dataframe_transformer. frame. Qed.

Lemma keeps_transform_one (t : transformer) (X : frame) : keeps_heap (transform_one t X).
  Proof.
    destruct t; simpl;
      unfold dataframe_transformer, imputer_transform, scaler_obj_transform; frame.
  Qed.

Lemma keeps_fit_one (t : transformer) (X : frame) : keeps_heap (fit_one t X).
  Proof. destruct t; simpl; frame. Qed.

Lemma keeps_fit_transform_one (t : transformer) (X : frame) :
    keeps_heap (fit_transform_one t X).
  Proof.
    unfold fit_transform_one. pose proof keeps_fit_one. pose proof keeps_transform_one.
    frame.
  Qed.

Lemma keeps_step_fit (s : step) (X : frame) : keeps_heap (step_fit s X).
  Proof.
    pose proof keeps_fit_transform_one.
    destruct s; simpl; unfold ColumnTransformer_fit, sk_ct_fit; frame.
  Qed.

Lemma keeps_step_transform (s : step) (X : frame) : keeps_heap (step_transform s X).
  Proof.
    pose proof keeps_transform_one.
    destruct s; simpl;
      unfold ColumnTransformer_transform, dataframe_transformer, sk_ct_transform; frame.
  Qed.

Lemma keeps_Pipeline_fit (steps : Pipeline) (X : frame) (y : option column) :
    keeps_heap (Pipeline_fit steps X y).
  Proof.
    revert X; induction steps as [|[n s] rest IH]; intros X; simpl; [apply keeps_ret|].
    apply keeps_bind; [apply keeps_step_fit|]. intros s'.
    destruct rest as [|ns rest]; [apply keeps_ret|].
    apply keeps_bind; [apply keeps_step_transform|]. intros Xt.
    apply keeps_bind; [apply IH|]. intros rest'. apply keeps_ret.
  Qed.

Lemma keeps_interpret_process_step (k : string) (v ty : pyobj) :
    keeps_heap (interpret_process_step k v ty).
  Proof. unfold interpret_process_step. frame. Qed.

Lemma keeps_set_preprocessor (plan : list plan_row) : keeps_heap (set_preprocessor plan).
  Proof. pose proof keeps_interpret_process_step. unfold set_preprocessor. frame. Qed.

Lemma heap_after_bind {A B} (c : M A) (k : A -> M B) (w : world) :
    (forall a, keeps_heap (k a)) -> heap (fst (bind c k w)) = heap (fst (c w)).
  Proof.
    intros Hk. unfold bind. destruct (c w) as [w1 [a|e]]; simpl; [apply Hk|reflexivity].
  Qed.

Lemma fit_heap (self : PreProcessor) (X : frame) (y : option column) (w : world) :
    heap (fst (fit self X y w)) = heap (fst (interpret_config self w)).
  Proof.
    unfold fit. apply heap_after_bind. intros self1.
    pose proof keeps_set_preprocessor. pose proof keeps_Pipeline_fit.
    pose proof (fun s => keeps_readonly _ (readonly_create_action_plan s)).
    unfold get_active_features. frame.
  Qed.
End Frame.

Lemma update_absent (d : dict) (k : string) (v : pyobj) :
  contains d k = false -> update d k v = d ++ [(k, v)].
Proof.
  unfold contains. induction d as [|[k0 v0] d IH]; simpl; [reflexivity|].
  rewrite (String.eqb_sym k k0). destruct (k0 =? k); simpl; [discriminate|].
  intros H. now rewrite IH.
Qed.

Lemma with_active_spec (config : dict) :
  with_active config
  = if contains config "active" then config else config ++ [("active", VBool true)].
Proof.
  unfold with_active. destruct (contains config "active") eqn:E; [reflexivity|].
  now apply update_absent.
Qed.

Lemma holds_heap (w w' : world) (locs : list loc) (cfgs : list dict) :
  heap w' = heap w -> holds w locs cfgs -> holds w' locs cfgs.
Proof. unfold holds. now intros ->. Qed.

(** C10. [fit] writes to the caller's configuration dictionaries: whatever
    the outcome of [fit], afterwards every listed dictionary that had no
    "active" key has the entry "active": True appended and is otherwise
    unchanged, a dictionary that had the key is unchanged, and no other
    dictionary of the heap is touched. *)
Theorem C10_fit_inserts_default_active `{L : Lib} (self : PreProcessor) (X : frame)
    (y : option column) (w : world) (cfgs : list dict) :
  holds w (features_config self) cfgs ->
  holds (fst (fit self X y w)) (features_config self)
        (map (fun config => if contains config "active" then config
                            else config ++ [("active", VBool true)]) cfgs)
  /\ (forall l, ~ In l (features_config self) ->
        heap (fst (fit self X y w)) !! l = heap w !! l).
Proof.
  intros Hholds.
  destruct (interpret_config_run self w cfgs Hholds) as (w1 & Hholds1 & _ & _ & Hout & Hrun).
  assert (Hheap : heap (fst (fit self X y w)) = heap w1)
    by (rewrite fit_heap, Hrun; reflexivity).
  split.
  - apply (holds_heap w1); [exact Hheap|].
    erewrite map_ext; [exact Hholds1|]. intros c. symmetry. apply with_active_spec.
  - intros l Hl. rewrite Hheap. now apply Hout.
Qed.

(** ** [fit_transform] *)

Lemma bind_ext {A B} (c : M A) (k k' : A -> M B) (w : world) :
  (forall a w', k a w' = k' a w') -> bind c k w = bind c k' w.
Proof. intros H. unfold bind. destruct (c w) as [w1 [a|e]]; [apply H|reflexivity]. Qed.

Section FitTransform.
Context `{L : Lib}.

Lemma Pipeline_fit_ignores_y (steps : Pipeline) (X : frame) (y y' : option column)
      (w : world) :
    Pipeline_fit steps X y w = Pipeline_fit steps X y' w.
  Proof.
    revert X w; induction steps as [|[n s] rest IH]; intros X w; simpl; [reflexivity|].
    apply bind_ext. intros s' w1. destruct rest as [|ns rest]; [reflexivity|].
    apply bind_ext. intros Xt w2. unfold bind. now rewrite (IH Xt w2).
  Qed.

Lemma fit_ignores_y (self : PreProcessor) (X : frame) (y y' : option column) (w : world) :
    fit self X y w = fit self X y' w.
  Proof.
    unfold fit. repeat (apply bind_ext; intros ? ?). unfold bind.
    now rewrite (Pipeline_fit_ignores_y _ _ y y').
  Qed.

  (** C5. [fit_transform(X)] returns what [fit(X)] followed by
      [transform(X)] on the fitted instance returns, leaves the same world
      behind and raises in the same cases; the target [y] plays no part. *)
Theorem C5_fit_transform_is_fit_then_transform (self : PreProcessor) (X : frame)
      (y y' : option column) (w : world) :
    fit_transform self X y w
    = match fit self X y' w with
      | (w1, OK self1) =>
          match transform self1 X w1 with
          | (w2, OK Y) => (w2, OK (self1, Y))
          | (w2, Raise e) => (w2, Raise e)
          end
      | (w1, Raise e) => (w1, Raise e)
      end.
  Proof.
    unfold fit_transform, bind. rewrite (fit_ignores_y self X None y').
    destruct (fit self X y' w) as [w1 [self1|e]]; [|reflexivity].
    now destruct (transform self1 X w1) as [w2 [Y|e]].
  Qed.
End FitTransform.

(** ** Step interpretation *)

Lemma interpret_transformation_supported (s : string) :
  In s supported_transformations -> exists f, interpret_transformation (VStr s) = OK f.
Proof.
  unfold supported_transformations. simpl.
  intros [<-|[<-|[<-|[<-|[<-|[<-|[<-|[]]]]]]]]; simpl; eauto.
Qed.

Lemma interpret_transformation_unsupported (v : pyobj) :
  (forall s, In s supported_transformations -> v <> VStr s) ->
  interpret_transformation v = Raise (ValueError "The value for 'transformation' is not supported.").
Proof.
  intros H. unfold interpret_transformation.
  assert (Hs : forall s, In s supported_transformations -> is_str v s = false).
  { intros s Hs. destruct v; simpl; try reflexivity.
    apply String.eqb_neq. intros ->. now apply (H s). }
  unfold supported_transformations in Hs. simpl in Hs.
  rewrite !Hs by tauto. reflexivity.
Qed.

(** C7. Constructing a [FeatureTransformer] raises a [ValueError] exactly
    when the given transformation is not one of the seven supported names;
    for each of the seven names the construction succeeds. *)
Theorem C7_FeatureTransformer_init_raises_iff_unsupported (transformation : pyobj) :
  ((exists e, FeatureTransformer_init transformation = Raise e)
   <-> ~ (exists s, In s supported_transformations /\ transformation = VStr s))
  /\ (forall e, FeatureTransformer_init transformation = Raise e ->
                exists msg, e = ValueError msg)
  /\ (forall s, In s supported_transformations ->
                exists f, FeatureTransformer_init (VStr s)
                          = OK (FeatureTransformer (VStr s) f)).
Proof.
  unfold FeatureTransformer_init. split; [split|split].
  - intros [e He] (s & Hs & ->).
    destruct (interpret_transformation_supported s Hs) as [f Hf].
    rewrite Hf in He. discriminate.
  - intros Hno. rewrite interpret_transformation_unsupported; [simpl; eauto|].
    intros s Hs ->. apply Hno. eauto.
  - intros e He.
    destruct (interpret_transformation transformation) as [f|e'] eqn:E; [discriminate|].
    simpl in He. injection He as <-. unfold interpret_transformation in E.
    repeat match type of E with
           | (if ?b then _ else _) = _ => destruct b; [discriminate|]
           end.
    injection E as <-. eauto.
  - intros s Hs. destruct (interpret_transformation_supported s Hs) as [f ->].
    simpl. eauto.
Qed.

(** C8. For a step key outside the six known kinds, step interpretation
    does not raise: it prints one line and returns the identity transform,
    whatever the value and the declared type. *)
Theorem C8_unknown_step_key_gives_identity `{L : Lib} (key : string) (value type_ : pyobj)
    (w : world) :
  ~ In key step_kinds ->
  interpret_process_step key value type_ w
  = (mk_world (heap w)
       (journal w ++ [Printed (String.append "[error] KeyError. "
                                 (String.append key " not found."))]),
     OK Identity).
Proof.
  intros Hkey. unfold interpret_process_step.
  assert (Hk : forall k, In k step_kinds -> (key =? k) = false).
  { intros k Hk. apply String.eqb_neq. intros ->. contradiction. }
  unfold step_kinds in Hk. simpl in Hk. rewrite !Hk by tauto. reflexivity.
Qed.

(** ** Clipping *)

Lemma map_num_spec (f : Q -> cell) (c c' : column) :
  map_num f c = OK c' ->
  Forall2 (fun x x' => match x with
                       | Num q => x' = f q
                       | NaN => x' = NaN
                       | Str _ => False
                       end) c c'.
Proof.
  unfold map_num. intros H%rmap_Forall2.
  eapply Forall2_impl; [|exact H]. intros [q|s|] x'; simpl; congruence.
Qed.

Lemma map_num_total (f : Q -> cell) (c : column) :
  is_numeric c = true -> exists c', map_num f c = OK c'.
Proof.
  unfold is_numeric, map_num. rewrite forallb_forall. intros H.
  apply rmap_total. intros [q|s|] Hx; eauto. now apply H in Hx.
Qed.

Lemma clip_cell_spec (lo hi q : Q) :
  (lo <= hi)%Q -> clipped lo hi (Num q) (clip_cell (Some lo) (Some hi) q).
Proof.
  intros Hle. unfold clip_cell, clipped.
  destruct (Qle_bool lo q) eqn:E1; [destruct (Qle_bool q hi) eqn:E2|].
  - apply Qle_bool_iff in E1, E2. exists q. repeat split; auto; intros; lra.
  - apply Qle_bool_iff in E1. apply not_true_iff_false in E2. rewrite Qle_bool_iff in E2.
    exists hi. repeat split; auto; try lra; intros; exfalso; lra.
  - apply not_true_iff_false in E1. rewrite Qle_bool_iff in E1.
    exists lo. repeat split; auto; try lra; intros; exfalso; lra.
Qed.

Lemma pd_clip_spec (X X' : frame) (lo hi : Q) :
  (lo <= hi)%Q -> pd_clip X (Some lo) (Some hi) = OK X' ->
  columns X' = columns X /\ Forall2 (Forall2 (clipped lo hi)) (values X) (values X').
Proof.
  intros Hle. unfold pd_clip.
  replace (Qle_bool lo hi) with true by (symmetry; now apply Qle_bool_iff).
  intros H%rmap_Forall2. unfold columns, values.
  induction H as [|[n c] [n' c'] X X' Hc _ IH]; simpl; [split; constructor|].
  simpl in Hc. rinv Hc. injection Hc as <- <-. destruct IH as [IH1 IH2].
  split; [now f_equal|]. constructor; [|exact IH2].
  apply map_num_spec in E. eapply Forall2_impl; [|exact E].
  intros [q|s|] x'; simpl; auto. intros ->. now apply clip_cell_spec.
Qed.

Lemma pd_clip_total (X : frame) (lo hi : Q) :
  forallb is_numeric (values X) = true -> exists X', pd_clip X (Some lo) (Some hi) = OK X'.
Proof.
  unfold pd_clip. rewrite forallb_forall. intros Hnum.
  destruct (Qle_bool lo hi); apply rmap_total; intros [n c] Hc;
    (destruct (map_num_total (clip_cell (Some lo) (Some hi)) c) as [c1 Hc1];
     [apply Hnum; unfold values; now apply (in_map snd) in Hc|]);
    (destruct (map_num_total (clip_cell (Some hi) (Some lo)) c) as [c2 Hc2];
     [apply Hnum; unfold values; now apply (in_map snd) in Hc|]);
    simpl; rewrite ?Hc1, ?Hc2; simpl; eauto.
Qed.

(** C6 (as stated) fails on a missing entry: clipping the one-entry column
    holding a missing entry to [[0, 10]] succeeds and returns the missing
    entry, which is no number of the interval. *)
Lemma C6_counterexample_missing_entry :
  transform_one (FeatureClipper (VList [VInt 0; VInt 10])) [("a", [NaN])] (world_of [])
  = (world_of [], OK [("a", [NaN])])
  /\ ~ in_range 0 10 NaN.
Proof.
  split; [reflexivity|]. intros (q & Hq & _). discriminate.
Qed.

(** C6 (amended). For bounds low <= high, a successful clipping transform
    keeps the columns and their names, maps every number to a number of
    [[low, high]] (itself when it is inside, the nearest bound when it is
    outside) and leaves every missing entry missing; it succeeds on every
    table without strings. *)
Theorem C6_clipper_clips_present_values `{L : Lib} (vlo vhi : pyobj) (lo hi : Q)
    (X : frame) (w : world) :
  bound vlo = OK (Some lo) -> bound vhi = OK (Some hi) -> (lo <= hi)%Q ->
  (forallb is_numeric (values X) = true ->
   exists X', transform_one (FeatureClipper (VList [vlo; vhi])) X w = (w, OK X'))
  /\ (forall w' X',
        transform_one (FeatureClipper (VList [vlo; vhi])) X w = (w', OK X') ->
        columns X' = columns X
        /\ Forall2 (Forall2 (clipped lo hi)) (values X) (values X')).
Proof.
  intros Hlo Hhi Hle. simpl. rewrite Hlo, Hhi. simpl. split.
  - intros Hnum. destruct (pd_clip_total X lo hi Hnum) as [X' ->]. simpl. eauto.
  - intros w' X' H. destruct (pd_clip X (Some lo) (Some hi)) as [X1|e] eqn:E.
    + simpl in H. injection H as _ <-. now apply pd_clip_spec.
    + simpl in H. unfold bind, emit, raise in H. simpl in H. discriminate.
Qed.

Lemma C6_clipper_witness :
  exists X', transform_one (FeatureClipper (VList [VInt 0; VFloat (21 # 2)]))
               sample_table (world_of [])
             = (world_of [], OK X').
Proof.
  apply (C6_clipper_clips_present_values (VInt 0) (VFloat (21 # 2)) 0 (21 # 2)
           sample_table (world_of [])); [reflexivity|reflexivity|lra|reflexivity].
Defined.

Lemma C3_witness :
  exists w1 self1 plan,
    interpret_config (PreProcessor_init (refs_of sample_config)) (world_of sample_config)
    = (w1, OK self1)
    /\ create_action_plan self1 w1 = (w1, OK plan)
    /\ stages plan = [0; 1]
    /\ map feature_order (stage 1 plan) = [0; 1].
Proof.
  destruct (C3_action_plan_is_full_grid
              (PreProcessor_init (refs_of sample_config)) (world_of sample_config)
              sample_config ["area"; "rooms"])
    as (w1 & self1 & plan & H1 & H2 & H3 & _ & H5 & _).
  - repeat constructor.
  - reflexivity.
  - repeat constructor; eexists; reflexivity.
  - repeat constructor; simpl; intuition discriminate.
  - exists w1, self1, plan. split; [exact H1|]. split; [exact H2|]. split; [exact H3|].
    apply (H5 1). vm_compute. lia.
Defined.

(** ** Casting the output columns *)

Lemma round_half_even_nearest (q : Q) :
  (Qabs (q - inject_Z (round_half_even q)) <= 1 # 2)%Q.
Proof.
  unfold round_half_even.
  pose proof (Qfloor_le q) as Hlo. pose proof (Qlt_floor q) as Hhi.
  rewrite inject_Z_plus in Hhi. change (inject_Z 1) with 1%Q in Hhi.
  apply Qabs_Qle_condition.
  destruct (q - inject_Z (Qfloor q) ?= 1 # 2)%Q eqn:E.
  - apply Qeq_alt in E. destruct (Z.even (Qfloor q));
      rewrite ?inject_Z_plus; change (inject_Z 1) with 1%Q; lra.
  - apply Qlt_alt in E. lra.
  - apply Qgt_alt in E. rewrite inject_Z_plus. change (inject_Z 1) with 1%Q. lra.
Qed.

Lemma round0_spec (c c' : column) : round0 c = OK c' -> Forall2 rounded c c'.
Proof.
  intros H%map_num_spec. eapply Forall2_impl; [|exact H].
  intros [q|s|] x'; simpl; auto. intros ->. split; [reflexivity|apply round_half_even_nearest].
Qed.

Lemma getcol_setcol_eq (X : frame) (c : string) (v : column) :
  getcol (setcol X c v) c = OK v.
Proof.
  induction X as [|[c0 v0] X IH]; simpl.
  - now rewrite String.eqb_refl.
  - destruct (String.eqb_spec c0 c) as [->|Hne]; simpl.
    + now rewrite String.eqb_refl.
    + destruct (String.eqb_spec c0 c); [congruence|exact IH].
Qed.

Lemma getcol_setcol_ne (X : frame) (c c' : string) (v : column) :
  c <> c' -> getcol (setcol X c v) c' = getcol X c'.
Proof.
  intros Hne. induction X as [|[c0 v0] X IH]; simpl.
  - destruct (String.eqb_spec c c'); [congruence|reflexivity].
  - destruct (String.eqb_spec c0 c) as [->|Hne0]; simpl.
    + destruct (String.eqb_spec c c'); [congruence|reflexivity].
    + now rewrite IH.
Qed.

Lemma columns_setcol (X : frame) (c : string) (v v' : column) :
  getcol X c = OK v' -> columns (setcol X c v) = columns X.
Proof.
  unfold columns. induction X as [|[c0 v0] X IH]; simpl; [discriminate|].
  destruct (String.eqb_spec c0 c) as [->|Hne]; simpl; [reflexivity|].
  intros H. now rewrite IH.
Qed.

Section Cast.
Context `{L : Lib}.

Lemma mfold_lift {A B} (f : A -> B -> M A) (g : A -> B -> result A)
      (l : list B) (acc : A) (w : world) :
    (forall a x w, f a x w = (w, g a x)) -> mfold f l acc w = (w, rfold g l acc).
  Proof.
    intros Hfg. revert acc; induction l as [|x l IH]; intros acc; simpl; [reflexivity|].
    rewrite (bind_run _ _ _ _ _ (Hfg acc x w)). destruct (g acc x); simpl; auto.
  Qed.

Lemma cast_columns_run (self : PreProcessor) (types : dict) (X : frame) (w : world) :
    feature_types self = Some types ->
    cast_columns self X w = (w, rfold (cast_step types) (keys types) X).
  Proof.
    intros Ht. unfold cast_columns. rewrite Ht. simpl. unfold bind at 1. simpl.
    apply mfold_lift. clear. intros X column w. unfold cast_step, cast_one, bind, lift, ret.
    destruct (getitem types column) as [[| | | |ty|]|e]; simpl; try reflexivity.
    destruct (getcol X column) as [c|e]; simpl; [|reflexivity].
    destruct (substring_in "int" (lower ty)).
    - destruct (round0 c) as [c1|e]; simpl; [|reflexivity].
      now destruct (astype ty c1).
    - now destruct (astype ty c).
  Qed.

Lemma cast_loop_spec (types : dict) (cols : list string) (X X' : frame) :
    NoDup cols -> rfold (cast_step types) cols X = OK X' ->
    columns X' = columns X
    /\ (forall col, In col cols ->
          exists ty c c', getitem types col = OK (VStr ty) /\ getcol X col = OK c
                          /\ cast_one ty c = OK c' /\ getcol X' col = OK c')
    /\ (forall col, ~ In col cols -> getcol X' col = getcol X col).
  Proof.
    revert X; induction cols as [|col0 cols IH]; intros X Hnd H; simpl in H.
    - injection H as <-. split; [reflexivity|]. split; [intros ? []|reflexivity].
    - inversion Hnd as [|? ? Hnotin Hnd']; subst.
      apply rbind_OK in H as (X1 & Hstep & H). unfold cast_step in Hstep.
      apply rbind_OK in Hstep as (t & Ht & Hstep).
      destruct t as [| | | |ty|]; try discriminate.
      apply rbind_OK in Hstep as (c0 & Hc0 & Hstep).
      apply rbind_OK in Hstep as (c0' & Hcast0 & Hstep). injection Hstep as <-.
      destruct (IH _ Hnd' H) as (Hcols & Hin & Hout).
      split; [|split].
      + rewrite Hcols. eapply columns_setcol; eauto.
      + intros col [<-|Hcol].
        * exists ty, c0, c0'. repeat split; auto.
          rewrite (Hout col0 Hnotin). apply getcol_setcol_eq.
        * destruct (Hin col Hcol) as (ty' & c & c' & Ht' & Hc & Hcast & Hc').
          exists ty', c, c'. repeat split; auto.
          rewrite getcol_setcol_ne in Hc; [exact Hc|]. intros ->. contradiction.
      + intros col Hcol. simpl in Hcol. rewrite Hout by tauto.
        apply getcol_setcol_ne. tauto.
  Qed.
End Cast.

Lemma keys_update_NoDup (d : dict) (k : string) (v : pyobj) :
  NoDup (keys d) -> NoDup (keys (update d k v)).
Proof.
  intros Hnd. rewrite keys_update. destruct (contains d k) eqn:E; [exact Hnd|].
  apply NoDup_app; [exact Hnd|repeat constructor; auto|].
  intros x Hx [<-|[]]. apply contains_In in Hx. congruence.
Qed.

Lemma keys_dict_of_NoDup (l : list (string * pyobj)) : NoDup (keys (dict_of l)).
Proof.
  unfold dict_of. assert (H : NoDup (keys [])) by constructor. revert H.
  generalize (@nil (string * pyobj)) as d.
  induction l as [|kv l IH]; simpl; intros d Hd; [exact Hd|].
  apply IH. now apply keys_update_NoDup.
Qed.

Lemma interpret_config_types (self self1 : PreProcessor) (w w1 : world) :
  interpret_config self w = (w1, OK self1) ->
  exists pairs, feature_types self1 = Some (dict_of pairs).
Proof.
  unfold interpret_config. intros H. minv H. injection H as _ <-. simpl. eauto.
Qed.

Section CastTheorem.
Context `{L : Lib}.

Lemma fit_types (self0 self : PreProcessor) (X0 : frame) (y : option column)
    (w0 w : world) :
  fit self0 X0 y w0 = (w, OK self) ->
  exists pairs, feature_types self = Some (dict_of pairs).
Proof.
  unfold fit. intros H. minv H. injection H as _ <-. simpl.
  eapply interpret_config_types; eauto.
Qed.

Lemma transform_pre_cast (self : PreProcessor) (X : frame) (w : world) :
  transform self X w = bind (pre_cast self X) (cast_columns self) w.
Proof.
  unfold transform, pre_cast, bind.
  destruct (get_active_features self w) as [w1 [features|e]]; [|reflexivity].
  destruct (lift (getcols X features) w1) as [w2 [Xf|e]]; [|reflexivity].
  reflexivity.
Qed.

Lemma truncate_integer (z : Z) : truncate (inject_Z z) = z.
Proof.
  unfold truncate. destruct (Qle_bool 0 (inject_Z z)); [apply Qfloor_Z|apply Qceiling_Z].
Qed.

Lemma to_int64_in_range (z : Z) :
  (int64_min <= z <= int64_max)%Z -> to_int64 (inject_Z z) = z.
Proof.
  intros [Hlo Hhi]. unfold to_int64. rewrite truncate_integer.
  apply Z.leb_le in Hlo, Hhi. now rewrite Hlo, Hhi.
Qed.

(** The 64-bit cast of a rounded column: it succeeds only when no entry is
    missing, and within the 64-bit range it returns the rounded values. *)
Lemma astype_int64_rounded (c r c' : column) :
  Forall2 rounded c r -> astype_int64 r = OK c' ->
  (forall x, In x c -> fits_int64 x) ->
  c' = r /\ Forall integer_entry c'.
Proof.
  unfold astype_int64. intros H. revert c'.
  induction H as [|x x' c r Hx _ IH]; simpl; intros c' Hcast Hfits.
  - injection Hcast as <-. split; [reflexivity|constructor].
  - apply rbind_OK in Hcast as (y & Hy & Hcast).
    apply rbind_OK in Hcast as (ys & Hys & Hcast). injection Hcast as <-.
    destruct (IH ys Hys) as [-> Hint]; [intros x0 Hx0; apply Hfits; now right|].
    specialize (Hfits x (or_introl eq_refl)).
    destruct x as [q|s|]; simpl in Hx, Hfits.
    + destruct Hx as [-> _]. injection Hy as <-.
      rewrite (to_int64_in_range _ Hfits). split; [reflexivity|].
      constructor; [now exists (round_half_even q)|exact Hint].
    + destruct Hx.
    + subst x'. discriminate.
Qed.

Lemma rounded_numeric (c r : column) : Forall2 rounded c r -> is_numeric r = true.
Proof.
  unfold is_numeric. induction 1 as [|x x' c r Hx _ IH]; simpl; [reflexivity|].
  rewrite IH. destruct x as [q|s|]; simpl in Hx.
  - now destruct Hx as [-> _].
  - destruct Hx.
  - now subst x'.
Qed.

(** C9 (amended). After [fit], a successful [transform] returns the
    pipeline output with every declared column cast: a column whose declared
    type contains "int" (in any letter case) is first rounded, every number
    to the nearest integer (ties to the even one), and then cast; when the
    cast is the 64-bit integer cast and the rounded values fit 64 bits,
    every entry of the output column is an integer, equal to the rounded
    pipeline value at the same position. A column of any other declared
    type is cast as it is. *)
Theorem C9_cast_rounds_integer_columns (self0 self : PreProcessor) (X0 X X' : frame)
    (y : option column) (w0 w wa wb : world) :
  fit self0 X0 y w0 = (w, OK self) ->
  transform self X wa = (wb, OK X') ->
  exists Xp types,
    pre_cast self X wa = (wb, OK Xp)
    /\ feature_types self = Some types
    /\ columns X' = columns Xp
    /\ forall column ty, getitem types column = OK (VStr ty) ->
         exists c c', getcol Xp column = OK c /\ getcol X' column = OK c'
           /\ if substring_in "int" (lower ty)
              then exists r, Forall2 rounded c r /\ astype ty r = OK c'
                             /\ (casts_to_int64 ty ->
                                 (forall x, In x c -> fits_int64 x) ->
                                 Forall2 rounded c c' /\ Forall integer_entry c')
              else astype ty c = OK c'.
Proof.
  intros Hfit Htr. destruct (fit_types _ _ _ _ _ _ Hfit) as [pairs Htypes].
  rewrite transform_pre_cast in Htr. apply bind_OK in Htr as (w1 & Xp & Hpre & Hcast).
  rewrite (cast_columns_run _ _ _ _ Htypes) in Hcast. injection Hcast as -> Hloop.
  exists Xp, (dict_of pairs). split; [exact Hpre|]. split; [exact Htypes|].
  destruct (cast_loop_spec _ _ _ _ (keys_dict_of_NoDup pairs) Hloop) as (Hcols & Hin & _).
  split; [exact Hcols|]. intros column ty Hty.
  assert (Hcol : In column (keys (dict_of pairs))).
  { clear -Hty. induction (dict_of pairs) as [|[k v] d IH]; simpl in *; [discriminate|].
    destruct (String.eqb_spec k column); [now left|right; auto]. }
  destruct (Hin column Hcol) as (ty' & c & c' & Hty' & Hc & Hone & Hc').
  rewrite Hty in Hty'. injection Hty' as <-.
  exists c, c'. split; [exact Hc|]. split; [exact Hc'|].
  unfold cast_one in Hone. destruct (substring_in "int" (lower ty)) eqn:Hint; [|exact Hone].
  apply rbind_OK in Hone as (r & Hr & Hast). exists r.
  pose proof (round0_spec _ _ Hr) as Hrounded.
  split; [exact Hrounded|]. split; [exact Hast|].
  intros Hcast Hfits.
  rewrite (Hcast r (rounded_numeric _ _ Hrounded)) in Hast.
  destruct (astype_int64_rounded c r c' Hrounded Hast Hfits) as [-> Hints].
  split; [exact Hrounded|exact Hints].
Qed.
End CastTheorem.

(** ** Imputation steps *)

(** C1 fails on the code: whatever strategy an "imputation_strategy" step
    names, step interpretation builds the imputer with the strategy
    "constant"; for "mean" and "median" it has no fill value, so a numeric
    column is filled with 0. On the column 1, missing, 3, whose mean and
    median are 2, the missing entry becomes 0. *)
Theorem C1_mean_step_fills_with_zero `{L : Lib} (type_ : pyobj) (w : world) :
  interpret_process_step "imputation_strategy" (VStr "mean") type_ w
  = (w, OK (FeatureImputer "constant" VNone None))
  /\ interpret_process_step "imputation_strategy" (VStr "median") type_ w
     = (w, OK (FeatureImputer "constant" VNone None))
  /\ snd (fit_transform_one (FeatureImputer "constant" VNone None)
            [("a", [Num 1; NaN; Num 3])] w)
     = OK (FeatureImputer "constant" VNone (Some (SimpleImputer si_constant VNone (Some [Num 0]))),
           [("a", [Num 1; Num 0; Num 3])])
  /\ mean [Num 1; NaN; Num 3] = Num 2
  /\ median [Num 1; NaN; Num 3] = Num 2.
Proof. repeat split; reflexivity. Qed.

(** ** Inactive features *)

(** C2 fails on the code. With one active and one inactive feature and no
    declared step, [fit] succeeds and [transform] then raises [KeyError] for
    the inactive feature, whose column [__cast_columns] looks up in the
    output; with a declared step, [fit] itself raises, because the column
    position of the last feature lies outside the table restricted to the
    active features. *)
Theorem C2_inactive_feature_breaks_transform :
  (exists w1 self1,
     fit (PreProcessor_init (refs_of inactive_config)) inactive_table None
         (world_of inactive_config) = (w1, OK self1)
     /\ snd (transform self1 inactive_table w1) = Raise (KeyError "b"))
  /\ snd (fit (PreProcessor_init (refs_of inactive_config_weighted)) inactive_table None
              (world_of inactive_config_weighted))
     = Raise (ValueError "all features must be in [0, n_columns - 1]").
Proof.
  split.
  - eexists _, _. split; [vm_compute; reflexivity|]. vm_compute. reflexivity.
  - vm_compute. reflexivity.
Qed.

(** X11. Whatever an "imputation_strategy" step declares, the imputer that step
    interpretation builds has the strategy "constant". *)
Lemma imputation_step_is_constant `{L : Lib} (value type_ : pyobj) (w w' : world)
    (t : transformer) :
  interpret_process_step "imputation_strategy" value type_ w = (w', OK t) ->
  exists param, t = FeatureImputer "constant" param None.
Proof.
  unfold interpret_process_step. simpl. destruct (split ":" (str value)) as [|strategy param].
  - discriminate.
  - intros H. apply bind_OK in H as (w1 & p & _ & H). injection H as _ <-.
    unfold FeatureImputer_init. eauto.
Qed.

Lemma getitem_keys (d : dict) (k : string) (v : pyobj) :
  getitem d k = OK v -> In k (keys d).
Proof.
  induction d as [|[k0 v0] d IH]; simpl; [discriminate|].
  destruct (String.eqb_spec k0 k); [now left|right; auto].
Qed.

Lemma getitem_NoDup (d : dict) (k : string) (v v' : pyobj) :
  NoDup (keys d) -> getitem d k = OK v -> In (k, v') d -> v' = v.
Proof.
  induction d as [|[k0 v0] d IH]; simpl; [tauto|]. intros Hnd Hget Hin.
  inversion Hnd as [|? ? Hnotin Hnd']; subst.
  destruct (String.eqb_spec k0 k) as [->|Hne].
  - injection Hget as <-. destruct Hin as [[= ->]|Hin]; [reflexivity|].
    exfalso. apply Hnotin. now apply (in_map fst) in Hin.
  - destruct Hin as [[= -> _]|Hin]; [congruence|auto].
Qed.

Lemma keys_dict_of_fst (l1 l2 : list (string * pyobj)) :
  map fst l1 = map fst l2 -> keys (dict_of l1) = keys (dict_of l2).
Proof.
  unfold dict_of. assert (H : keys (@nil (string * pyobj)) = keys []) by reflexivity.
  revert H. generalize (@nil (string * pyobj)) at 1 3 as d1.
  generalize (@nil (string * pyobj)) as d2. revert l2.
  induction l1 as [|[k1 v1] l1 IH]; intros [|[k2 v2] l2] d2 d1 Hd Hl; simpl in *;
    try discriminate; [exact Hd|].
  injection Hl as -> Hl. apply IH; [|exact Hl].
  rewrite !keys_update. unfold contains. now rewrite Hd.
Qed.

Lemma getcol_columns (X : frame) (c : string) (v : column) :
  getcol X c = OK v -> In c (columns X).
Proof.
  unfold columns. induction X as [|[c0 v0] X IH]; simpl; [discriminate|].
  destruct (String.eqb_spec c0 c); [now left|right; auto].
Qed.

Lemma getcols_columns (X Xf : frame) (features : list string) :
  getcols X features = OK Xf -> columns Xf = features.
Proof.
  unfold getcols, columns. revert Xf; induction features as [|c features IH]; simpl;
    intros Xf H.
  - now injection H as <-.
  - rinv H. rinv E. injection E as <-. injection H as <-. simpl. f_equal. auto.
Qed.

Lemma rewrap_columns (names : list string) (a : ndarray) (X : frame) :
  rewrap names a = OK X -> columns X = names.
Proof.
  unfold rewrap, columns. destruct (Nat.eqb_spec (length names) (length a)) as [Hlen|];
    [|discriminate].
  intros [= <-]. revert a Hlen; induction names as [|n names IH]; intros [|c a] Hlen;
    simpl in *; try discriminate; [reflexivity|]. f_equal. apply IH. lia.
Qed.

Section Inactive.
Context `{L : Lib}.

(** The table handed to [__cast_columns] has the active features as its
    columns. *)
Lemma pre_cast_columns (self : PreProcessor) (X Xp : frame) (wa wb : world) (fa : dict) :
  feature_active self = Some fa ->
  pre_cast self X wa = (wb, OK Xp) ->
  columns Xp = map fst (List.filter (fun x : string * pyobj => truthy (snd x)) fa).
Proof.
  intros Hfa H. unfold pre_cast, get_active_features in H. rewrite Hfa in H. simpl in H.
  apply bind_OK in H as (w1 & features & Hf & H). apply bind_OK in Hf as (w0 & fa' & Hf0 & Hf).
  injection Hf0 as _ <-. injection Hf as _ <-.
  apply bind_OK in H as (w2 & Xf & HXf & H). unfold dataframe_transformer in H.
  apply bind_OK in H as (w3 & a & _ & H). injection H as _ H.
  apply rewrap_columns in H. rewrite H.
  unfold lift in HXf. injection HXf as _ HXf. now apply getcols_columns in HXf.
Qed.

(** X18. Once a configuration with an inactive feature has been fitted,
    [transform] raises on every table: [__cast_columns] asks the output for
    the column of every declared feature, and the output only has the
    columns of the active ones. *)
Lemma transform_raises_with_inactive_feature (self0 self : PreProcessor)
    (X0 X : frame) (y : option column) (w0 w wa : world) (cfgs : list dict)
    (fa : dict) (name : string) (a : pyobj) :
  holds w0 (features_config self0) cfgs ->
  fit self0 X0 y w0 = (w, OK self) ->
  feature_active self = Some fa -> getitem fa name = OK a -> truthy a = false ->
  exists e, snd (transform self X wa) = Raise e.
Proof.
  intros Hholds Hfit Hfa Hget Hfalse.
  destruct (transform self X wa) as [wb [X'|e]] eqn:Htr; [exfalso|simpl; eauto].
  (* the attributes that fit stored *)
  unfold fit in Hfit. apply bind_OK in Hfit as (w1 & self1 & Hic & Hfit).
  minv Hfit. injection Hfit as _ <-. simpl in Hfa.
  destruct (interpret_config_run self0 w0 cfgs Hholds) as (w1' & _ & _ & _ & _ & Hrun).
  rewrite Hrun in Hic. injection Hic as _ Hic.
  apply rbind_OK in Hic as (names & Hnames & Hic).
  apply rbind_OK in Hic as (actives & Hact & Hic).
  apply rbind_OK in Hic as (types & Htyp & Hic). injection Hic as <-. simpl in *.
  injection Hfa as <-.
  (* the cast loop visits the inactive feature *)
  rewrite transform_pre_cast in Htr. apply bind_OK in Htr as (wp & Xp & Hpre & Hcast).
  erewrite cast_columns_run in Hcast by reflexivity. injection Hcast as _ Hloop.
  destruct (cast_loop_spec _ _ _ _ (keys_dict_of_NoDup types) Hloop) as (_ & Hin & _).
  assert (Hkey : In name (keys (dict_of types))).
  { rewrite (keys_dict_of_fst types actives).
    - eapply getitem_keys; eauto.
    - rewrite (name_and_fst _ _ _ _ Hnames Htyp). symmetry.
      apply (name_and_fst _ _ _ _ Hnames Hact). }
  destruct (Hin name Hkey) as (ty & c & c' & _ & Hc & _).
  apply getcol_columns in Hc.
  eapply pre_cast_columns in Hpre; [|reflexivity]. rewrite Hpre in Hc.
  apply in_map_iff in Hc as ([n a'] & Hn & Hc). simpl in Hn. subst n.
  apply filter_In in Hc as [Hc Htrue]. simpl in Htrue.
  rewrite (getitem_NoDup _ _ _ _ (keys_dict_of_NoDup actives) Hget Hc) in Htrue.
  congruence.
Qed.
End Inactive.

(** ** The statements above, on the sample configuration *)

Lemma C4_witness :
  exists w1 self1 plan,
    interpret_config (PreProcessor_init (refs_of sample_config)) (world_of sample_config)
    = (w1, OK self1)
    /\ create_action_plan self1 w1 = (w1, OK plan)
    /\ StronglySorted row_le plan.
Proof.
  destruct (C4_action_plan_sorted
              (PreProcessor_init (refs_of sample_config)) (world_of sample_config)
              sample_config ["area"; "rooms"])
    as (w1 & self1 & plan & H1 & H2 & H3 & _).
  - repeat constructor.
  - reflexivity.
  - repeat constructor; eexists; reflexivity.
  - exists w1, self1, plan. auto.
Defined.

Lemma C8_witness :
  snd (interpret_process_step "polynomial_degree" (VInt 2) (VStr "float") (world_of []))
  = OK Identity.
Proof.
  rewrite (C8_unknown_step_key_gives_identity "polynomial_degree" (VInt 2) (VStr "float")
             (world_of [])); [reflexivity|].
  unfold step_kinds. simpl. intuition discriminate.
Defined.

Lemma C10_witness :
  holds (fst (fit (PreProcessor_init (refs_of sample_config)) sample_table None
                  (world_of sample_config)))
        (refs_of sample_config)
        (map (fun config => if contains config "active" then config
                            else config ++ [("active", VBool true)]) sample_config).
Proof.
  apply (C10_fit_inserts_default_active
           (PreProcessor_init (refs_of sample_config)) sample_table None
           (world_of sample_config) sample_config).
  repeat constructor.
Defined.

Lemma C9_witness :
  exists wb Xp X' c c',
    pre_cast sample_fitted sample_table (world_of sample_config) = (wb, OK Xp)
    /\ transform sample_fitted sample_table (world_of sample_config) = (wb, OK X')
    /\ getcol Xp "rooms" = OK c /\ getcol X' "rooms" = OK c'
    /\ Forall2 rounded c c' /\ Forall integer_entry c'.
Proof.
  edestruct (C9_cast_rounds_integer_columns
               (PreProcessor_init (refs_of sample_config)) sample_fitted
               sample_table sample_table)
    with (y := @None column) (w0 := world_of sample_config)
         (wa := world_of sample_config) as (Xp & types & H1 & H2 & _ & H4).
  - vm_compute. reflexivity.
  - vm_compute. reflexivity.
  - vm_compute in H2. injection H2 as <-.
    destruct (H4 "rooms" "int" eq_refl) as (c & c' & Hc & Hc' & r & _ & _ & Hexact).
    eexists _, Xp, _, c, c'. split; [exact H1|]. split; [vm_compute; reflexivity|].
    split; [exact Hc|]. split; [exact Hc'|].
    apply Hexact.
    + intros c0 _. reflexivity.
    + vm_compute in H1. injection H1 as <-. vm_compute in Hc. injection Hc as <-.
      intros x [<-|[<-|[<-|[<-|[]]]]]; vm_compute; split; discriminate.
Defined.

(** C9 (as stated) fails beyond the 64-bit range: with one feature of
    declared type "int64" and the pipeline value 10^30, whose rounded value
    is 10^30, [transform] returns the smallest 64-bit integer. *)
Lemma C9_counterexample_overflow :
  exists w1 self1 wb,
    fit (PreProcessor_init (refs_of big_config)) big_table None (world_of big_config)
    = (w1, OK self1)
    /\ pre_cast self1 big_table w1 = (wb, OK big_table)
    /\ transform self1 big_table w1 = (wb, OK [("n", [Num (inject_Z int64_min)])])
    /\ round_half_even (inject_Z (10 ^ 30)) = (10 ^ 30)%Z
    /\ int64_min <> (10 ^ 30)%Z.
Proof.
  eexists _, _, _. split; [vm_compute; reflexivity|]. split; [vm_compute; reflexivity|].
  split; [vm_compute; reflexivity|]. split; [vm_compute; reflexivity|]. discriminate.
Qed.

(* ===================================================================== *)
(** * Further properties of the module                                    *)
(* ===================================================================== *)

(** ** Elementary transforms *)

Lemma rmap_id {A} (l : list A) : rmap OK l = OK l.
Proof. induction l as [|x l IH]; simpl; [|rewrite IH]; reflexivity. Qed.

Lemma rmap_ext {A B} (f g : A -> result B) (l : list A) :
  (forall x, In x l -> f x = g x) -> rmap f l = rmap g l.
Proof.
  induction l as [|x l IH]; simpl; intros H; [reflexivity|].
  rewrite H by now left. rewrite IH; [reflexivity|]. intros; apply H; now right.
Qed.

Lemma rewrap_values (X : frame) : rewrap (columns X) (values X) = OK X.
Proof.
  unfold rewrap, columns, values. rewrite !length_map, Nat.eqb_refl. f_equal.
  induction X as [|[c v] X IH]; simpl; [|rewrite IH]; reflexivity.
Qed.

Lemma apply_identity `{L : Lib} (X : frame) : apply lambda_identity X = OK X.
Proof.
  unfold apply. rewrite (rmap_ext _ OK); [apply rmap_id|]. now intros [c v] _.
Qed.

(** X10. The row that [__create_action_plan] synthesizes for a missing
    (stage, feature) pair is interpreted into a transform that changes
    nothing: fitting it and applying it returns the table it was given, for
    every table (strings and missing entries included), and leaves the world
    as it was. *)
Theorem identity_step_changes_nothing `{L : Lib} (type_ : pyobj) (X : frame) (w : world) :
  exists t, interpret_process_step "transformation" (VStr "identity") type_ w = (w, OK t)
            /\ fit_transform_one t X w = (w, OK (t, X)).
Proof.
  eexists. split; [reflexivity|].
  unfold fit_transform_one, bind. simpl. rewrite apply_identity. reflexivity.
Qed.

Lemma rmap_raise {A B} (f : A -> result B) (l : list A) (e : exn) :
  (forall x, In x l -> (exists y, f x = OK y) \/ f x = Raise e) ->
  (exists x, In x l /\ f x = Raise e) ->
  rmap f l = Raise e.
Proof.
  induction l as [|x l IH]; simpl; intros Hall (x0 & Hx0 & He); [destruct Hx0|].
  destruct (Hall x (or_introl eq_refl)) as [[y Hy]|Hr].
  - rewrite Hy. simpl. destruct Hx0 as [->|Hx0]; [congruence|].
    rewrite IH; [reflexivity| |eauto]. intros; apply Hall; now right.
  - now rewrite Hr.
Qed.

Lemma map_num_string (f : Q -> cell) (c : column) :
  is_numeric c = false ->
  map_num f c = Raise (TypeError "unsupported operand type: str").
Proof.
  intros H. unfold map_num. apply rmap_raise.
  - intros [q|s|] _; eauto.
  - unfold is_numeric in H. apply not_true_iff_false in H.
    rewrite forallb_forall in H.
    destruct (existsb (fun x => match x with Str _ => true | _ => false end) c) eqn:E.
    + apply existsb_exists in E as ([q|s|] & Hx & Hs); try discriminate. eauto.
    + exfalso. apply H. intros [q|s|] Hx; try reflexivity.
      apply not_true_iff_false in E. exfalso. apply E. apply existsb_exists. eauto.
Qed.

Lemma map_num_result (f : Q -> cell) (c : column) :
  (exists c', map_num f c = OK c')
  \/ map_num f c = Raise (TypeError "unsupported operand type: str").
Proof.
  destruct (is_numeric c) eqn:E; [left; now apply map_num_total|right; now apply map_num_string].
Qed.

(** X1. A [FeatureTransformer] holding one of the numpy functions, applied to a
    table in which some column holds a string, raises the [TypeError] of the
    failed operation after writing it to the error log, and does nothing
    else: the caller's dictionaries are untouched and nothing is printed. *)
Theorem FeatureTransformer_logs_and_reraises `{L : Lib} (transformation : pyobj) (f : ufunc)
    (X : frame) (w : world) :
  f <> lambda_identity ->
  forallb is_numeric (values X) = false ->
  exists msg,
    transform_one (FeatureTransformer transformation f) X w
    = (mk_world (heap w) (journal w ++ [LoggedError (TypeError msg)]),
       Raise (TypeError msg)).
Proof.
  intros Hf Hstr. exists "unsupported operand type: str". simpl.
  assert (Happly : apply f X = Raise (TypeError "unsupported operand type: str")).
  { unfold apply. apply rmap_raise.
    - intros [n c] _. simpl.
      assert (Hc : (exists c', call_ufunc f c = OK c')
                   \/ call_ufunc f c = Raise (TypeError "unsupported operand type: str"))
        by (destruct f; simpl; try apply map_num_result; congruence).
      destruct Hc as [[c' ->]| ->]; simpl; eauto.
    - apply not_true_iff_false in Hstr. rewrite forallb_forall in Hstr.
      destruct (existsb (fun c => negb (is_numeric c)) (values X)) eqn:E.
      + apply existsb_exists in E as (c & Hc & Hneg). apply negb_true_iff in Hneg.
        unfold values in Hc. apply in_map_iff in Hc as ([n c0] & <- & Hin).
        exists (n, c0). split; [exact Hin|]. simpl in *.
        replace (call_ufunc f c0) with (Raise (A := column) (TypeError "unsupported operand type: str"));
          [reflexivity|].
        symmetry. destruct f; simpl; try (now apply map_num_string); congruence.
      + exfalso. apply Hstr. intros c Hc. destruct (is_numeric c) eqn:Ec; [reflexivity|].
        apply not_true_iff_false in E. exfalso. apply E. apply existsb_exists.
        exists c. rewrite Ec. auto. }
  rewrite Happly. reflexivity.
Qed.

Lemma FeatureTransformer_logs_witness :
  exists msg,
    transform_one (FeatureTransformer (VStr "square") np_square)
                  [("a", [Num 1; Str "x"])] (world_of [])
    = (mk_world (heap (world_of [])) [LoggedError (TypeError msg)], Raise (TypeError msg)).
Proof.
  apply (FeatureTransformer_logs_and_reraises (VStr "square") np_square
           [("a", [Num 1; Str "x"])] (world_of [])); [discriminate|reflexivity].
Defined.

(** ** Imputation *)

Lemma mean_present (c : column) : present c <> [] -> mean c <> NaN.
Proof. unfold mean. destruct (present c); [congruence|discriminate]. Qed.

Lemma Qinsert_length (q : Q) (l : list Q) : length (Qinsert q l) = S (length l).
Proof.
  induction l as [|q' l IH]; simpl; [reflexivity|].
  destruct (Qle_bool q q'); simpl; [reflexivity|now rewrite IH].
Qed.

Lemma Qsort_length (l : list Q) : length (Qsort l) = length l.
Proof.
  unfold Qsort. induction l as [|q l IH]; simpl; [reflexivity|].
  now rewrite Qinsert_length, IH.
Qed.

Lemma median_present (c : column) : present c <> [] -> median c <> NaN.
Proof.
  unfold median. intros H. rewrite Qsort_length.
  destruct (present c) as [|q l]; [congruence|]. simpl length.
  cbv zeta. destruct (Nat.even (S (length l))); discriminate.
Qed.

Lemma impute_statistics (s : imputer_strategy) (stat : column -> cell) (X Y : frame) :
  (forall c, In c (values X) -> stat c <> NaN) ->
  length Y = length X ->
  rewrap (columns Y) (impute s (map stat (values X)) (values Y))
  = OK (imputed_with stat X Y).
Proof.
  intros Hstat Hlen.
  assert (H : impute s (map stat (values X)) (values Y) = values (imputed_with stat X Y)
              /\ columns (imputed_with stat X Y) = columns Y).
  { unfold imputed_with, values, columns in *.
    revert Y Hlen; induction X as [|[n c] X IH]; intros [|[n' c'] Y] Hlen; simpl in *;
      try discriminate; [split; reflexivity|].
    destruct (IH (fun c0 H0 => Hstat c0 (or_intror H0)) Y) as [IH1 IH2]; [lia|].
    split; [|now f_equal].
    assert (Hc : stat c <> NaN) by (apply Hstat; now left).
    destruct s, (stat c); try congruence; now rewrite IH1. }
  destruct H as [-> <-]. apply rewrap_values.
Qed.

Lemma validate_input_numeric (st : imputer_strategy) (X : frame) :
  forallb is_numeric (values X) = true -> n_samples X <> 0 ->
  validate_input st X = OK tt.
Proof.
  intros Hnum Hrows. unfold validate_input. rewrite Hnum.
  apply Nat.eqb_neq in Hrows. rewrite Hrows. now destruct st.
Qed.

Lemma SimpleImputer_fit_numeric (st : imputer_strategy) (fill : pyobj) (X : frame) :
  forallb is_numeric (values X) = true -> n_samples X <> 0 ->
  SimpleImputer_fit st fill X
  = match st with
    | si_mean => OK (map mean (values X))
    | si_median => OK (map median (values X))
    | si_constant => c <- fill_cell fill true ;; OK (map (fun _ => c) (values X))
    end.
Proof.
  intros Hnum Hrows. unfold SimpleImputer_fit.
  rewrite (validate_input_numeric st X Hnum Hrows), Hnum. reflexivity.
Qed.

Lemma FeatureImputer_fit_run `{L : Lib} (strategy : string) (parameter : pyobj)
    (st : imputer_strategy) (fill : pyobj) (stats : list cell) (X : frame) (w : world) :
  interpret_imputation strategy parameter = SimpleImputer st fill None ->
  SimpleImputer_fit st fill X = OK stats ->
  fit_one (FeatureImputer_init strategy parameter) X w
  = (w, OK (FeatureImputer strategy parameter (Some (SimpleImputer st fill (Some stats))))).
Proof.
  intros Hi Hfit. unfold FeatureImputer_init, fit_one, imputer_fit, bind, lift, ret.
  rewrite Hi, Hfit. reflexivity.
Qed.

Lemma SimpleImputer_transform_run `{L : Lib} (strategy : string) (parameter fill : pyobj)
    (st : imputer_strategy) (stats : list cell) (Y : frame) (w : world) :
  validate_input st Y = OK tt ->
  length stats = length Y ->
  transform_one (FeatureImputer strategy parameter (Some (SimpleImputer st fill (Some stats))))
                Y w
  = (w, rewrap (columns Y) (impute st stats (values Y))).
Proof.
  intros Hval Hlen. simpl.
  unfold dataframe_transformer, imputer_transform, bind, lift, SimpleImputer_transform.
  rewrite Hval. simpl. now rewrite Hlen, Nat.eqb_refl.
Qed.

(** X2. A [FeatureImputer] built with the strategy "mean" (or "median") and
    fitted on a numeric table whose columns each hold a number fills, at
    transform time, every missing entry of a numeric table with as many
    columns and at least one row with the mean (or median) of the fit-time
    column at the same position, and changes no other entry and no column
    name. *)
Theorem FeatureImputer_fills_with_fit_statistic `{L : Lib} (parameter : pyobj)
    (X Y : frame) (w : world) :
  forallb is_numeric (values X) = true -> no_empty_column X -> n_samples X <> 0 ->
  forallb is_numeric (values Y) = true -> n_samples Y <> 0 ->
  length Y = length X ->
  (exists t, fit_one (FeatureImputer_init "mean" parameter) X w = (w, OK t)
             /\ transform_one t Y w = (w, OK (imputed_with mean X Y)))
  /\ (exists t, fit_one (FeatureImputer_init "median" parameter) X w = (w, OK t)
                /\ transform_one t Y w = (w, OK (imputed_with median X Y))).
Proof.
  intros Hnum Hne Hrows HnumY HrowsY Hlen. split.
  - eexists. split.
    + apply (FeatureImputer_fit_run "mean" parameter si_mean VNone); [reflexivity|].
      now rewrite SimpleImputer_fit_numeric.
    + rewrite SimpleImputer_transform_run;
        [|now apply validate_input_numeric
         |rewrite length_map; unfold values; rewrite length_map; congruence].
      rewrite impute_statistics; auto. intros c Hc. apply mean_present. now apply Hne.
  - eexists. split.
    + apply (FeatureImputer_fit_run "median" parameter si_median VNone); [reflexivity|].
      now rewrite SimpleImputer_fit_numeric.
    + rewrite SimpleImputer_transform_run;
        [|now apply validate_input_numeric
         |rewrite length_map; unfold values; rewrite length_map; congruence].
      rewrite impute_statistics; auto. intros c Hc. apply median_present. now apply Hne.
Qed.

Lemma FeatureImputer_fills_witness :
  exists t, fit_one (FeatureImputer_init "mean" VNone) [("a", [Num 1; NaN; Num 3])]
              (world_of [])
            = (world_of [], OK t)
            /\ transform_one t [("a", [NaN; Num 7])] (world_of [])
               = (world_of [], OK [("a", [Num 2; Num 7])]).
Proof.
  destruct (FeatureImputer_fills_with_fit_statistic VNone
              [("a", [Num 1; NaN; Num 3])] [("a", [NaN; Num 7])] (world_of []))
    as [H _].
  - reflexivity.
  - intros c [<-|[]]. discriminate.
  - discriminate.
  - reflexivity.
  - discriminate.
  - reflexivity.
  - exact H.
Defined.

(** X3. A [FeatureImputer] whose strategy is none of "mean", "median" and
    "constant" does not raise: it fits to the identity, and its
    [fit_transform] returns the table unchanged, missing entries
    included. *)
Theorem FeatureImputer_unknown_strategy_is_identity `{L : Lib} (strategy : string)
    (parameter : pyobj) (X : frame) (w : world) :
  strategy <> "mean" -> strategy <> "median" -> strategy <> "constant" ->
  fit_transform_one (FeatureImputer_init strategy parameter) X w
  = (w, OK (FeatureImputer strategy parameter (Some ImputerIdentity), X)).
Proof.
  intros H1 H2 H3. unfold fit_transform_one, FeatureImputer_init. simpl.
  unfold interpret_imputation.
  apply String.eqb_neq in H1, H2, H3. rewrite H1, H2, H3. simpl.
  unfold bind, lift, ret, dataframe_transformer, bind, lift. simpl.
  now rewrite rewrap_values.
Qed.

Lemma FeatureImputer_unknown_witness :
  snd (fit_transform_one (FeatureImputer_init "mode" VNone) [("a", [Num 1; NaN])]
         (world_of []))
  = OK (FeatureImputer "mode" VNone (Some ImputerIdentity), [("a", [Num 1; NaN])]).
Proof.
  rewrite (FeatureImputer_unknown_strategy_is_identity "mode" VNone
             [("a", [Num 1; NaN])] (world_of [])); [reflexivity|discriminate..].
Defined.

(** X4. A [FeatureScaler] whose strategy is none of "min_max", "standard" and
    "robust" (in particular [None], or a value that is no string) does not
    raise: it scales with the identity, and its [fit_transform] returns the
    table unchanged. *)
Theorem FeatureScaler_unknown_strategy_is_identity `{L : Lib} (strategy : pyobj)
    (X : frame) (w : world) :
  strategy <> VStr "min_max" -> strategy <> VStr "standard" ->
  strategy <> VStr "robust" ->
  fit_transform_one (FeatureScaler_init strategy) X w
  = (w, OK (FeatureScaler strategy ScalerIdentity, X)).
Proof.
  intros H1 H2 H3. unfold FeatureScaler_init.
  assert (Hs : interpret_scaler strategy = ScalerIdentity).
  { unfold interpret_scaler.
    assert (His : forall s, strategy <> VStr s -> is_str strategy s = false).
    { intros s Hs. destruct strategy; simpl; try reflexivity.
      apply String.eqb_neq. congruence. }
    rewrite !His by assumption. now destruct strategy. }
  rewrite Hs. unfold fit_transform_one. simpl.
  unfold bind, lift, ret, dataframe_transformer, bind, lift. simpl.
  now rewrite rewrap_values.
Qed.

Lemma FeatureScaler_unknown_witness :
  snd (fit_transform_one (FeatureScaler_init VNone) [("a", [Num 1; NaN])] (world_of []))
  = OK (FeatureScaler VNone ScalerIdentity, [("a", [Num 1; NaN])]).
Proof.
  rewrite (FeatureScaler_unknown_strategy_is_identity VNone
             [("a", [Num 1; NaN])] (world_of [])); [reflexivity|discriminate..].
Defined.

(** X12. An "imputation_strategy" step declared as "constant:p" on a feature
    whose declared type is not one of "string", "str", "object" builds an
    imputer that fills with the number [float(p)]: fitted on a numeric
    table with at least one row and one column, it replaces every missing
    entry by that number and changes nothing else. *)
Theorem constant_imputation_step_fills_with_parameter `{L : Lib} (value type_ : pyobj)
    (p : string) (rest : list string) (q : Q) (X : frame) (w : world) :
  split ":" (str value) = "constant" :: p :: rest ->
  type_ <> VStr "string" -> type_ <> VStr "str" -> type_ <> VStr "object" ->
  py_float p = OK q ->
  forallb is_numeric (values X) = true -> n_samples X <> 0 ->
  exists t t',
    interpret_process_step "imputation_strategy" value type_ w = (w, OK t)
    /\ fit_transform_one t X w
       = (w, OK (t', map (fun nc : string * column => (fst nc, fillna (Num q) (snd nc))) X)).
Proof.
  intros Hsplit H1 H2 H3 Hq Hnum Hrows.
  assert (His : forall s, type_ <> VStr s -> is_str type_ s = false).
  { intros s Hs. destruct type_; simpl; try reflexivity. apply String.eqb_neq. congruence. }
  exists (FeatureImputer_init "constant" (VFloat q)),
         (FeatureImputer "constant" (VFloat q)
            (Some (SimpleImputer si_constant (VFloat q)
                     (Some (map (fun _ => Num q) (values X)))))).
  split.
  - unfold interpret_process_step. simpl. rewrite Hsplit. simpl.
    rewrite !His by assumption. simpl. unfold bind, lift. rewrite Hq. reflexivity.
  - unfold fit_transform_one.
    erewrite bind_run; cycle 1.
    { apply (FeatureImputer_fit_run "constant" (VFloat q) si_constant (VFloat q));
        [reflexivity|]. now rewrite SimpleImputer_fit_numeric. }
    cbv beta iota.
    erewrite bind_run; cycle 1.
    { apply SimpleImputer_transform_run; [now apply validate_input_numeric|].
      rewrite length_map. unfold values. now rewrite length_map. }
    assert (Himp : impute si_constant (map (fun _ => Num q) (values X)) (values X)
                   = values (map (fun nc : string * column =>
                                    (fst nc, fillna (Num q) (snd nc))) X)).
    { clear. unfold values. induction X as [|[n c] X IH]; simpl; [reflexivity|].
      now rewrite IH. }
    rewrite Himp.
    replace (columns X)
      with (columns (map (fun nc : string * column => (fst nc, fillna (Num q) (snd nc))) X))
      by (unfold columns; rewrite map_map; reflexivity).
    rewrite rewrap_values. reflexivity.
Qed.

Lemma constant_imputation_step_witness :
  exists t t',
    interpret_process_step "imputation_strategy" (VStr "constant:7") (VStr "float")
      (world_of []) = (world_of [], OK t)
    /\ fit_transform_one t [("a", [Num 1; NaN])] (world_of [])
       = (world_of [], OK (t', [("a", [Num 1; Num 7])])).
Proof.
  apply (constant_imputation_step_fills_with_parameter (VStr "constant:7") (VStr "float")
           "7" [] 7 [("a", [Num 1; NaN])] (world_of []));
    try discriminate; reflexivity.
Defined.

(** ** Weights *)

Lemma getcol_app_notin (pre X : frame) (n : string) :
  ~ In n (columns pre) -> getcol (pre ++ X) n = getcol X n.
Proof.
  unfold columns. induction pre as [|[n0 c0] pre IH]; simpl; intros H; [reflexivity|].
  destruct (String.eqb_spec n0 n); [tauto|]. apply IH. tauto.
Qed.

Lemma setcol_app_notin (pre X : frame) (n : string) (c : column) :
  ~ In n (columns pre) -> setcol (pre ++ X) n c = pre ++ setcol X n c.
Proof.
  unfold columns. induction pre as [|[n0 c0] pre IH]; simpl; intros H; [reflexivity|].
  destruct (String.eqb_spec n0 n); [tauto|]. rewrite IH; tauto.
Qed.

Lemma times_numeric (weight : pyobj) (k : Q) (c : column) :
  weight_value weight = Some k -> is_numeric c = true ->
  rmap (times weight) c = OK (map (scaled k) c).
Proof.
  intros Hk. unfold is_numeric. induction c as [|x c IH]; simpl; [reflexivity|].
  intros [Hx Hc]%andb_true_iff. rewrite (IH Hc).
  destruct weight, x; simpl in *; try discriminate; injection Hk as <-; reflexivity.
Qed.

Lemma weigh_loop (weight : pyobj) (k : Q) (pre post : frame) :
  weight_value weight = Some k ->
  NoDup (columns (pre ++ post)) -> forallb is_numeric (values post) = true ->
  rfold (fun X col => c <- getcol X col ;; c <- rmap (times weight) c ;; OK (setcol X col c))
        (columns post) (pre ++ post)
  = OK (pre ++ map (fun nc : string * column => (fst nc, map (scaled k) (snd nc))) post).
Proof.
  intros Hk. revert pre; induction post as [|[n c] post IH]; intros pre Hnd Hnum; simpl.
  - reflexivity.
  - simpl in Hnum. apply andb_true_iff in Hnum as [Hc Hnum].
    assert (Hn : ~ In n (columns pre)).
    { unfold columns in *. rewrite map_app in Hnd. simpl in Hnd.
      apply NoDup_remove_2 in Hnd. intros Hin. apply Hnd. apply in_or_app. now left. }
    rewrite getcol_app_notin by exact Hn. simpl. rewrite String.eqb_refl. simpl.
    rewrite (times_numeric _ _ _ Hk Hc). simpl.
    rewrite setcol_app_notin by exact Hn. simpl. rewrite String.eqb_refl.
    specialize (IH (pre ++ [(n, map (scaled k) c)])).
    rewrite <- app_assoc in IH. simpl in IH. unfold columns in IH |- *.
    etransitivity; [apply IH|].
    + unfold columns in *. rewrite !map_app in *. simpl in *. exact Hnd.
    + exact Hnum.
    + now rewrite <- app_assoc.
Qed.

(** X5. A [FeatureWeigher] with a numeric weight, applied to a numeric table
    with distinct column names, returns the table with every number
    multiplied by the weight, missing entries still missing, and the
    columns, their names and their order as they were; it does not raise. *)
Theorem FeatureWeigher_multiplies `{L : Lib} (weight : pyobj) (k : Q) (X : frame)
    (w : world) :
  weight_value weight = Some k ->
  NoDup (columns X) -> forallb is_numeric (values X) = true ->
  transform_one (FeatureWeigher weight) X w
  = (w, OK (map (fun nc : string * column => (fst nc, map (scaled k) (snd nc))) X)).
Proof.
  intros Hk Hnd Hnum. simpl. unfold lift. f_equal.
  exact (weigh_loop weight k [] X Hk Hnd Hnum).
Qed.

Lemma FeatureWeigher_witness :
  snd (transform_one (FeatureWeigher (VInt 2)) [("a", [Num 3; NaN])] (world_of []))
  = OK [("a", [Num (3 * 2); NaN])].
Proof.
  rewrite (FeatureWeigher_multiplies (VInt 2) 2 [("a", [Num 3; NaN])] (world_of []));
    [reflexivity|reflexivity|repeat constructor; simpl; tauto|reflexivity].
Defined.

(** ** Value maps of the discretizer *)

Lemma Qeq_bool_trans_r (o k q : Q) :
  Qeq_bool k q = true -> Qeq_bool o k = Qeq_bool o q.
Proof.
  intros Hkq%Qeq_bool_iff.
  destruct (Qeq_bool o q) eqn:Hoq.
  - apply Qeq_bool_iff. apply Qeq_bool_iff in Hoq. now rewrite Hkq.
  - destruct (Qeq_bool o k) eqn:Hok; [|reflexivity].
    apply Qeq_bool_iff in Hok. rewrite Hkq in Hok.
    apply Qeq_bool_iff in Hok. congruence.
Qed.

Lemma bin_members_Qeq (order value_ : column) (k q : Q) :
  Qeq_bool k q = true -> bin_members order value_ k = bin_members order value_ q.
Proof.
  intros Hkq. unfold bin_members.
  induction (combine order value_) as [|[[o|s|] v] l IH]; simpl; [reflexivity| |exact IH|exact IH].
  rewrite (Qeq_bool_trans_r o k q Hkq). now rewrite IH.
Qed.

Lemma lookup_bin_map (f : Q -> cell) (keys : list Q) (q : Q) :
  (forall k, Qeq_bool k q = true -> f k = f q) ->
  (exists k, In k keys /\ Qeq_bool k q = true) ->
  lookup_bin (map (fun k => (k, f k)) keys) q = Some (f q).
Proof.
  intros Hf. induction keys as [|a keys IH]; intros (k & Hin & Hk).
  - destruct Hin.
  - simpl. destruct (Qeq_bool a q) eqn:Ha.
    + now rewrite (Hf a Ha).
    + apply IH. exists k. split; [|exact Hk].
      destruct Hin as [->|Hin]; [congruence|exact Hin].
Qed.

Lemma Qinsert_In (x q : Q) (l : list Q) : In x (Qinsert q l) <-> x = q \/ In x l.
Proof.
  induction l as [|a l IH]; simpl.
  - intuition.
  - destruct (Qle_bool q a); simpl; rewrite ?IH; intuition.
Qed.

Lemma Qsort_In (x : Q) (l : list Q) : In x (Qsort l) <-> In x l.
Proof.
  unfold Qsort. induction l as [|a l IH]; simpl; [tauto|].
  rewrite Qinsert_In, IH. intuition.
Qed.

Lemma Qdistinct_In (q : Q) (l : list Q) :
  In q l -> exists k, In k (Qdistinct l) /\ Qeq_bool k q = true.
Proof.
  induction l as [|a l IH]; simpl; [tauto|].
  intros [->|Hin].
  - exists q. split; [now left|]. apply Qeq_bool_iff. reflexivity.
  - destruct (IH Hin) as (k & Hk & Hkq).
    destruct (Qeq_bool a k) eqn:Hak.
    + exists a. split; [now left|].
      apply Qeq_bool_iff. apply Qeq_bool_iff in Hak, Hkq. now rewrite Hak.
    + exists k. split; [|exact Hkq]. right.
      apply filter_In. split; [exact Hk|]. now rewrite Hak.
Qed.

Lemma present_In (q : Q) (c : column) : In (Num q) c -> In q (present c).
Proof.
  intros H. unfold present. apply in_flat_map. exists (Num q). split; [exact H|now left].
Qed.

Lemma replace_group_means (order value_ : column) (subs : value_map) :
  group_means order value_ = OK subs ->
  replace subs order
  = map (fun x => match x with
                  | Num q => mean (bin_members order value_ q)
                  | _ => x
                  end) order.
Proof.
  unfold group_means. destruct (is_numeric value_); [|discriminate].
  intros [= <-]. unfold replace. apply map_ext_in. intros [q|s|] Hin; try reflexivity.
  change (fun k : Q => (k, mean (flat_map _ (combine order value_))))
    with (fun k : Q => (k, mean (bin_members order value_ k))).
  rewrite (lookup_bin_map (fun k => mean (bin_members order value_ k))); [reflexivity| |].
  - intros k Hk. now rewrite (bin_members_Qeq _ _ _ _ Hk).
  - destruct (Qdistinct_In q (present order) (present_In _ _ Hin)) as (k & Hk & Hkq).
    exists k. split; [|exact Hkq]. now apply Qsort_In.
Qed.

(** X6. Round trip of the value maps: when the map trained from the bin indices
    [order] of a column and its numeric training values [value_] is applied
    to those same bin indices, every index is replaced by the mean of the
    training values that fell in that bin, and missing entries stay as they
    are. *)
Theorem value_map_replaces_bin_by_its_mean (order value_ : column) (subs : value_map) :
  group_means order value_ = OK subs ->
  replace subs order
  = map (fun x => match x with
                  | Num q => mean (bin_members order value_ q)
                  | _ => x
                  end) order.
Proof. apply replace_group_means. Qed.

Lemma value_map_witness :
  replace [(0, Num 2); (1, Num 5)]%Q [Num 0; Num 1; Num 0]
  = map (fun x => match x with
                  | Num q => mean (bin_members [Num 0; Num 1; Num 0] [Num 1; Num 5; Num 3] q)
                  | _ => x
                  end) [Num 0; Num 1; Num 0].
Proof.
  apply (value_map_replaces_bin_by_its_mean [Num 0; Num 1; Num 0] [Num 1; Num 5; Num 3]).
  reflexivity.
Defined.

Lemma rmap_map {A B C} (f : B -> result C) (g : A -> B) (l : list A) :
  rmap f (map g l) = rmap (fun x => f (g x)) l.
Proof. induction l as [|x l IH]; simpl; [|rewrite IH]; reflexivity. Qed.

(** A loop over the positions of two arrays of the same length. *)
Lemma rmap_seq_zip {A B C} (g : A -> B -> result C) (e : exn) (a : list A) (b : list B)
    (cs : list C) :
  Forall2 (fun c ab => g (fst ab) (snd ab) = OK c) cs (combine a b) ->
  length a = length b ->
  rmap (fun i => match nth_error a i, nth_error b i with
                 | Some o, Some v => g o v
                 | _, _ => Raise e
                 end) (seq 0 (length a)) = OK cs.
Proof.
  revert b cs. induction a as [|x a IH]; intros [|y b] cs H Hlen; try discriminate.
  - inversion H. reflexivity.
  - simpl in H. inversion H as [|c ab cs' l' Hc Hcs]; subst.
    cbn [length seq rmap nth_error]. simpl in Hc. rewrite Hc. cbn [rbind].
    rewrite <- seq_shift, rmap_map. cbn [nth_error].
    rewrite (IH b cs' Hcs) by (simpl in Hlen; lia). reflexivity.
Qed.

Lemma group_means_all (bins vs : list column) :
  forallb is_numeric vs = true ->
  exists maps, Forall2 (fun m ov => group_means (fst ov) (snd ov) = OK m) maps (combine bins vs).
Proof.
  revert vs. induction bins as [|o bins IH]; intros [|v vs] Hnum;
    try (exists []; constructor).
  simpl in Hnum. apply andb_true_iff in Hnum as [Hv Hnum].
  destruct (IH vs Hnum) as [maps Hmaps].
  eexists (_ :: maps). simpl. constructor; [|exact Hmaps].
  simpl. unfold group_means. rewrite Hv. reflexivity.
Qed.

Lemma setcol_notin (X : frame) (n : string) (c : column) :
  ~ In n (columns X) -> setcol X n c = X ++ [(n, c)].
Proof.
  intros H. rewrite <- (app_nil_r X) at 1. now rewrite setcol_app_notin.
Qed.

Lemma frame_of_from (cols pre : frame) :
  NoDup (columns (pre ++ cols)) ->
  fold_left (fun X cv => setcol X (fst cv) (snd cv)) cols pre = pre ++ cols.
Proof.
  revert pre. induction cols as [|[n c] cols IH]; intros pre Hnd; simpl.
  - now rewrite app_nil_r.
  - rewrite setcol_notin.
    + rewrite IH; rewrite <- app_assoc; [reflexivity|exact Hnd].
    + unfold columns in *. rewrite map_app in Hnd. simpl in Hnd.
      apply NoDup_remove_2 in Hnd. intros Hin. apply Hnd. apply in_or_app. now left.
Qed.

Lemma frame_of_NoDup (cols : frame) : NoDup (columns cols) -> frame_of cols = cols.
Proof. intros H. apply (frame_of_from cols [] H). Qed.

Lemma Forall2_map_self {A B} (R : B -> A -> Prop) (h : A -> B) (l : list A) :
  (forall x, R (h x) x) -> Forall2 R (map h l) l.
Proof. intros H. induction l; simpl; constructor; auto. Qed.

Lemma replaced_columns (X : frame) (bins : list column) (maps : list value_map) :
  length bins = length X ->
  Forall2 (fun m ov => group_means (fst ov) (snd ov) = OK m) maps (combine bins (values X)) ->
  map (fun mc : value_map * (string * column) =>
         (fst (snd mc), replace (fst mc) (snd (snd mc))))
      (combine maps (combine (columns X) bins))
  = combine (columns X) (map bin_means (combine bins (values X))).
Proof.
  revert bins maps. induction X as [|[n v] X IH]; intros [|o bins] maps Hlen H;
    try discriminate; simpl in *.
  - inversion H. reflexivity.
  - inversion H as [|m ov maps' l' Hm Hmaps]; subst. simpl in *.
    rewrite (replace_group_means o v m Hm). f_equal.
    apply IH; [lia|exact Hmaps].
Qed.

Lemma columns_combine (names : list string) (a : ndarray) :
  length names = length a -> columns (combine names a) = names.
Proof.
  unfold columns. revert a. induction names as [|n names IH]; intros [|c a] H;
    try discriminate; simpl; [reflexivity|]. f_equal. apply IH. simpl in H. lia.
Qed.

(** X7. A discretizer fitted on a numeric table with distinct column names and
    then applied to that same table returns, under the names of the input,
    the bin indices computed by scikit-learn's discretizer with every index
    replaced by the mean of the training values of its bin. *)
Theorem FeatureDiscretizer_returns_bin_means `{L : Lib} (n_bins : Z) (strategy : string)
    (X : frame) (d : list (list Q)) (bins : ndarray) (w : world) :
  kbins_fit strategy n_bins X = OK d ->
  kbins_transform d X = OK bins ->
  length bins = length X ->
  NoDup (columns X) ->
  forallb is_numeric (values X) = true ->
  exists maps,
    fit_transform_one (FeatureDiscretizer_init n_bins strategy) X w
    = (w, OK (FeatureDiscretizer n_bins strategy (Some d) (Some maps),
              combine (columns X) (map bin_means (combine bins (values X))))).
Proof.
  intros Hfit Hbins Hlen Hnd Hnum.
  destruct (group_means_all bins (values X) Hnum) as [maps Hmaps].
  assert (Hlv : length bins = length (values X)) by (unfold values; now rewrite length_map).
  assert (Hlm : length maps = length bins).
  { apply Forall2_length in Hmaps. rewrite Hmaps, length_combine. lia. }
  assert (Hlc : length (columns X) = length bins) by (unfold columns; now rewrite length_map).
  exists maps.
  unfold fit_transform_one, FeatureDiscretizer_init. cbn [fit_one].
  assert (Htrain : train_value_maps bins X = OK maps).
  { unfold train_value_maps. now apply rmap_seq_zip. }
  erewrite bind_run; cycle 1.
  { erewrite bind_run by (unfold lift; rewrite Hfit; reflexivity). cbn iota.
    erewrite bind_run by (unfold lift; rewrite Hbins; reflexivity). cbn iota.
    erewrite bind_run by (unfold lift; rewrite Htrain; reflexivity). reflexivity. }
  cbn iota. cbn [transform_one].
  erewrite bind_run; cycle 1.
  { erewrite bind_run; cycle 1.
    { unfold dataframe_transformer.
      erewrite bind_run by (unfold lift; rewrite Hbins; reflexivity). cbn iota.
      unfold lift, rewrap. rewrite Hlc, Nat.eqb_refl. reflexivity. }
    cbn iota. unfold lift, apply_value_maps.
    rewrite length_combine, Hlc, Nat.min_id, <- Hlm.
    erewrite (rmap_seq_zip (fun (subs : value_map) (cv : string * column) =>
                              OK (fst cv, replace subs (snd cv)))
                           (IndexError "list index out of range") maps
                           (combine (columns X) bins)).
    - cbn [rbind]. reflexivity.
    - apply Forall2_map_self with
        (h := fun mc : value_map * (string * column) =>
                (fst (snd mc), replace (fst mc) (snd (snd mc)))). reflexivity.
    - rewrite length_combine. lia. }
  cbn iota. unfold ret. do 3 f_equal.
  rewrite (replaced_columns X bins maps Hlen Hmaps).
  apply frame_of_NoDup. rewrite columns_combine; [exact Hnd|].
  rewrite length_map, length_combine. lia.
Qed.

Lemma FeatureDiscretizer_witness :
  exists maps,
    fit_transform_one (FeatureDiscretizer_init 2 "uniform")
                      [("a", [Num 0; Num 1; Num 0])] (world_of [])
    = (world_of [],
       OK (FeatureDiscretizer 2 "uniform" (Some [[]]) (Some maps),
           [("a", [Num 0; Num 1; Num 0])])).
Proof.
  apply (FeatureDiscretizer_returns_bin_means 2 "uniform" [("a", [Num 0; Num 1; Num 0])]
           [[]] [[Num 0; Num 1; Num 0]] (world_of []));
    [reflexivity|reflexivity|reflexivity|repeat constructor; simpl; tauto|reflexivity].
Defined.

(** ** The effects of [transform] *)

Lemma silent_ret {A} (a : A) : silent (ret a).
Proof. intros w w' a' [= <- _]. reflexivity. Qed.

Lemma silent_raise {A} (e : exn) : silent (@raise A e).
Proof. intros w w' a [=]. Qed.

Lemma silent_lift {A} (r : result A) : silent (lift r).
Proof. intros w w' a [= <- _]. reflexivity. Qed.

Lemma silent_attr {A} (a : option A) : silent (attr a).
Proof. destruct a; [apply silent_ret|apply silent_raise]. Qed.

Lemma silent_bind {A B} (c : M A) (k : A -> M B) :
  silent c -> (forall a, silent (k a)) -> silent (bind c k).
Proof.
  intros Hc Hk w w' b H. apply bind_OK in H as (w1 & a & Ha & Hb).
  apply Hc in Ha. apply Hk in Hb. congruence.
Qed.

Lemma silent_logged {A} (c : result A) : silent (logged c).
Proof.
  destruct c; simpl; [apply silent_ret|].
  intros w w' a H. apply bind_OK in H as (w1 & u & _ & H). discriminate.
Qed.

Lemma silent_mmap {A B} (f : A -> M B) (l : list A) :
  (forall x, silent (f x)) -> silent (mmap f l).
Proof.
  intros Hf. induction l as [|x l IH]; simpl; [apply silent_ret|].
  apply silent_bind; [apply Hf|]. intros y.
  apply silent_bind; [exact IH|]. intros ys. apply silent_ret.
Qed.

Lemma silent_mfold {A B} (f : A -> B -> M A) (l : list B) (acc : A) :
  (forall a x, silent (f a x)) -> silent (mfold f l acc).
Proof.
  intros Hf. revert acc; induction l as [|x l IH]; simpl; intros acc; [apply silent_ret|].
  apply silent_bind; [apply Hf|]. exact IH.
Qed.

Create HintDb silent.
#[export] Hint Resolve silent_ret silent_raise silent_lift silent_logged silent_attr : silent.

Ltac silence :=
  repeat match goal with
         | |- silent (bind _ _) => apply silent_bind; [|intro]
         | |- silent (mmap _ _) => apply silent_mmap; intro
         | |- silent (mfold _ _ _) => apply silent_mfold; intros
         | |- silent (match ?x with _ => _ end) => destruct x
         | |- silent _ => solve [auto with silent]
         end.

Section TransformEffects.
Context `{L : Lib}.

Lemma silent_transform_one (t : transformer) (X : frame) : silent (transform_one t X).
  Proof.
    destruct t; simpl;
      unfold dataframe_transformer, imputer_transform, scaler_obj_transform; silence.
  Qed.

Lemma silent_step_transform (s : step) (X : frame) : silent (step_transform s X).
  Proof.
    pose proof silent_transform_one.
    destruct s; simpl;
      unfold ColumnTransformer_transform, dataframe_transformer, sk_ct_transform; silence.
  Qed.

Lemma silent_cast_columns (self : PreProcessor) (X : frame) :
    silent (cast_columns self X).
  Proof. unfold cast_columns. silence. Qed.

Lemma keeps_cast_columns (self : PreProcessor) (X : frame) :
    keeps_heap (cast_columns self X).
  Proof. unfold cast_columns. frame. Qed.

  (** X20. [transform] never writes to the configuration dictionaries, whether
      it returns or raises; the only trace it can leave is an error in the
      log. *)
Theorem transform_leaves_configuration_untouched (self : PreProcessor) (X : frame)
      (w : world) :
    heap (fst (transform self X w)) = heap w.
  Proof.
    revert w. change (keeps_heap (transform self X)).
    pose proof keeps_step_transform. pose proof keeps_cast_columns.
    unfold transform, get_active_features, dataframe_transformer, Pipeline_transform.
    frame.
  Qed.

  (** X21. A [transform] that returns a table leaves the configuration
      dictionaries and the log exactly as they were: nothing is printed, and
      errors are logged only on the way to an exception. *)
Theorem successful_transform_has_no_effect (self : PreProcessor) (X Y : frame)
      (w w' : world) :
    transform self X w = (w', OK Y) -> w' = w.
  Proof.
    revert w w' Y. change (silent (transform self X)).
    pose proof silent_step_transform. pose proof silent_cast_columns.
    unfold transform, get_active_features, dataframe_transformer, Pipeline_transform.
    silence.
  Qed.
End TransformEffects.

Lemma successful_transform_witness :
  exists Y w',
    transform sample_fitted sample_table (world_of sample_config) = (w', OK Y)
    /\ w' = world_of sample_config.
Proof.
  eexists _, _. split; [vm_compute; reflexivity|].
  eapply (successful_transform_has_no_effect sample_fitted sample_table).
  vm_compute. reflexivity.
Defined.

(** ** A configuration without steps *)

Lemma config_rows_no_steps (cfgs : list dict) (s : nat) :
  Forall (fun c => step_keys c = []) cfgs ->
  rmap (fun jc : nat * dict => config_rows (fst jc) (snd jc)) (enumerate_from s cfgs)
  = OK (map (fun _ => []) cfgs).
Proof.
  intros H. revert s; induction H as [|c cfgs Hc _ IH]; intros s; simpl; [reflexivity|].
  unfold config_rows at 1. rewrite Hc. simpl. now rewrite IH.
Qed.

Lemma action_plan_no_steps (cfgs : list dict) (names : list string) (fa ft : dict) :
  Forall (fun c => step_keys c = []) cfgs -> action_plan cfgs names fa ft = OK [].
Proof.
  intros H. unfold action_plan, declared_rows, enumerate.
  rewrite (config_rows_no_steps cfgs 0 H). simpl.
  replace (concat (map (fun _ : dict => @nil plan_row) cfgs)) with (@nil plan_row)
    by (clear; induction cfgs; simpl; auto).
  reflexivity.
Qed.

Lemma dataframe_transformer_values `{L : Lib} (X : frame) (tr : frame -> M ndarray)
    (w : world) :
  tr X w = (w, OK (values X)) -> dataframe_transformer X tr w = (w, OK X).
Proof.
  intros H. unfold dataframe_transformer. rewrite (bind_run _ _ _ _ _ H).
  unfold lift. now rewrite rewrap_values.
Qed.

(** X16. When no feature declares a step, the fitted pipeline is the single
    step "step_0" holding [Identity], and [transform] is the selection of
    the active features followed by the casts: the pipeline and the
    rewrapping of its output change nothing. *)
Theorem no_step_configuration_is_pass_through `{L : Lib} (self self1 : PreProcessor)
    (X : frame) (y : option column) (w w1 : world) (cfgs : list dict) :
  holds w (features_config self) cfgs ->
  Forall (fun c => step_keys c = []) cfgs ->
  fit self X y w = (w1, OK self1) ->
  preprocessor self1 = Some [("step_0", StepIdentity)]
  /\ forall X' w',
       transform self1 X' w'
       = (features <~ get_active_features self1 ;;
          Xf <~ lift (getcols X' features) ;;
          cast_columns self1 Xf) w'.
Proof.
  intros Hholds Hnone Hfit.
  unfold fit in Hfit. apply bind_OK in Hfit as (wA & selfA & Hic & Hfit).
  destruct (interpret_config_run self w cfgs Hholds) as (wA' & Hholds1 & _ & _ & _ & Hrun).
  rewrite Hrun in Hic. injection Hic as -> Hic.
  apply rbind_OK in Hic as (names & Hnames & Hic).
  apply rbind_OK in Hic as (actives & Hact & Hic).
  apply rbind_OK in Hic as (types & Htyp & Hic). injection Hic as <-.
  erewrite bind_run in Hfit; cycle 1.
  { eapply (create_action_plan_run _ _ (map with_active cfgs)); [exact Hholds1|reflexivity..]. }
  rewrite action_plan_no_steps in Hfit; cycle 1.
  { apply Forall_map. eapply Forall_impl; [|exact Hnone].
    intros c Hc. now rewrite step_keys_with_active. }
  cbn iota in Hfit.
  erewrite bind_run in Hfit by reflexivity. cbn iota in Hfit.
  erewrite bind_run in Hfit by reflexivity. cbn iota in Hfit.
  apply bind_OK in Hfit as (w2 & Xf & HXf & Hfit).
  erewrite bind_run in Hfit by reflexivity. cbn iota in Hfit.
  injection Hfit as _ <-. split; [reflexivity|].
  intros X' w'. unfold transform. cbn [preprocessor].
  apply bind_ext. intros features wa. apply bind_ext. intros Xf' wb.
  erewrite bind_run by (apply dataframe_transformer_values; reflexivity).
  reflexivity.
Qed.

Lemma no_step_configuration_witness :
  preprocessor inactive_fitted = Some [("step_0", StepIdentity)].
Proof.
  apply (no_step_configuration_is_pass_through
           (PreProcessor_init (refs_of inactive_config)) inactive_fitted inactive_table None
           (world_of inactive_config)
           (fst (fit (PreProcessor_init (refs_of inactive_config)) inactive_table None
                     (world_of inactive_config)))
           inactive_config).
  - repeat constructor.
  - repeat constructor.
  - vm_compute. reflexivity.
Defined.

(** ** The active features *)

Lemma getitem_absent (d : dict) (k : string) :
  contains d k = false -> getitem d k = Raise (KeyError k).
Proof.
  unfold contains. induction d as [|[k0 v0] d IH]; simpl; [reflexivity|].
  rewrite (String.eqb_sym k k0). destruct (k0 =? k); simpl; [discriminate|exact IH].
Qed.

Lemma truthy_with_active (config : dict) :
  exists a, getitem (with_active config) "active" = OK a /\ truthy a = is_active config.
Proof.
  unfold with_active, is_active. destruct (contains config "active") eqn:E.
  - destruct (getitem_In config "active") as [a Ha]; [now apply contains_In|].
    exists a. now rewrite Ha.
  - rewrite getitem_update_eq, (getitem_absent _ _ E). eauto.
Qed.

Lemma dict_of_from (l : list (string * pyobj)) (d : dict) :
  NoDup (keys (d ++ l)) ->
  fold_left (fun d kv => update d (fst kv) (snd kv)) l d = d ++ l.
Proof.
  revert d. induction l as [|[k v] l IH]; intros d Hnd; simpl.
  - now rewrite app_nil_r.
  - rewrite update_absent.
    + rewrite IH; rewrite <- app_assoc; [reflexivity|exact Hnd].
    + destruct (contains d k) eqn:E; [|reflexivity]. exfalso.
      apply contains_In in E. unfold keys in *. rewrite map_app in Hnd. simpl in Hnd.
      apply NoDup_remove_2 in Hnd. apply Hnd. apply in_or_app. now left.
Qed.

Lemma dict_of_NoDup (l : list (string * pyobj)) : NoDup (map fst l) -> dict_of l = l.
Proof. intros H. apply (dict_of_from l [] H). Qed.

Lemma actives_spec (cfgs : list dict) (names : list string)
    (actives : list (string * pyobj)) :
  rmap config_name cfgs = OK names ->
  rmap (name_and "active") (map with_active cfgs) = OK actives ->
  map fst (List.filter (fun x : string * pyobj => truthy (snd x)) actives)
  = map fst (List.filter (fun nc : string * dict => is_active (snd nc)) (combine names cfgs)).
Proof.
  revert names actives. induction cfgs as [|c cfgs IH]; simpl; intros names actives H1 H2.
  - injection H1 as <-. now injection H2 as <-.
  - apply rbind_OK in H1 as (n & Hn & H1). apply rbind_OK in H1 as (names' & Hnames' & H1).
    injection H1 as <-.
    apply rbind_OK in H2 as (na & Hna & H2). apply rbind_OK in H2 as (actives' & Hact' & H2).
    injection H2 as <-.
    unfold name_and in Hna. rewrite config_name_with_active, Hn in Hna. simpl in Hna.
    destruct (truthy_with_active c) as (a & Ha & Htruthy). rewrite Ha in Hna. simpl in Hna.
    injection Hna as <-. simpl. rewrite Htruthy.
    destruct (is_active c); simpl; [f_equal|]; now apply IH.
Qed.

(** X14. After [__interpret_config], the active features are the names of the
    configured features whose dictionary has no "active" entry or a truthy
    one, in the order of the configuration (feature names being distinct). *)
Theorem active_features_follow_configuration (self self1 : PreProcessor) (w w1 : world)
    (cfgs : list dict) (names : list string) :
  holds w (features_config self) cfgs ->
  rmap config_name cfgs = OK names -> NoDup names ->
  interpret_config self w = (w1, OK self1) ->
  get_active_features self1 w1
  = (w1, OK (map fst (List.filter (fun nc : string * dict => is_active (snd nc))
                                  (combine names cfgs)))).
Proof.
  intros Hholds Hnames Hnd Hic.
  destruct (interpret_config_run self w cfgs Hholds) as (wA & _ & _ & _ & _ & Hrun).
  rewrite Hrun in Hic. injection Hic as -> Hic.
  rewrite rmap_config_name_with_active, Hnames in Hic. simpl in Hic.
  apply rbind_OK in Hic as (actives & Hact & Hic).
  apply rbind_OK in Hic as (types & Htyp & Hic). injection Hic as <-.
  unfold get_active_features. simpl. unfold bind, ret. simpl.
  rewrite dict_of_NoDup.
  - now rewrite (actives_spec cfgs names actives Hnames Hact).
  - rewrite <- rmap_config_name_with_active in Hnames.
    now rewrite (name_and_fst _ _ _ _ Hnames Hact).
Qed.

Lemma active_features_witness :
  exists w1 self1,
    interpret_config (PreProcessor_init (refs_of inactive_config)) (world_of inactive_config)
    = (w1, OK self1)
    /\ get_active_features self1 w1 = (w1, OK ["a"]).
Proof.
  eexists _, _. split; [vm_compute; reflexivity|].
  eapply (active_features_follow_configuration
            (PreProcessor_init (refs_of inactive_config)) _ (world_of inactive_config) _
            inactive_config ["a"; "b"]).
  - repeat constructor.
  - reflexivity.
  - repeat constructor; simpl; intuition discriminate.
  - vm_compute. reflexivity.
Defined.

(** ** An inactive feature *)

Lemma transform_raises_witness :
  exists e, snd (transform inactive_fitted inactive_table (world_of inactive_config))
            = Raise e.
Proof.
  apply (transform_raises_with_inactive_feature
           (PreProcessor_init (refs_of inactive_config)) inactive_fitted
           inactive_table inactive_table None (world_of inactive_config)
           (fst (fit (PreProcessor_init (refs_of inactive_config)) inactive_table None
                     (world_of inactive_config)))
           (world_of inactive_config) inactive_config
           [("a", VBool true); ("b", VBool false)] "b" (VBool false)).
  - repeat constructor.
  - vm_compute. reflexivity.
  - vm_compute. reflexivity.
  - reflexivity.
  - reflexivity.
Defined.

(** ** The pipeline built from a plan *)

Lemma mmap_OK {A B} (f : A -> M B) (l : list A) (w w' : world) (ys : list B) :
  mmap f l w = (w', OK ys) ->
  Forall2 (fun x y => exists w1 w2, f x w1 = (w2, OK y)) l ys.
Proof.
  revert w w' ys. induction l as [|x l IH]; simpl; intros w w' ys H.
  - injection H as _ <-. constructor.
  - apply bind_OK in H as (w1 & y & Hy & H). apply bind_OK in H as (w2 & ys' & Hys & H).
    injection H as _ <-. constructor; [exists w, w1; exact Hy|exact (IH _ _ _ Hys)].
Qed.

Lemma set_preprocessor_steps `{L : Lib} (plan : list plan_row) (w w' : world)
    (pre : Pipeline) :
  plan <> [] ->
  set_preprocessor plan w = (w', OK pre) ->
  Forall2 (fun o s =>
             exists ts, s = (String.append "step_" (pretty o), StepColumns (mk_ct ts None))
                        /\ routes (sort_by_feature (stage o plan)) ts)
          (stages plan) pre.
Proof.
  intros Hne H. unfold set_preprocessor in H.
  apply bind_OK in H as (w1 & steps & Hsteps & H).
  apply mmap_OK in Hsteps.
  assert (Hlen : 0 < length steps).
  { rewrite <- (Forall2_length Hsteps). destruct plan as [|r plan]; [congruence|].
    simpl. lia. }
  apply Nat.ltb_lt in Hlen. rewrite Hlen in H. injection H as _ <-.
  eapply Forall2_impl; [|exact Hsteps].
  intros o s (wa & wb & Ho). apply bind_OK in Ho as (wc & ts & Hts & Ho).
  injection Ho as _ <-. exists ts. split; [reflexivity|].
  apply mmap_OK in Hts. eapply Forall2_impl; [|exact Hts].
  intros r t (wd & we & Hr). apply bind_OK in Hr as (wf & tr & Htr & Hr).
  injection Hr as _ <-. eauto.
Qed.

Lemma sort_by_feature_sorted (l : list plan_row) (s n : nat) :
  map feature_order l = seq s n -> sort_by_feature l = l.
Proof.
  revert s n. induction l as [|r l IH]; intros s [|n] H; simpl in *; try discriminate;
    [reflexivity|].
  injection H as Hr Hl. rewrite (IH _ _ Hl).
  destruct l as [|r' l]; [reflexivity|]. simpl.
  destruct n as [|n]; [discriminate|]. simpl in Hl. injection Hl as Hr' _.
  destruct (Nat.leb_spec (feature_order r) (feature_order r')); [reflexivity|lia].
Qed.

Lemma named_positions (names : list string) (l : list plan_row) (s : nat) :
  (forall r, In r l -> nth_error names (feature_order r - s) = Some (feature_name r)) ->
  map feature_order l = seq s (length names) ->
  map (fun r => (feature_name r, feature_order r)) l = combine names (seq s (length names)).
Proof.
  revert l s. induction names as [|n names IH]; intros [|r l] s Hn Hl; simpl in *;
    try discriminate; [reflexivity|].
  injection Hl as Hr Hl. f_equal.
  - specialize (Hn r (or_introl eq_refl)). rewrite Hr, Nat.sub_diag in Hn. simpl in Hn.
    congruence.
  - apply IH; [|exact Hl]. intros r' Hr'.
    assert (Hge : S s <= feature_order r').
    { apply (in_map feature_order) in Hr'. rewrite Hl in Hr'. apply in_seq in Hr'. lia. }
    specialize (Hn r' (or_intror Hr')).
    replace (feature_order r' - s) with (S (feature_order r' - S s)) in Hn by lia.
    exact Hn.
Qed.

Lemma routes_positions `{L : Lib} (rows : list plan_row) (ts : list triple) :
  routes rows ts ->
  map (fun t : triple => (fst (fst t), snd t)) ts
  = map (fun r => (feature_name r, feature_order r)) rows.
Proof.
  induction 1 as [|r t rows ts (tr & w1 & w2 & _ & ->) _ IH]; simpl; [reflexivity|].
  now rewrite IH.
Qed.

(** X15. The pipeline of a compiled plan (feature names being distinct and at
    least one step declared) has one step per stage, named "step_0",
    "step_1", ... in this order, and every step is a column transformer
    with exactly one transformer per configured feature, in configuration
    order, under the feature's name and addressing the feature's column by
    its position in the configuration. *)
Theorem pipeline_has_a_transformer_per_feature_and_stage `{L : Lib} (cfgs : list dict)
    (names : list string) (fa ft : dict) (plan : list plan_row) (w w' : world)
    (pre : Pipeline) :
  rmap config_name cfgs = OK names -> NoDup names ->
  0 < max_steps cfgs ->
  action_plan cfgs names fa ft = OK plan ->
  set_preprocessor plan w = (w', OK pre) ->
  map fst pre = map (fun o => String.append "step_" (pretty o)) (seq 0 (max_steps cfgs))
  /\ Forall (fun s : string * step =>
               exists ts, snd s = StepColumns (mk_ct ts None)
                          /\ map (fun t : triple => (fst (fst t), snd t)) ts
                             = combine names (seq 0 (length names)))
            pre.
Proof.
  intros Hnames Hnd Hpos Hplan Hpre.
  destruct (action_plan_stages _ _ _ _ _ Hnames Hnd Hplan) as [Hstages Hstage].
  pose proof (names_nth _ _ Hnames) as [Hlen Hnth].
  assert (Hne : plan <> []).
  { intros ->. unfold stages in Hstages. simpl in Hstages.
    destruct (max_steps cfgs); [lia|discriminate]. }
  pose proof (set_preprocessor_steps plan w w' pre Hne Hpre) as Hsteps.
  rewrite Hstages in Hsteps. split.
  - clear -Hsteps. induction Hsteps as [|o s os pre (ts & -> & _) _ IH]; simpl;
      [reflexivity|]. now rewrite IH.
  - assert (Hall : Forall (fun o => o < max_steps cfgs) (seq 0 (max_steps cfgs)))
      by (apply Forall_forall; intros o Ho; apply in_seq in Ho; lia).
    clear -Hsteps Hall Hstage Hnth Hlen Hnames Hplan.
    induction Hsteps as [|o s os pre (ts & -> & Hroutes) _ IH]; [constructor|].
    inversion Hall as [|? ? Ho Hall']; subst. constructor; [|auto].
    exists ts. split; [reflexivity|].
    rewrite (sort_by_feature_sorted _ 0 (length cfgs) (Hstage o Ho)) in Hroutes.
    rewrite (routes_positions _ _ Hroutes). apply named_positions.
    + intros r Hr. apply filter_In in Hr as [Hr _].
      destruct (action_plan_rows _ _ _ _ _ Hnames Hplan r Hr) as (c & Hc & Hn & _).
      rewrite Nat.sub_0_r.
      assert (Hj : feature_order r < length names)
        by (rewrite Hlen; apply nth_error_Some; congruence).
      apply nth_error_Some in Hj.
      destruct (nth_error names (feature_order r)) as [n|] eqn:En; [|congruence].
      f_equal. apply (Hnth _ _ _ Hc) in En. congruence.
    + rewrite Hlen. apply Hstage, Ho.
Qed.

Lemma pipeline_witness :
  exists plan w' pre,
    action_plan (map with_active sample_config) ["area"; "rooms"]
                [("area", VBool true); ("rooms", VBool true)]
                [("area", VStr "float"); ("rooms", VStr "int")] = OK plan
    /\ set_preprocessor plan (world_of []) = (w', OK pre)
    /\ map fst pre = ["step_0"; "step_1"].
Proof.
  eexists _, _, _. split; [vm_compute; reflexivity|]. split; [vm_compute; reflexivity|].
  eapply proj1.
  eapply (pipeline_has_a_transformer_per_feature_and_stage
            (map with_active sample_config) ["area"; "rooms"]
            [("area", VBool true); ("rooms", VBool true)]
            [("area", VStr "float"); ("rooms", VStr "int")] _ (world_of []) _ _).
  - reflexivity.
  - repeat constructor; simpl; intuition discriminate.
  - vm_compute. lia.
  - vm_compute. reflexivity.
  - vm_compute. reflexivity.
Defined.






Lemma imputation_step_witness :
  exists param,
    FeatureImputer_init "constant" VNone = FeatureImputer "constant" param None.
Proof.
  apply (imputation_step_is_constant (VStr "mean") (VStr "float") (world_of [])
           (world_of [])).
  reflexivity.
Defined.

(** ** Column labels *)

Lemma rmap_keeps_fst {A B C} (g : A * B -> result C) (X : list (A * B))
    (Y : list (A * C)) :
  rmap (fun cv : A * B => v <- g cv ;; OK (fst cv, v)) X = OK Y -> map fst Y = map fst X.
Proof.
  revert Y. induction X as [|cv X IH]; simpl; intros Y H.
  - now injection H as <-.
  - apply rbind_OK in H as (y & Hy & H). apply rbind_OK in H as (Y' & HY' & H).
    injection H as <-. apply rbind_OK in Hy as (v & _ & Hy). injection Hy as <-.
    simpl. f_equal. auto.
Qed.

Lemma pd_clip_columns (X Y : frame) (lo hi : option Q) :
  pd_clip X lo hi = OK Y -> columns Y = columns X.
Proof.
  unfold pd_clip, columns.
  destruct lo as [lo|], hi as [hi|]; try destruct (Qle_bool lo hi); intros H;
    try (now injection H as <-);
    exact (rmap_keeps_fst (fun cv => map_num _ (snd cv)) _ _ H).
Qed.

Lemma logged_OK {A} (c : result A) (w w' : world) (a : A) :
  logged c w = (w', OK a) -> c = OK a.
Proof.
  destruct c; simpl; [now intros [= _ <-]|].
  intros H. apply bind_OK in H as (w1 & u & _ & H). discriminate.
Qed.

Lemma dataframe_transformer_columns `{L : Lib} (X Y : frame) (tr : frame -> M ndarray)
    (w w' : world) :
  dataframe_transformer X tr w = (w', OK Y) -> columns Y = columns X.
Proof.
  unfold dataframe_transformer. intros H. apply bind_OK in H as (w1 & a & _ & H).
  injection H as _ H. now apply rewrap_columns in H.
Qed.

Lemma replaced_labels (F : nat -> result (string * column)) (pre Xt : frame)
    (cols : frame) :
  (forall i y, F i = OK y -> exists cv, nth_error (pre ++ Xt) i = Some cv /\ fst y = fst cv) ->
  rmap F (seq (length pre) (length Xt)) = OK cols ->
  columns cols = columns Xt.
Proof.
  unfold columns. revert pre cols. induction Xt as [|cv Xt IH]; simpl; intros pre cols HF H.
  - now injection H as <-.
  - apply rbind_OK in H as (y & Hy & H). apply rbind_OK in H as (cols' & Hcols' & H).
    injection H as <-. simpl. f_equal.
    + destruct (HF _ _ Hy) as (cv' & Hnth & ->).
      rewrite nth_error_app2, Nat.sub_diag in Hnth by lia. simpl in Hnth. congruence.
    + apply (IH (pre ++ [cv])).
      * intros i z Hz. rewrite <- app_assoc. now apply HF.
      * rewrite length_app. simpl. now rewrite Nat.add_1_r.
Qed.

Lemma transform_keeps_labels_of `{L : Lib} (t : transformer) (X Y : frame)
    (w w' : world) :
  NoDup (columns X) ->
  transform_one t X w = (w', OK Y) ->
  columns Y = columns X.
Proof.
  intros Hnd H. destruct t as [|tr f|limits|s p i|s sc|weight|n s d maps]; simpl in H.
  - now injection H as _ <-.
  - apply logged_OK in H. exact (rmap_keeps_fst (fun cv => call_ufunc f (snd cv)) _ _ H).
  - apply logged_OK in H. unfold clip in H.
    destruct limits as [| | | | |[|lo [|hi [|]]]]; try discriminate.
    + now apply pd_clip_columns in H.
    + apply rbind_OK in H as (lo' & _ & H). now apply pd_clip_columns in H.
    + apply rbind_OK in H as (lo' & _ & H). apply rbind_OK in H as (hi' & _ & H).
      now apply pd_clip_columns in H.
  - now apply dataframe_transformer_columns in H.
  - now apply dataframe_transformer_columns in H.
  - injection H as _ H. unfold weigh in H.
    apply (rfold_invariant (fun Z => columns Z = columns X)) in H; [exact H|reflexivity|].
    intros Z col Z' _ HZ Hstep. apply rbind_OK in Hstep as (c & Hc & Hstep).
    apply rbind_OK in Hstep as (c' & _ & Hstep). injection Hstep as <-.
    rewrite <- HZ. eapply columns_setcol; eauto.
  - apply bind_OK in H as (w1 & Xt & HXt & H). apply dataframe_transformer_columns in HXt.
    injection H as _ H. unfold apply_value_maps in H.
    apply rbind_OK in H as (cols & Hcols & H). injection H as <-.
    apply (replaced_labels _ [] Xt) in Hcols.
    + rewrite frame_of_NoDup; rewrite Hcols, HXt; [reflexivity|exact Hnd].
    + intros i y Hy. destruct maps as [maps|]; [|discriminate]. simpl.
      destruct (nth_error maps i); [|discriminate].
      destruct (nth_error Xt i) as [cv|]; [|discriminate].
      injection Hy as <-. eauto.
Qed.


(** X8. On a table with distinct column labels, every transform of the
    module that returns, returns a table with the column labels of its
    input, in the same order. *)
Theorem transform_keeps_column_labels `{L : Lib} (t : transformer) (X Y : frame)
    (w w' : world) :
  NoDup (columns X) ->
  transform_one t X w = (w', OK Y) ->
  columns Y = columns X.
Proof. apply transform_keeps_labels_of. Qed.

Lemma transform_keeps_labels_witness :
  exists w' Y,
    transform_one (FeatureClipper (VList [VInt 0; VInt 10])) sample_table (world_of [])
    = (w', OK Y)
    /\ columns Y = ["area"; "rooms"].
Proof.
  eexists _, _. split; [vm_compute; reflexivity|].
  eapply (transform_keeps_column_labels (FeatureClipper (VList [VInt 0; VInt 10]))
            sample_table _ (world_of []) _).
  - repeat constructor; simpl; intuition discriminate.
  - vm_compute. reflexivity.
Defined.

(** ** Step declarations *)

Lemma split_without_separator (s : string) :
  substring_in ":" s = false -> split ":" s = [s].
Proof.
  induction s as [|c s IH]; simpl; [reflexivity|].
  intros H. apply orb_false_iff in H as [Hc Hs].
  destruct (Ascii.eqb_spec c ":") as [->|Hne].
  - simpl in Hc. destruct s; discriminate.
  - now rewrite (IH Hs).
Qed.

(** X13. A "discretizer" step whose declaration has no colon raises: the
    declaration is split at ":" and unpacked into exactly two names. *)
Theorem discretizer_step_without_colon_raises `{L : Lib} (value type_ : pyobj) (w : world) :
  substring_in ":" (str value) = false ->
  exists msg, interpret_process_step "discretizer" value type_ w
              = (w, Raise (ValueError msg)).
Proof.
  intros H. eexists. unfold interpret_process_step. simpl.
  now rewrite (split_without_separator _ H).
Qed.

Lemma discretizer_step_witness :
  exists msg,
    interpret_process_step "discretizer" (VStr "uniform") (VStr "float") (world_of [])
    = (world_of [], Raise (ValueError msg)).
Proof.
  apply (discretizer_step_without_colon_raises (VStr "uniform") (VStr "float") (world_of [])).
  reflexivity.
Defined.

(** ** The columns of the output *)




(** ** One stage of the pipeline *)

Lemma fit_labels_seq (pre names : list string) :
  rmap (fit_label (pre ++ names)) (seq (length pre) (length names)) = OK names.
Proof.
  revert pre. induction names as [|n names IH]; intros pre; simpl; [reflexivity|].
  unfold fit_label at 1. rewrite nth_error_app2, Nat.sub_diag by lia. simpl.
  specialize (IH (pre ++ [n])). rewrite <- app_assoc, length_app, Nat.add_1_r in IH.
  simpl in IH. now rewrite IH.
Qed.

Lemma values_combine (names : list string) (a : ndarray) :
  length names = length a -> values (combine names a) = a.
Proof.
  unfold values. revert a. induction names as [|n names IH]; intros [|c a] H;
    try discriminate; simpl; [reflexivity|]. f_equal. apply IH. simpl in H. lia.
Qed.

Lemma stacked_columns `{L : Lib} (X : frame) (tcs : list (triple * string))
    (Ys : list ndarray) :
  Forall2 (fun (tc : triple * string) (ys : ndarray) =>
             exists w1 w2,
               (Xc <~ lift (getcols X [snd tc]) ;;
                Y <~ transform_one (snd (fst (fst tc))) Xc ;;
                ret (values Y)) w1 = (w2, OK ys))
          tcs Ys ->
  length (concat Ys) = length tcs
  /\ Forall2 (fun (tc : triple * string) (c' : column) =>
                exists c w1 w2,
                  getcol X (snd tc) = OK c
                  /\ transform_one (snd (fst (fst tc))) [(snd tc, c)] w1
                     = (w2, OK [(snd tc, c')]))
             tcs (concat Ys).
Proof.
  induction 1 as [|[[[n t] o] name] ys tcs Ys (w1 & w2 & Hy) _ [IHlen IH]]; simpl.
  - split; [reflexivity|constructor].
  - apply bind_OK in Hy as (w3 & Xc & HXc & Hy). unfold lift, getcols in HXc.
    injection HXc as _ HXc. simpl in HXc.
    destruct (getcol X name) as [c|e] eqn:Hc; [|discriminate]. injection HXc as <-.
    apply bind_OK in Hy as (w4 & Y & HY & Hy). injection Hy as _ <-.
    assert (Hcols : columns Y = [name]).
    { apply (transform_keeps_labels_of t [(name, c)] Y w3 w4); [|exact HY].
      repeat constructor. simpl. tauto. }
    destruct Y as [|[n' c'] [|]]; try discriminate. injection Hcols as ->.
    simpl. split; [now rewrite IHlen|]. constructor; [|exact IH]. simpl. eauto.
Qed.

(** X9. One fitted stage with a transformer per fit-time column, in column
    order, transforms every column on its own and finds it by its label:
    when [transform] returns on a table with distinct labels, the output
    carries the labels of that table, in its order, and as many columns as
    were seen at fit time, and the column at each position is what the
    transformer of that position returns on the one column of the table
    that bears the fit-time label of that position. *)
Theorem stage_transforms_columns_independently `{L : Lib} (ct : ColumnTransformer)
    (names_in : list string) (fitted : list triple) (X Y : frame) (w w' : world) :
  fitted_ ct = Some (mk_fitted names_in fitted) ->
  map snd fitted = seq 0 (length names_in) ->
  NoDup (columns X) ->
  ColumnTransformer_transform ct X w = (w', OK Y) ->
  columns Y = columns X
  /\ length Y = length names_in
  /\ Forall2 (fun (tc : triple * string) (c' : column) =>
                exists c w1 w2,
                  getcol X (snd tc) = OK c
                  /\ transform_one (snd (fst (fst tc))) [(snd tc, c)] w1
                     = (w2, OK [(snd tc, c')]))
             (combine fitted names_in) (values Y).
Proof.
  intros Hfitted Hpos _ H. unfold ColumnTransformer_transform, dataframe_transformer in H.
  apply bind_OK in H as (w1 & a & Ha & H). unfold sk_ct_transform in Ha.
  rewrite Hfitted in Ha. cbn [feature_names_in_ transformers_] in Ha.
  assert (Hlabels : rmap (fun nto : triple => fit_label names_in (snd nto)) fitted
                    = OK names_in).
  { transitivity (rmap (fit_label names_in) (map snd fitted)); [symmetry; apply rmap_map|].
    rewrite Hpos. apply (fit_labels_seq []). }
  rewrite Hlabels in Ha. erewrite bind_run in Ha by reflexivity. cbn iota in Ha.
  apply bind_OK in Ha as (w2 & u & _ & Ha).
  apply bind_OK in Ha as (w3 & Ys & HYs & Ha). injection Ha as _ <-.
  apply mmap_OK in HYs. destruct (stacked_columns X _ Ys HYs) as [Hlen Hall].
  assert (Hfl : length fitted = length names_in).
  { transitivity (length (map snd fitted)); [symmetry; apply length_map|].
    rewrite Hpos. apply length_seq. }
  rewrite length_combine, Hfl, Nat.min_id in Hlen.
  injection H as _ H. unfold rewrap in H.
  destruct (Nat.eqb_spec (length (columns X)) (length (concat Ys))) as [Heq|];
    [|discriminate].
  injection H as <-. rewrite columns_combine, values_combine by exact Heq.
  split; [reflexivity|]. split; [|exact Hall].
  rewrite length_combine, Heq, Hlen. apply Nat.min_id.
Qed.

Lemma stage_witness :
  ColumnTransformer_transform
    (mk_ct [] (Some (mk_fitted ["a"; "b"]
                       [("a", FeatureWeigher (VInt 2), 0); ("b", Identity, 1)])))
    [("b", [Num 5]); ("a", [Num 1])] (world_of [])
  = (world_of [], OK [("b", [Num 2]); ("a", [Num 5])])
  /\ columns [("b", [Num 2]); ("a", [Num 5])] = columns [("b", [Num 5]); ("a", [Num 1])].
Proof.
  assert (H : ColumnTransformer_transform
                (mk_ct [] (Some (mk_fitted ["a"; "b"]
                                   [("a", FeatureWeigher (VInt 2), 0); ("b", Identity, 1)])))
                [("b", [Num 5]); ("a", [Num 1])] (world_of [])
              = (world_of [], OK [("b", [Num 2]); ("a", [Num 5])]))
    by (vm_compute; reflexivity).
  split; [exact H|].
  apply (stage_transforms_columns_independently
           (mk_ct [] (Some (mk_fitted ["a"; "b"]
                              [("a", FeatureWeigher (VInt 2), 0); ("b", Identity, 1)])))
           ["a"; "b"] [("a", FeatureWeigher (VInt 2), 0); ("b", Identity, 1)])
    in H; [apply H|reflexivity|reflexivity|].
  repeat constructor; simpl; intuition discriminate.
Defined.

